(** * Batch decompression of compressed chunks

    A shallow embedding of [tsl/src/nodes/decompress_chunk/compressed_batch.c]:
    loading a compressed batch, the vectorized quals, the tuple materializer
    and the row cursor, with the properties of the batch state machine.

    Conventions.
    - A [Datum] is the 64-bit word of a build with [USE_FLOAT8_BYVAL]; it is a
      [Z] in [0, 2^64).  Row counts and cursors are C [int]s and are written as
      [Z].  Where a value can leave the range of [int] the conversion is
      written out with [to_int]: the 64-bit length of an arrow array that is
      assigned to [total_batch_rows], and the size of the bitmap of the
      vectorized quals.  The cursor stays between [0] and
      [total_batch_rows].
    - Arrays are lists read with [!!] and written with [<[i:=x]>].  Reading
      [compressed_columns] or a slot pointer that the C code would dereference
      out of range stops with [undefined_behaviour].
    - [elog(ERROR)], [ereport(ERROR)] and a failed [Ensure] leave the function
      by a non-local exit: they are the [Raise] outcome, which keeps the batch
      state as it was when the error was raised.
    - [Assert]s are compiled out of a release build and are not executed by the
      model; the theorems take the ones they need as hypotheses.
    - The instrumentation counter [InstrCountFiltered1] is not modelled. *)

From stdpp Require Import base list list_numbers.

Local Open Scope Z_scope.

(** ** Data model *)

Definition Datum := Z.
Definition Oid := Z.

(** The [int] that a wider integer is narrowed to, and that an [int]
    operation wraps to: the value modulo [2^32] in [INT_MIN .. INT_MAX]. *)
Definition INT_MAX : Z := 2 ^ 31 - 1.

Definition to_int (value : Z) : Z := (value + 2 ^ 31) mod 2 ^ 32 - 2 ^ 31.

(** Type oids of [catalog/pg_type_d.h]. *)
Definition INT8OID : Oid := 20.
Definition INT2OID : Oid := 21.
Definition INT4OID : Oid := 23.
Definition FLOAT4OID : Oid := 700.
Definition FLOAT8OID : Oid := 701.
Definition DATEOID : Oid := 1082.
Definition TIMESTAMPOID : Oid := 1114.
Definition TIMESTAMPTZOID : Oid := 1184.

(** What [try_next] returns. *)
Record DecompressResult := {
  val : Datum;
  is_null : bool;
  is_done : bool }.

(** A decompression iterator is an opaque object with one operation,
    [try_next].  It is deterministic, so it is the sequence of the results it
    will return together with the number of calls made so far. *)
Record DecompressionIterator := {
  results : nat -> DecompressResult;
  pulls : nat }.

Definition try_next (it : DecompressionIterator)
  : DecompressResult * DecompressionIterator :=
  (results it (pulls it), {| results := results it; pulls := S (pulls it) |}).

(** The Arrow C data interface, as far as this file reads it: [buffers[0]]
    is the validity bitmap, an array of [uint64], and [buffers[1]] the values,
    an array of bytes. *)
Record ArrowArray := {
  arrow_length : Z;
  null_count : Z;
  n_buffers : Z;
  buffers_0 : option (list Z);
  buffers_1 : option (list Z) }.

Record CompressedColumnValues := {
  iterator : option DecompressionIterator;
  arrow : option ArrowArray;
  value_bytes : Z;
  arrow_values : option (list Z);
  arrow_validity : option (list Z);
  output_attno : Z }.

Record TupleDesc := {
  natts : nat;
  attmissingval : list (option Datum) }.

Record TupleTableSlot := {
  tts_empty : bool;
  tts_tupleDescriptor : TupleDesc;
  tts_values : list Datum;
  tts_isnull : list bool }.

Inductive DecompressChunkColumnType :=
| SEGMENTBY_COLUMN
| COMPRESSED_COLUMN
| COUNT_COLUMN
| SEQUENCE_NUM_COLUMN.

Record DecompressChunkColumnDescription := {
  type : DecompressChunkColumnType;
  typid : Oid;
  template_output_attno : Z;
  compressed_scan_attno : Z;
  bulk_decompression_supported : bool }.

Record CompressedDataHeader := {
  compression_algorithm : Z;
  payload : list Z }.

Record Var := { varattno : Z; vartype : Oid }.
Record Const := { constvalue : Datum; constisnull : bool }.

(** A vectorized qual is [Var ? Const]. *)
Record OpExpr := { opno : Oid; arg_var : Var; arg_const : Const }.

Record DecompressChunkState := {
  ss_ScanTupleSlot : TupleTableSlot;
  qual : option (TupleTableSlot -> bool);
  num_total_columns : nat;
  num_compressed_columns : nat;
  template_columns : list DecompressChunkColumnDescription;
  reverse : bool;
  enable_bulk_decompression : bool;
  vectorized_quals : list OpExpr }.

(** A memory context is the list of the chunks this file allocated in it
    since its last reset. *)
Inductive Chunk :=
| vector_qual_result_chunk (bytes : Z)
| single_value_arrow_chunk.

Definition MemoryContext := list Chunk.

Record DecompressBatchState := {
  compressed_slot : option TupleTableSlot;
  decompressed_scan_slot : option TupleTableSlot;
  total_batch_rows : Z;
  next_batch_row : Z;
  per_batch_context : option MemoryContext;
  vector_qual_result : option (list Z);
  compressed_columns : list CompressedColumnValues;
  (* ghost: the calls made to the vectorized predicates, latest first; it
     records an effect of the C code and is not a field of the struct *)
  predicate_calls : list (ArrowArray * Datum) }.

(** Field updates. *)
Definition with_iterator (it : option DecompressionIterator)
    (c : CompressedColumnValues) : CompressedColumnValues :=
  {| iterator := it; arrow := arrow c; value_bytes := value_bytes c;
     arrow_values := arrow_values c; arrow_validity := arrow_validity c;
     output_attno := output_attno c |}.

Definition with_compressed_slot (s : option TupleTableSlot)
    (bs : DecompressBatchState) : DecompressBatchState :=
  {| compressed_slot := s;
     decompressed_scan_slot := decompressed_scan_slot bs;
     total_batch_rows := total_batch_rows bs;
     next_batch_row := next_batch_row bs;
     per_batch_context := per_batch_context bs;
     vector_qual_result := vector_qual_result bs;
     compressed_columns := compressed_columns bs;
     predicate_calls := predicate_calls bs |}.

Definition with_decompressed_scan_slot (s : option TupleTableSlot)
    (bs : DecompressBatchState) : DecompressBatchState :=
  {| compressed_slot := compressed_slot bs;
     decompressed_scan_slot := s;
     total_batch_rows := total_batch_rows bs;
     next_batch_row := next_batch_row bs;
     per_batch_context := per_batch_context bs;
     vector_qual_result := vector_qual_result bs;
     compressed_columns := compressed_columns bs;
     predicate_calls := predicate_calls bs |}.

Definition with_total_batch_rows (n : Z)
    (bs : DecompressBatchState) : DecompressBatchState :=
  {| compressed_slot := compressed_slot bs;
     decompressed_scan_slot := decompressed_scan_slot bs;
     total_batch_rows := n;
     next_batch_row := next_batch_row bs;
     per_batch_context := per_batch_context bs;
     vector_qual_result := vector_qual_result bs;
     compressed_columns := compressed_columns bs;
     predicate_calls := predicate_calls bs |}.

Definition with_next_batch_row (n : Z)
    (bs : DecompressBatchState) : DecompressBatchState :=
  {| compressed_slot := compressed_slot bs;
     decompressed_scan_slot := decompressed_scan_slot bs;
     total_batch_rows := total_batch_rows bs;
     next_batch_row := n;
     per_batch_context := per_batch_context bs;
     vector_qual_result := vector_qual_result bs;
     compressed_columns := compressed_columns bs;
     predicate_calls := predicate_calls bs |}.

Definition with_per_batch_context (m : option MemoryContext)
    (bs : DecompressBatchState) : DecompressBatchState :=
  {| compressed_slot := compressed_slot bs;
     decompressed_scan_slot := decompressed_scan_slot bs;
     total_batch_rows := total_batch_rows bs;
     next_batch_row := next_batch_row bs;
     per_batch_context := m;
     vector_qual_result := vector_qual_result bs;
     compressed_columns := compressed_columns bs;
     predicate_calls := predicate_calls bs |}.

Definition with_vector_qual_result (r : option (list Z))
    (bs : DecompressBatchState) : DecompressBatchState :=
  {| compressed_slot := compressed_slot bs;
     decompressed_scan_slot := decompressed_scan_slot bs;
     total_batch_rows := total_batch_rows bs;
     next_batch_row := next_batch_row bs;
     per_batch_context := per_batch_context bs;
     vector_qual_result := r;
     compressed_columns := compressed_columns bs;
     predicate_calls := predicate_calls bs |}.

Definition with_compressed_columns (cols : list CompressedColumnValues)
    (bs : DecompressBatchState) : DecompressBatchState :=
  {| compressed_slot := compressed_slot bs;
     decompressed_scan_slot := decompressed_scan_slot bs;
     total_batch_rows := total_batch_rows bs;
     next_batch_row := next_batch_row bs;
     per_batch_context := per_batch_context bs;
     vector_qual_result := vector_qual_result bs;
     compressed_columns := cols;
     predicate_calls := predicate_calls bs |}.

Definition with_predicate_calls (calls : list (ArrowArray * Datum))
    (bs : DecompressBatchState) : DecompressBatchState :=
  {| compressed_slot := compressed_slot bs;
     decompressed_scan_slot := decompressed_scan_slot bs;
     total_batch_rows := total_batch_rows bs;
     next_batch_row := next_batch_row bs;
     per_batch_context := per_batch_context bs;
     vector_qual_result := vector_qual_result bs;
     compressed_columns := compressed_columns bs;
     predicate_calls := calls |}.

(** ** Errors and the execution monad *)

Inductive ErrorMessage :=
| compressed_column_out_of_sync
    (* compressed column out of sync with batch counter *)
| corrupt_segment_length (count_value : Z)
    (* the compressed data is corrupt: got a segment with length %d *)
| unexpected_column_type (pgtype : Oid)
| decompressed_column_not_found (attno : Z)
| only_compressed_columns_supported
| only_arrow_columns_supported
| arrow_array_expected
| vectorized_predicate_not_found (opcode : Oid)
| vectorized_predicate_null_value
| invalid_memory_alloc_request_size (size : Z)
    (* invalid memory alloc request size %zu *)
| undefined_behaviour
| loop_fuel_exhausted.

Inductive outcome (A : Type) : Type :=
| Ok (a : A) (bs : DecompressBatchState)
| Raise (e : ErrorMessage) (bs : DecompressBatchState).
Arguments Ok {A} a bs.
Arguments Raise {A} e bs.

Definition Exec (A : Type) : Type := DecompressBatchState -> outcome A.

Definition ret {A} (a : A) : Exec A := fun bs => Ok a bs.

Definition bind {A B} (m : Exec A) (k : A -> Exec B) : Exec B :=
  fun bs =>
    match m bs with
    | Ok a bs' => k a bs'
    | Raise e bs' => Raise e bs'
    end.

Notation "x <- c1 ;; c2" := (bind c1 (fun x => c2))
  (at level 20, c1 at level 99, c2 at level 200, only parsing).
Notation "c1 ;; c2" := (bind c1 (fun _ => c2))
  (at level 100, c2 at level 200, only parsing, right associativity).

Definition get : Exec DecompressBatchState := fun bs => Ok bs bs.

Definition modify (f : DecompressBatchState -> DecompressBatchState)
  : Exec unit := fun bs => Ok tt (f bs).

Definition elog_ERROR {A} (e : ErrorMessage) : Exec A := fun bs => Raise e bs.

(** Modelled from the spec: [Ensure] is a macro of [debug_assert.h], which is
    not part of these sources.  A violated precondition is a fatal
    internal-contract error. *)
Definition Ensure (cond : bool) (e : ErrorMessage) : Exec unit :=
  if cond then ret tt else elog_ERROR e.

(** [for (int i = first; i < first + count; i++) body(i)] *)
Fixpoint for_range (first : nat) (count : nat) (body : nat -> Exec unit)
  : Exec unit :=
  match count with
  | O => ret tt
  | S count' => body first ;; for_range (S first) count' body
  end.

(** ** Slots *)

Definition AttrNumberGetAttrOffset (attno : Z) : Z := attno - 1.

(** [slot->tts_values[attr] = value; slot->tts_isnull[attr] = isnull] *)
Definition slot_store (attr : Z) (value : Datum) (isnull : bool)
    (slot : TupleTableSlot) : TupleTableSlot :=
  if attr <? 0 then slot
  else
    {| tts_empty := tts_empty slot;
       tts_tupleDescriptor := tts_tupleDescriptor slot;
       tts_values := <[Z.to_nat attr := value]> (tts_values slot);
       tts_isnull := <[Z.to_nat attr := isnull]> (tts_isnull slot) |}.

Definition set_tts_empty (b : bool) (slot : TupleTableSlot) : TupleTableSlot :=
  {| tts_empty := b;
     tts_tupleDescriptor := tts_tupleDescriptor slot;
     tts_values := tts_values slot;
     tts_isnull := tts_isnull slot |}.

Definition ExecStoreVirtualTuple := set_tts_empty false.
Definition ExecClearTuple := set_tts_empty true.

Definition MakeSingleTupleTableSlot (tupdesc : TupleDesc) : TupleTableSlot :=
  {| tts_empty := true;
     tts_tupleDescriptor := tupdesc;
     tts_values := replicate (natts tupdesc) 0;
     tts_isnull := replicate (natts tupdesc) false |}.

Definition ExecStoreAllNullTuple (slot : TupleTableSlot) : TupleTableSlot :=
  {| tts_empty := false;
     tts_tupleDescriptor := tts_tupleDescriptor slot;
     tts_values := replicate (natts (tts_tupleDescriptor slot)) 0;
     tts_isnull := replicate (natts (tts_tupleDescriptor slot)) true |}.

(** [ExecCopySlot(dst, src)]: the destination keeps its descriptor. *)
Definition ExecCopySlot (dst src : TupleTableSlot) : TupleTableSlot :=
  {| tts_empty := tts_empty src;
     tts_tupleDescriptor := tts_tupleDescriptor dst;
     tts_values := tts_values src;
     tts_isnull := tts_isnull src |}.

Definition TupIsNull (slot : option TupleTableSlot) : bool :=
  match slot with
  | None => true
  | Some s => tts_empty s
  end.

(** The decompressed scan slot of the batch; the C code dereferences the
    pointer without a check. *)
Definition scan_slot : Exec TupleTableSlot :=
  fun bs =>
    match decompressed_scan_slot bs with
    | Some slot => Ok slot bs
    | None => Raise undefined_behaviour bs
    end.

Definition update_scan_slot (f : TupleTableSlot -> TupleTableSlot)
  : Exec unit :=
  slot <- scan_slot ;;
  modify (with_decompressed_scan_slot (Some (f slot))).

(** ** Columns *)

(** [batch_state->compressed_columns[i]] *)
Definition column_at (i : nat) : Exec CompressedColumnValues :=
  fun bs =>
    match compressed_columns bs !! i with
    | Some column_values => Ok column_values bs
    | None => Raise undefined_behaviour bs
    end.

Definition set_column (i : nat) (column_values : CompressedColumnValues)
  : Exec unit :=
  modify (fun bs =>
    with_compressed_columns (<[i := column_values]> (compressed_columns bs)) bs).

(** [column_values->iterator->try_next(column_values->iterator)] for column
    [i]: the iterator object is advanced in place. *)
Definition iterator_try_next (i : nat) (column_values : CompressedColumnValues)
    (it : DecompressionIterator) : Exec DecompressResult :=
  let '(result, it') := try_next it in
  set_column i (with_iterator (Some it') column_values) ;;
  ret result.

(** ** Buffers *)

Definition byte_at (src : list Z) (offset : nat) : Z :=
  default 0 (src !! offset).

(** [memcpy(&value, &src[offset], n)] into a zeroed little-endian integer. *)
Fixpoint read_le (n : nat) (src : list Z) (offset : nat) : Z :=
  match n with
  | O => 0
  | S n' => byte_at src offset + 256 * read_le n' src (S offset)
  end.

Definition read_uint64 (src : list Z) (offset : Z) : Z :=
  read_le 8 src (Z.to_nat offset).

Definition Int64GetDatum (value : Z) : Datum := value.

(** Modelled from the spec: [arrow_row_is_valid] is defined in
    [compression/arrow_c_data_interface.h], which is not part of these
    sources.  "A bulk source's validity bitmap has one bit per row
    (1 = valid); absence of nulls may be signaled by a sentinel meaning
    assume all valid."  The bitmap is an array of 64-bit words. *)
Definition arrow_row_is_valid (bitmap : option (list Z)) (row_number : Z)
  : bool :=
  match bitmap with
  | None => true
  | Some words =>
      Z.testbit (default 0 (words !! Z.to_nat (row_number / 64)))
                (row_number mod 64)
  end.

(** [n] bytes of [value], least significant first. *)
Fixpoint write_le (n : nat) (value : Z) : list Z :=
  match n with
  | O => []
  | S n' => (value mod 256) :: write_le n' (value / 256)
  end.

(** [palloc] in the current memory context, which is the per-batch context
    whenever this file allocates. *)
Definition palloc (chunk : Chunk) : Exec unit :=
  modify (fun bs =>
    with_per_batch_context (cons chunk <$> per_batch_context bs) bs).

(** [palloc(size)] for a size that is computed: the argument is converted
    to [Size], an unsigned 64-bit integer, and [palloc] of [mcxt.c] raises
    an error for a request above [MaxAllocSize], which is what a negative
    [int] converts to. *)
Definition MaxAllocSize : Z := 2 ^ 30 - 1.

Definition palloc_size (size : Z) (chunk : Chunk) : Exec unit :=
  if size mod 2 ^ 64 <=? MaxAllocSize then palloc chunk
  else elog_ERROR (invalid_memory_alloc_request_size (size mod 2 ^ 64)).

(** ** Vectorized quals *)

(** The width in bytes of the C type that [FOR_TYPE] stores for a column
    type, when the type is one of those the switch lists. *)
Definition single_value_width (pgtype : Oid) : option Z :=
  if pgtype =? INT8OID then Some 8
  else if pgtype =? INT4OID then Some 4
  else if pgtype =? INT2OID then Some 2
  else if pgtype =? FLOAT8OID then Some 8
  else if pgtype =? FLOAT4OID then Some 4
  else if pgtype =? TIMESTAMPTZOID then Some 8
  else if pgtype =? TIMESTAMPOID then Some 8
  else if pgtype =? DATEOID then Some 4
  else None.

Definition single_value_arrow (nulls_buffer : Z) (values_buffer : Z)
  : ArrowArray :=
  {| arrow_length := 1;
     null_count := -1;
     n_buffers := 2;
     buffers_0 := Some [nulls_buffer];
     buffers_1 := Some (write_le 8 values_buffer) |}.

Definition make_single_value_arrow (pgtype : Oid) (datum : Datum)
    (isnull : bool) : Exec ArrowArray :=
  palloc single_value_arrow_chunk ;;
  if isnull then ret (single_value_arrow 0 0)
  else
    match single_value_width pgtype with
    | Some width =>
        (* arrow_set_row_validity(&with_buffers->nulls_buffer, 0, true) *)
        ret (single_value_arrow 1 (datum mod 2 ^ (8 * width)))
    | None => elog_ERROR (unexpected_column_type pgtype)
    end.

(** The search loop for the column a [Var] refers to; the result is
    [column_index] when the loop ends. *)
Fixpoint find_template_column (templates : list DecompressChunkColumnDescription)
    (attno : Z) (column_index : nat) (remaining : nat) : nat :=
  match remaining with
  | O => column_index
  | S remaining' =>
      match templates !! column_index with
      | Some column_description =>
          if template_output_attno column_description =? attno
          then column_index
          else find_template_column templates attno (S column_index) remaining'
      | None => find_template_column templates attno (S column_index) remaining'
      end
  end.

Definition is_compressed_column (t : DecompressChunkColumnType) : bool :=
  match t with
  | COMPRESSED_COLUMN => true
  | _ => false
  end.

Definition is_NULL {A} (p : option A) : bool :=
  match p with
  | None => true
  | Some _ => false
  end.

(** A [List *] is [NIL], the null pointer, when the list is empty. *)
Definition is_NIL {A} (l : list A) : bool :=
  match l with
  | [] => true
  | _ :: _ => false
  end.

(** A vectorized predicate reads an arrow array and a constant and updates
    the result bitmap it is given. *)
Definition VectorPredicate := ArrowArray -> Datum -> list Z -> list Z.

Definition UINT64_MAX : Z := 2 ^ 64 - 1.

(** [predicate(vector, constvalue, predicate_result)]: the predicate updates
    the buffer that [predicate_result] points to; the updated content is
    returned. *)
Definition call_predicate (predicate : VectorPredicate) (vector : ArrowArray)
    (constvalue : Datum) (predicate_result : list Z) : Exec (list Z) :=
  modify (fun bs =>
    with_predicate_calls ((vector, constvalue) :: predicate_calls bs) bs) ;;
  ret (predicate vector constvalue predicate_result).

(** The external collaborators: the registry of the vectorized predicates,
    the catalog, the tuple slots of the executor and the codecs. *)
Class Collaborators := {
  get_vector_const_predicate : Oid -> option VectorPredicate;
  get_opcode : Oid -> Oid;
  get_typlen : Oid -> Z;
  getmissingattr : TupleDesc -> Z -> Datum * bool;
  slot_getattr : TupleTableSlot -> Z -> Datum * bool;
  PG_DETOAST_DATUM : Datum -> CompressedDataHeader;
  tsl_get_decompress_all_function
    : Z -> CompressedDataHeader -> Oid -> option ArrowArray;
  tsl_get_decompression_iterator_init
    : Z -> bool -> CompressedDataHeader -> Oid -> DecompressionIterator }.

Section CompressedBatch.

Context `{Collaborators}.

(** The body of the [foreach] loop of [apply_vector_quals]. *)
Definition apply_vector_qual (chunk_state : DecompressChunkState)
    (bitmap_bytes : Z) (oe : OpExpr) : Exec unit :=
  let var := arg_var oe in
  let constnode := arg_const oe in
  (* Find the compressed column referred to by the Var. *)
  let column_index :=
    find_template_column (template_columns chunk_state) (varattno var)
                         0 (num_total_columns chunk_state) in
  Ensure (bool_decide (column_index < num_total_columns chunk_state)%nat)
         (decompressed_column_not_found (varattno var)) ;;
  match template_columns chunk_state !! column_index with
  | None => elog_ERROR undefined_behaviour
  | Some column_description =>
      Ensure (is_compressed_column (type column_description))
             only_compressed_columns_supported ;;
      column_values <- column_at column_index ;;
      Ensure (is_NULL (iterator column_values)) only_arrow_columns_supported ;;
      (* Prepare to compute the vector predicate. *)
      vector <-
        match arrow column_values with
        | Some vector => ret vector
        | None =>
            (* The compressed column had a default value. *)
            let attr :=
              AttrNumberGetAttrOffset (template_output_attno column_description) in
            Ensure (is_NULL (iterator column_values)) arrow_array_expected ;;
            slot <- scan_slot ;;
            make_single_value_arrow (typid column_description)
              (default 0 (tts_values slot !! Z.to_nat attr))
              (default false (tts_isnull slot !! Z.to_nat attr))
        end ;;
      (* Find and compute the predicate. *)
      match get_vector_const_predicate (get_opcode (opno oe)) with
      | None => elog_ERROR (vectorized_predicate_not_found (get_opcode (opno oe)))
      | Some predicate =>
          Ensure (negb (constisnull constnode)) vectorized_predicate_null_value ;;
          match arrow column_values with
          | Some _ =>
              (* predicate_result = batch_state->vector_qual_result *)
              batch_state <- get ;;
              match vector_qual_result batch_state with
              | None => elog_ERROR undefined_behaviour
              | Some predicate_result =>
                  result <- call_predicate predicate vector
                              (constvalue constnode) predicate_result ;;
                  modify (with_vector_qual_result (Some result))
              end
          | None =>
              (* predicate_result = &default_value_predicate_result *)
              result <- call_predicate predicate vector
                          (constvalue constnode) [1] ;;
              let default_value_predicate_result := default 0 (result !! 0%nat) in
              if negb (Z.testbit default_value_predicate_result 0)
              then
                for_range 0 (Z.to_nat (bitmap_bytes `quot` 8)) (fun i =>
                  modify (fun bs =>
                    with_vector_qual_result
                      (<[i := 0]> <$> vector_qual_result bs) bs))
              else ret tt
          end
      end
  end.

Fixpoint foreach {A} (l : list A) (body : A -> Exec unit) : Exec unit :=
  match l with
  | [] => ret tt
  | x :: l' => body x ;; foreach l' body
  end.

Definition apply_vector_quals (chunk_state : DecompressChunkState)
  : Exec unit :=
  if is_NIL (vectorized_quals chunk_state) then ret tt
  else
    batch_state <- get ;;
    (* Allocate the bitmap, initialize it to all ones.  The number of
       words is computed on [int], the product with [sizeof(uint64)] on
       [Size], and the result is assigned to an [int]. *)
    let bitmap_bytes :=
      to_int (8 * (to_int (total_batch_rows batch_state + 63) `quot` 64)) in
    palloc_size bitmap_bytes (vector_qual_result_chunk bitmap_bytes) ;;
    modify (with_vector_qual_result
              (Some (replicate (Z.to_nat (bitmap_bytes `quot` 8)) UINT64_MAX))) ;;
    (* Compute the quals. *)
    foreach (vectorized_quals chunk_state)
            (apply_vector_qual chunk_state bitmap_bytes).

(** ** Loading a batch *)

Definition empty_column (attno : Z) : CompressedColumnValues :=
  {| iterator := None;
     arrow := None;
     value_bytes := -1;
     arrow_values := None;
     arrow_validity := None;
     output_attno := attno |}.

(** [case COMPRESSED_COLUMN] of the loop over the columns. *)
Definition set_compressed_column (chunk_state : DecompressChunkState)
    (i : nat) (column_description : DecompressChunkColumnDescription)
  : Exec unit :=
  column_at i ;;
  set_column i (empty_column (template_output_attno column_description)) ;;
  batch_state <- get ;;
  match compressed_slot batch_state with
  | None => elog_ERROR undefined_behaviour
  | Some compressed =>
      let '(value, isnull) :=
        slot_getattr compressed (compressed_scan_attno column_description) in
      if isnull then
        (* The column will have a default value for the entire batch. *)
        let attr :=
          AttrNumberGetAttrOffset (template_output_attno column_description) in
        update_scan_slot (fun slot =>
          let '(missing, missing_isnull) :=
            getmissingattr (tts_tupleDescriptor slot) (attr + 1) in
          slot_store attr missing missing_isnull slot)
      else
        (* Decompress the entire batch if it is supported. *)
        let header := PG_DETOAST_DATUM value in
        let arrow_result :=
          if enable_bulk_decompression chunk_state
             && bulk_decompression_supported column_description
          then tsl_get_decompress_all_function (compression_algorithm header)
                 header (typid column_description)
          else None in
        match arrow_result with
        | Some arrow_array =>
            (if total_batch_rows batch_state =? 0
             then
               (* [arrow->length] is an [int64], the counter an [int] *)
               modify (with_total_batch_rows
                         (to_int (arrow_length arrow_array)))
             else if negb (total_batch_rows batch_state =? arrow_length arrow_array)
             then elog_ERROR compressed_column_out_of_sync
             else ret tt) ;;
            set_column i
              {| iterator := None;
                 arrow := Some arrow_array;
                 value_bytes := get_typlen (typid column_description);
                 arrow_values := buffers_1 arrow_array;
                 arrow_validity := buffers_0 arrow_array;
                 output_attno := template_output_attno column_description |}
        | None =>
            (* As a fallback, decompress row-by-row. *)
            set_column i
              (with_iterator
                 (Some (tsl_get_decompression_iterator_init
                          (compression_algorithm header) (reverse chunk_state)
                          header (typid column_description)))
                 (empty_column (template_output_attno column_description)))
        end
  end.

(** [(int32) value] of a 64-bit [Datum]. *)
Definition DatumGetInt32 (value : Datum) : Z :=
  let low := value mod 2 ^ 32 in
  if low <? 2 ^ 31 then low else low - 2 ^ 32.

(** The body of the loop over [template_columns]. *)
Definition set_column_from_tuple (chunk_state : DecompressChunkState)
    (i : nat) : Exec unit :=
  match template_columns chunk_state !! i with
  | None => elog_ERROR undefined_behaviour
  | Some column_description =>
      match type column_description with
      | COMPRESSED_COLUMN =>
          set_compressed_column chunk_state i column_description
      | SEGMENTBY_COLUMN =>
          batch_state <- get ;;
          match compressed_slot batch_state with
          | None => elog_ERROR undefined_behaviour
          | Some compressed =>
              let attr :=
                AttrNumberGetAttrOffset
                  (template_output_attno column_description) in
              let '(value, isnull) :=
                slot_getattr compressed
                  (compressed_scan_attno column_description) in
              update_scan_slot (slot_store attr value isnull)
          end
      | COUNT_COLUMN =>
          batch_state <- get ;;
          match compressed_slot batch_state with
          | None => elog_ERROR undefined_behaviour
          | Some compressed =>
              let '(value, isnull) :=
                slot_getattr compressed
                  (compressed_scan_attno column_description) in
              let count_value := DatumGetInt32 value in
              if count_value <=? 0
              then elog_ERROR (corrupt_segment_length count_value)
              else if total_batch_rows batch_state =? 0
              then modify (with_total_batch_rows count_value)
              else if negb (total_batch_rows batch_state =? count_value)
              then elog_ERROR compressed_column_out_of_sync
              else ret tt
          end
      | SEQUENCE_NUM_COLUMN => ret tt
      end
  end.

(** The part of [compressed_batch_set_compressed_tuple] that precedes the
    loop over the columns: the slots and the memory context are created on
    first use, the compressed tuple is copied, the counters and the memory
    context are reset. *)
Definition prepare_batch_state (chunk_state : DecompressChunkState)
    (subslot : TupleTableSlot) : Exec unit :=
  batch_state <- get ;;
  (* The batch states are initialized on demand. *)
  (if is_NULL (per_batch_context batch_state) then
     modify (with_per_batch_context (Some [])) ;;
     modify (with_compressed_slot
               (Some (MakeSingleTupleTableSlot (tts_tupleDescriptor subslot)))) ;;
     modify (with_decompressed_scan_slot
               (Some (ExecClearTuple (ExecStoreAllNullTuple
                  (MakeSingleTupleTableSlot
                     (tts_tupleDescriptor (ss_ScanTupleSlot chunk_state)))))))
   else ret tt) ;;
  batch_state <- get ;;
  match compressed_slot batch_state with
  | None => elog_ERROR undefined_behaviour
  | Some compressed =>
      modify (with_compressed_slot (Some (ExecCopySlot compressed subslot)))
  end ;;
  modify (with_total_batch_rows 0) ;;
  modify (with_next_batch_row 0) ;;
  (* MemoryContextReset(batch_state->per_batch_context) *)
  modify (with_per_batch_context (Some [])).

Definition compressed_batch_set_compressed_tuple
    (chunk_state : DecompressChunkState) (subslot : TupleTableSlot)
  : Exec unit :=
  prepare_batch_state chunk_state subslot ;;
  for_range 0 (num_total_columns chunk_state)
            (set_column_from_tuple chunk_state) ;;
  apply_vector_quals chunk_state.

(** ** The tuple materializer *)

Definition arrow_row_of (chunk_state : DecompressChunkState)
    (batch_state : DecompressBatchState) : Z :=
  let output_row := next_batch_row batch_state in
  if reverse chunk_state
  then total_batch_rows batch_state - 1 - output_row
  else output_row.

(** The body of the loop over the compressed columns. *)
Definition make_next_column (arrow_row : Z) (i : nat) : Exec unit :=
  column_values <- column_at i ;;
  match iterator column_values with
  | Some it =>
      result <- iterator_try_next i column_values it ;;
      if is_done result
      then elog_ERROR compressed_column_out_of_sync
      else
        let attr := AttrNumberGetAttrOffset (output_attno column_values) in
        update_scan_slot (slot_store attr (val result) (is_null result))
  | None =>
      match arrow_values column_values with
      | Some src =>
          (* memcpy(&value, &src[column_values.value_bytes * arrow_row], 8) *)
          let value :=
            read_uint64 src (value_bytes column_values * arrow_row) in
          let datum := Int64GetDatum value in
          let attr := AttrNumberGetAttrOffset (output_attno column_values) in
          update_scan_slot
            (slot_store attr datum
               (negb (arrow_row_is_valid (arrow_validity column_values)
                                         arrow_row)))
      | None => ret tt
      end
  end.

Definition compressed_batch_make_next_tuple
    (chunk_state : DecompressChunkState) : Exec unit :=
  batch_state <- get ;;
  let arrow_row := arrow_row_of chunk_state batch_state in
  for_range 0 (num_compressed_columns chunk_state)
            (make_next_column arrow_row) ;;
  decompressed_scan_slot <- scan_slot ;;
  if tts_empty decompressed_scan_slot
  then update_scan_slot ExecStoreVirtualTuple
  else ret tt.

Definition compressed_batch_vector_qual (chunk_state : DecompressChunkState)
    (batch_state : DecompressBatchState) : bool :=
  let arrow_row := arrow_row_of chunk_state batch_state in
  match vector_qual_result batch_state with
  | None => true
  | Some bitmap => arrow_row_is_valid (Some bitmap) arrow_row
  end.

(** [ExecQual] is the opaque row filter of the scan. *)
Definition compressed_batch_postgres_qual (chunk_state : DecompressChunkState)
  : Exec bool :=
  match qual chunk_state with
  | None => ret true
  | Some ExecQual =>
      decompressed_scan_slot <- scan_slot ;;
      ret (ExecQual decompressed_scan_slot)
  end.

(** ** The row cursor *)

Definition next_batch_row_incr : Exec unit :=
  modify (fun bs => with_next_batch_row (next_batch_row bs + 1) bs).

(** The rows that do not pass the vectorized quals still advance the
    iterated columns. *)
Definition skip_column (i : nat) : Exec unit :=
  column_values <- column_at i ;;
  match iterator column_values with
  | Some it => iterator_try_next i column_values it ;; ret tt
  | None => ret tt
  end.

(** At the end of the batch the iterated columns must have ended. *)
Definition check_column_done (i : nat) : Exec unit :=
  column_values <- column_at i ;;
  match iterator column_values with
  | Some it =>
      result <- iterator_try_next i column_values it ;;
      if negb (is_done result)
      then elog_ERROR compressed_column_out_of_sync
      else ret tt
  | None => ret tt
  end.

(** The [for] loop of [compressed_batch_advance] and what follows it; [fuel]
    bounds the number of iterations. *)
Fixpoint advance_loop (fuel : nat) (chunk_state : DecompressChunkState)
  : Exec unit :=
  batch_state <- get ;;
  if next_batch_row batch_state <? total_batch_rows batch_state then
    match fuel with
    | O => elog_ERROR loop_fuel_exhausted
    | S fuel' =>
        if negb (compressed_batch_vector_qual chunk_state batch_state) then
          for_range 0 (num_compressed_columns chunk_state) skip_column ;;
          next_batch_row_incr ;;
          advance_loop fuel' chunk_state
        else
          compressed_batch_make_next_tuple chunk_state ;;
          passed <- compressed_batch_postgres_qual chunk_state ;;
          if negb passed then
            next_batch_row_incr ;;
            advance_loop fuel' chunk_state
          else
            (* The tuple passed the qual. *)
            next_batch_row_incr
    end
  else
    (* Reached end of batch. *)
    for_range 0 (num_compressed_columns chunk_state) check_column_done ;;
    update_scan_slot ExecClearTuple.

Definition compressed_batch_advance (chunk_state : DecompressChunkState)
  : Exec unit :=
  batch_state <- get ;;
  advance_loop
    (Z.to_nat (total_batch_rows batch_state - next_batch_row batch_state))
    chunk_state.

(** The first tuple is copied into [first_tuple_slot], which is returned. *)
Definition compressed_batch_save_first_tuple
    (chunk_state : DecompressChunkState) (first_tuple_slot : TupleTableSlot)
  : Exec TupleTableSlot :=
  compressed_batch_make_next_tuple chunk_state ;;
  decompressed_scan_slot <- scan_slot ;;
  let first_tuple_slot := ExecCopySlot first_tuple_slot decompressed_scan_slot in
  batch_state <- get ;;
  qual_passed <-
    (if compressed_batch_vector_qual chunk_state batch_state
     then compressed_batch_postgres_qual chunk_state
     else ret false) ;;
  next_batch_row_incr ;;
  (if negb qual_passed
   then compressed_batch_advance chunk_state
   else ret tt) ;;
  ret first_tuple_slot.

End CompressedBatch.

(** * Vectorized aggregation in the planner

    The two functions that decide whether the sum of a partial aggregation
    can be computed inside the DecompressChunk node.  A path is a tagged
    structure: [DecompressChunkPath] embeds a custom path, which embeds a
    path; of the paths below it, which are reached through pointers to
    [Path], the fields of [Path] are what can be read.
    [ts_is_decompress_chunk_path] is declared in
    [nodes/decompress_chunk/decompress_chunk.h], and the GUC
    [ts_guc_enable_vectorized_aggregation] is a global variable; both are
    parameters of the functions here.  A cast of a path that is not a
    [DecompressChunkPath] and [linitial] of an empty list have no defined
    result: the functions return [None] there. *)

Inductive Node :=
| Aggref (aggfnoid : Oid)
| OtherNode (tag : Z).

Record PathTarget := { exprs : list Node }.

Record RelOptInfo := { baserestrictinfo : list Node }.

Record PathFields := {
  parent : RelOptInfo;
  pathtarget : PathTarget }.

Inductive Path :=
| OtherPath (path : PathFields)
| DecompressChunkPath (path : PathFields) (custom_paths : list PathFields)
    (perform_vectorized_aggregation : bool).

Definition path_fields (p : Path) : PathFields :=
  match p with
  | OtherPath path => path
  | DecompressChunkPath path _ _ => path
  end.

Record AggPath := { agg_path : PathFields }.

Record PlannerInfo := { hasHavingQual : bool }.

(** [fmgroids.h] *)
Definition F_SUM_INT4 : Oid := 2108.

(** [#define is_restricted_path(path)
     list_length(path->parent->baserestrictinfo)] *)
Definition is_restricted_path (path : PathFields) : bool :=
  negb (length (baserestrictinfo (parent path)) =? 0)%nat.

Section Planner.
Variable ts_is_decompress_chunk_path : Path -> bool.

(** Are we able to optimize the path by applying vectorized aggregation? *)
Definition is_vectorizable_agg_path (root : PlannerInfo) (agg : AggPath)
    (p : Path) : option bool :=
  (* Having is not supported at the moment *)
  if hasHavingQual root then Some false
  (* Only vectorizing within the decompress node is supported so far *)
  else if negb (ts_is_decompress_chunk_path p) then Some false
  else
    match p with
    | OtherPath _ => None
    | DecompressChunkPath _ custom_paths _ =>
        match custom_paths with
        | [] => None
        | compressed_path :: _ =>
            (* No filters are supported at the moment *)
            if is_restricted_path (path_fields p)
               || is_restricted_path compressed_path
            then Some false
            (* We currently handle only one agg function per node *)
            else if negb (length (exprs (pathtarget (agg_path agg))) =? 1)%nat
            then Some false
            else
              (* Only sum on int 4 is supported at the moment *)
              match exprs (pathtarget (agg_path agg)) with
              | [] => None
              | Aggref aggfnoid :: _ =>
                  if negb (aggfnoid =? F_SUM_INT4) then Some false
                  else Some true
              | OtherNode _ :: _ => Some false
              end
        end
    end.

(** The result is what is returned and the path as the call leaves it. *)
Definition apply_vectorized_agg_optimization
    (ts_guc_enable_vectorized_aggregation : bool)
    (root : PlannerInfo) (aggregation_path : AggPath) (p : Path)
  : option (bool * Path) :=
  if negb ts_guc_enable_vectorized_aggregation then Some (false, p)
  else
    match is_vectorizable_agg_path root aggregation_path p with
    | None => None
    | Some true =>
        match p with
        | OtherPath _ => None
        | DecompressChunkPath path custom_paths _ =>
            (* Change the output of the path and let the decompress chunk
               node emit partial aggregates directly *)
            Some (true,
                  DecompressChunkPath
                    {| parent := parent path;
                       pathtarget := pathtarget (agg_path aggregation_path) |}
                    custom_paths true)
        end
    | Some false =>
        (* PostgreSQL should handle the aggregation. *)
        Some (false, p)
    end.
End Planner.
(** ** The rows of a batch, as the cursor reaches them *)

(** A column whose iterator has been pulled [k] more times. *)
Definition pull_n (k : nat) (column_values : CompressedColumnValues)
  : CompressedColumnValues :=
  with_iterator
    ((fun it => {| results := results it; pulls := k + pulls it |})
       <$> iterator column_values)
    column_values.

(** What the materializer writes for one column: the attribute offset, the
    value and the null flag. *)
Definition column_write (arrow_row : Z) (column_values : CompressedColumnValues)
  : option (Z * Datum * bool) :=
  let attr := AttrNumberGetAttrOffset (output_attno column_values) in
  match iterator column_values with
  | Some it =>
      let result := results it (pulls it) in
      Some (attr, val result, is_null result)
  | None =>
      match arrow_values column_values with
      | Some src =>
          Some (attr,
                Int64GetDatum
                  (read_uint64 src (value_bytes column_values * arrow_row)),
                negb (arrow_row_is_valid (arrow_validity column_values)
                                         arrow_row))
      | None => None
      end
  end.

Definition apply_write (slot : TupleTableSlot) (w : Z * Datum * bool)
  : TupleTableSlot :=
  slot_store w.1.1 w.1.2 w.2 slot.

Definition materialize_row (arrow_row : Z)
    (columns : list CompressedColumnValues) (slot : TupleTableSlot)
  : TupleTableSlot :=
  foldl apply_write slot (omap (column_write arrow_row) columns).

(** The batch state with a new cursor, new column states and a new content
    of the output slot. *)
Definition with_progress (next : Z) (columns : list CompressedColumnValues)
    (slot : TupleTableSlot) (bs : DecompressBatchState)
  : DecompressBatchState :=
  {| compressed_slot := compressed_slot bs;
     decompressed_scan_slot := Some slot;
     total_batch_rows := total_batch_rows bs;
     next_batch_row := next;
     per_batch_context := per_batch_context bs;
     vector_qual_result := vector_qual_result bs;
     compressed_columns := columns;
     predicate_calls := predicate_calls bs |}.

(** The batch state [bs] moved [k] rows further: the cursor and every
    iterator are [k] steps ahead, the output slot is untouched. *)
Definition seek (k : nat) (bs : DecompressBatchState) : DecompressBatchState :=
  with_compressed_columns (pull_n k <$> compressed_columns bs)
    (with_next_batch_row (next_batch_row bs + Z.of_nat k) bs).

(** The row [k] rows after the cursor of [bs], materialized into [slot]. *)
Definition row_at (chunk_state : DecompressChunkState)
    (bs : DecompressBatchState) (k : nat) (slot : TupleTableSlot)
  : TupleTableSlot :=
  ExecStoreVirtualTuple
    (materialize_row (arrow_row_of chunk_state (seek k bs))
                     (compressed_columns (seek k bs)) slot).

(** Whether the row [k] rows after the cursor passes the vectorized quals
    and the row filter. *)
Definition row_passes (chunk_state : DecompressChunkState)
    (bs : DecompressBatchState) (slot : TupleTableSlot) (k : nat) : bool :=
  compressed_batch_vector_qual chunk_state (seek k bs)
  && match qual chunk_state with
     | None => true
     | Some ExecQual => ExecQual (row_at chunk_state bs k slot)
     end.

(** The first of the [count] rows from offset [k] on that passes. *)
Fixpoint first_passing (passes : nat -> bool) (k : nat) (count : nat)
  : option nat :=
  match count with
  | O => None
  | S count' =>
      if passes k then Some k else first_passing passes (S k) count'
  end.

Definition rows_left (bs : DecompressBatchState) : nat :=
  Z.to_nat (total_batch_rows bs - next_batch_row bs).

(** An iterator is in sync with the batch counter when it yields a value for
    each of the rows that are left and reports the end after them. *)
Definition iterator_in_sync (left : nat) (it : DecompressionIterator) : bool :=
  forallb (fun k => negb (is_done (results it (k + pulls it)))) (seq 0 left)
  && is_done (results it (left + pulls it)).

Definition columns_in_sync (bs : DecompressBatchState) : bool :=
  forallb (fun column_values =>
             match iterator column_values with
             | Some it => iterator_in_sync (rows_left bs) it
             | None => true
             end)
          (compressed_columns bs).

(** The caller's loop: advance until the output slot comes back empty, and
    collect the rows that were returned.  [fuel] bounds the number of calls. *)
Fixpoint advance_until_empty (fuel : nat) (chunk_state : DecompressChunkState)
  : Exec (list TupleTableSlot) :=
  compressed_batch_advance chunk_state ;;
  batch_state <- get ;;
  match decompressed_scan_slot batch_state with
  | None => elog_ERROR undefined_behaviour
  | Some slot =>
      if tts_empty slot then ret []
      else
        match fuel with
        | O => elog_ERROR loop_fuel_exhausted
        | S fuel' =>
            rows <- advance_until_empty fuel' chunk_state ;;
            ret (slot :: rows)
        end
  end.

Definition advance_to_exhaustion (chunk_state : DecompressChunkState)
  : Exec (list TupleTableSlot) :=
  batch_state <- get ;;
  advance_until_empty (rows_left batch_state) chunk_state.

(** What the materializer does to the slot for one column. *)
Definition materialize_column (arrow_row : Z)
    (column_values : CompressedColumnValues) (slot : TupleTableSlot)
  : TupleTableSlot :=
  match column_write arrow_row column_values with
  | Some w => apply_write slot w
  | None => slot
  end.

(** The next result of the iterator of a column, if it has one, has
    [is_done = expected]. *)
Definition reports_done (expected : bool)
    (column_values : CompressedColumnValues) : Prop :=
  forall it, iterator column_values = Some it ->
             is_done (results it (pulls it)) = expected.

(** One step of a loop over the columns: column [i] is pulled once and the
    slot is transformed by [g]. *)
Definition column_step (body : nat -> Exec unit)
    (P : CompressedColumnValues -> Prop)
    (g : CompressedColumnValues -> TupleTableSlot -> TupleTableSlot) : Prop :=
  forall i s c slot,
    compressed_columns s !! i = Some c -> P c ->
    decompressed_scan_slot s = Some slot ->
    body i s = Ok tt (with_progress (next_batch_row s)
                        (<[i := pull_n 1 c]> (compressed_columns s))
                        (g c slot) s).

(** Two contents of the output slot after which every row materializes to
    the same tuple. *)
Definition slot_equiv (columns : list CompressedColumnValues)
    (slot slot0 : TupleTableSlot) : Prop :=
  forall r k,
    ExecStoreVirtualTuple (materialize_row r (pull_n k <$> columns) slot)
    = ExecStoreVirtualTuple (materialize_row r (pull_n k <$> columns) slot0).

(** The state [k] rows after [bs0], with [slot] in the output slot. *)
Definition state_at (bs0 : DecompressBatchState) (k : nat)
    (slot : TupleTableSlot) : DecompressBatchState :=
  with_progress (next_batch_row bs0 + Z.of_nat k)
                (pull_n k <$> compressed_columns bs0) slot bs0.

(** The state at the end of the batch: the cursor is at the end, every
    iterator was also asked for the end, the output slot is cleared. *)
Definition exhausted (bs0 : DecompressBatchState) (slot : TupleTableSlot)
  : DecompressBatchState :=
  with_progress (total_batch_rows bs0)
                (pull_n (S (rows_left bs0)) <$> compressed_columns bs0)
                (ExecClearTuple slot) bs0.

(** What [compressed_batch_advance] returns when it starts [k] rows after
    [bs0] with [count] rows left. *)
Definition advance_post (chunk_state : DecompressChunkState)
    (bs0 : DecompressBatchState) (slot0 : TupleTableSlot)
    (k count : nat) (out : outcome unit) : Prop :=
  match first_passing (row_passes chunk_state bs0 slot0) k count with
  | Some j =>
      out = Ok tt (state_at bs0 (S j) (row_at chunk_state bs0 j slot0))
  | None =>
      exists slot', slot_equiv (compressed_columns bs0) slot' slot0
                    /\ out = Ok tt (exhausted bs0 slot')
  end.

(** The rows that pass among the [count] rows from offset [k] on, each as the
    materializer builds it. *)
Definition passing_rows (chunk_state : DecompressChunkState)
    (bs : DecompressBatchState) (slot : TupleTableSlot) (k count : nat)
  : list TupleTableSlot :=
  (fun j => row_at chunk_state bs j slot)
    <$> filter (fun j => row_passes chunk_state bs slot j) (seq k count).

(** Some iterator of the batch state has a next result with
    [is_done = expected]. *)
Definition some_iterator_reports (expected : bool)
    (bs : DecompressBatchState) : Prop :=
  exists column_values it,
    column_values ∈ compressed_columns bs
    /\ iterator column_values = Some it
    /\ is_done (results it (pulls it)) = expected.

(** [compressed_batch_advance] drops the row [k] rows after the cursor and
    goes on with the next one: the bitmap of the vectorized quals excludes
    the row, or the row is materialized, no iterator having ended, and the
    row filter rejects it. *)
Definition row_dropped (chunk_state : DecompressChunkState)
    (bs : DecompressBatchState) (slot : TupleTableSlot) (k : nat) : Prop :=
  row_passes chunk_state bs slot k = false
  /\ (compressed_batch_vector_qual chunk_state (seek k bs) = true ->
      Forall (reports_done false) (compressed_columns (seek k bs))).

(** The scan in the other direction. *)
Definition with_reverse (b : bool) (chunk_state : DecompressChunkState)
  : DecompressChunkState :=
  {| ss_ScanTupleSlot := ss_ScanTupleSlot chunk_state;
     qual := qual chunk_state;
     num_total_columns := num_total_columns chunk_state;
     num_compressed_columns := num_compressed_columns chunk_state;
     template_columns := template_columns chunk_state;
     reverse := b;
     enable_bulk_decompression := enable_bulk_decompression chunk_state;
     vectorized_quals := vectorized_quals chunk_state |}.

(** The same column of the same batch, decoded for a forward and for a
    reverse scan: the bulk form is the same, an iterator yields the [total]
    values in the opposite order. *)
Definition mirrored_column (total : nat)
    (forward backward : CompressedColumnValues) : Prop :=
  arrow_values backward = arrow_values forward
  /\ arrow_validity backward = arrow_validity forward
  /\ value_bytes backward = value_bytes forward
  /\ output_attno backward = output_attno forward
  /\ match iterator forward, iterator backward with
     | None, None => True
     | Some it_f, Some it_b =>
         forall k, (k < total)%nat ->
           results it_b (k + pulls it_b)
           = results it_f (total - 1 - k + pulls it_f)
     | _, _ => False
     end.

(** The column of a vectorized qual is in bulk form, or it has a default
    value from which the single-value arrow array can be built. *)
Definition qual_column_ready (column_description : DecompressChunkColumnDescription)
    (column_values : CompressedColumnValues) (bs : DecompressBatchState)
  : Prop :=
  iterator column_values = None
  /\ (is_Some (arrow column_values)
      \/ exists slot,
           decompressed_scan_slot bs = Some slot
           /\ let attr :=
                Z.to_nat (AttrNumberGetAttrOffset
                            (template_output_attno column_description)) in
              default false (tts_isnull slot !! attr) = true
              \/ is_Some (single_value_width (typid column_description))).


Definition is_byte (b : Z) : Prop := 0 <= b < 256.

(** The state an outcome leaves behind. *)
Definition outcome_state {A} (out : outcome A) : DecompressBatchState :=
  match out with
  | Ok _ bs => bs
  | Raise _ bs => bs
  end.

(** A computation that leaves a part of the state alone, whether it returns
    or raises. *)
Definition preserves {A X} (part : DecompressBatchState -> X) (m : Exec A)
  : Prop :=
  forall bs, part (outcome_state (m bs)) = part bs.

(** The cursor, the row count and the bitmap of the vectorized quals. *)
Definition cursor_of (bs : DecompressBatchState) : Z * Z * option (list Z) :=
  (next_batch_row bs, total_batch_rows bs, vector_qual_result bs).

(** A computation that raises no error of the C code: it returns, or stops
    where the C code has undefined behaviour. *)
Definition raises_no_error {A} (m : Exec A) : Prop :=
  forall bs e bs', m bs = Raise e bs' -> e = undefined_behaviour.

(** A computation that never raises [e]. *)
Definition never_raises {A} (e : ErrorMessage) (m : Exec A) : Prop :=
  forall bs e' bs', m bs = Raise e' bs' -> e' <> e.

(** Two batch states with [n] compressed columns that agree on everything
    but the compressed columns from index [i] on, and on the bitmap of the
    vectorized quals unless the scan has vectorized quals ([quals]). *)
Definition agree_from (quals : Prop) (n i : nat)
    (bs1 bs2 : DecompressBatchState) : Prop :=
  compressed_slot bs1 = compressed_slot bs2
  /\ decompressed_scan_slot bs1 = decompressed_scan_slot bs2
  /\ total_batch_rows bs1 = total_batch_rows bs2
  /\ next_batch_row bs1 = next_batch_row bs2
  /\ per_batch_context bs1 = per_batch_context bs2
  /\ predicate_calls bs1 = predicate_calls bs2
  /\ (quals \/ vector_qual_result bs1 = vector_qual_result bs2)
  /\ length (compressed_columns bs1) = n
  /\ length (compressed_columns bs2) = n
  /\ take i (compressed_columns bs1) = take i (compressed_columns bs2).

(** Two runs end the same way: with the same error, or with results and
    states related by [R]. *)
Definition outcomes_agree {A} (R : DecompressBatchState -> DecompressBatchState -> Prop)
    (out1 out2 : outcome A) : Prop :=
  match out1, out2 with
  | Ok a1 bs1, Ok a2 bs2 => a1 = a2 /\ R bs1 bs2
  | Raise e1 _, Raise e2 _ => e1 = e2
  | _, _ => False
  end.

(** What of a batch state outlives a batch: the output slot, the
    descriptor of the slot for the compressed tuple, the number of
    compressed columns and the log of the predicate calls.  Both states have
    been used before. *)
Definition same_persistent (bs1 bs2 : DecompressBatchState) : Prop :=
  decompressed_scan_slot bs1 = decompressed_scan_slot bs2
  /\ (exists compressed1 compressed2,
        compressed_slot bs1 = Some compressed1
        /\ compressed_slot bs2 = Some compressed2
        /\ tts_tupleDescriptor compressed1 = tts_tupleDescriptor compressed2)
  /\ length (compressed_columns bs1) = length (compressed_columns bs2)
  /\ predicate_calls bs1 = predicate_calls bs2
  /\ is_Some (per_batch_context bs1)
  /\ is_Some (per_batch_context bs2).

(** The single-value arrow array that stands for the default value of a
    column: one row, whose validity bit tells whether the default value is
    null, and whose value is the default value in the width of its type. *)
Definition default_value_arrow (width : Z) (datum : Datum) (isnull : bool)
  : ArrowArray :=
  if isnull then single_value_arrow 0 0
  else single_value_arrow 1 (datum mod 2 ^ (8 * width)).


(** *** What an earlier batch leaves in the output slot *)

(** The two slots hold the same value and null flag at offset [a]. *)
Definition agree_at (a : nat) (slot1 slot2 : TupleTableSlot) : Prop :=
  tts_values slot1 !! a = tts_values slot2 !! a
  /\ tts_isnull slot1 !! a = tts_isnull slot2 !! a.

(** Two slots over the same descriptor, both empty or both stored. *)
Definition same_shape (slot1 slot2 : TupleTableSlot) : Prop :=
  tts_empty slot1 = tts_empty slot2
  /\ tts_tupleDescriptor slot1 = tts_tupleDescriptor slot2
  /\ length (tts_values slot1) = length (tts_values slot2)
  /\ length (tts_isnull slot1) = length (tts_isnull slot2).

(** A column that the materializer writes for each row. *)
Definition per_row (c : CompressedColumnValues) : Prop :=
  is_Some (iterator c) \/ is_Some (arrow_values c).

(** The template column [d] stores into offset [a] of the output slot. *)
Definition stores_at (d : DecompressChunkColumnDescription) (a : nat) : Prop :=
  (type d = COMPRESSED_COLUMN \/ type d = SEGMENTBY_COLUMN)
  /\ AttrNumberGetAttrOffset (template_output_attno d) = Z.of_nat a.

(** While the columns from [i] on are still to be set up, offset [a] of the
    output slot is going to be stored into: by a column that is still to be
    set up, or for each row by a column that has been set up. *)
Definition pending (chunk_state : DecompressChunkState) (i : nat)
    (cols : list CompressedColumnValues) (a : nat) : Prop :=
  exists j d,
    template_columns chunk_state !! j = Some d /\ stores_at d a
    /\ ((i <= j < num_total_columns chunk_state)%nat
        \/ ((j < i)%nat
            /\ exists c, cols !! j = Some c /\ per_row c
                 /\ output_attno c = template_output_attno d)).

(** The slots agree on the default values of the columns before [i]. *)
Definition defaults_agree (chunk_state : DecompressChunkState) (i : nat)
    (cols : list CompressedColumnValues) (slot1 slot2 : TupleTableSlot) : Prop :=
  forall j d c a,
    (j < i)%nat -> template_columns chunk_state !! j = Some d ->
    type d = COMPRESSED_COLUMN -> cols !! j = Some c ->
    iterator c = None -> arrow c = None ->
    AttrNumberGetAttrOffset (template_output_attno d) = Z.of_nat a ->
    agree_at a slot1 slot2.

(** Two contents of the output slot that differ only in stale values: at
    offsets that are going to be stored into. *)
Definition slots_stale (chunk_state : DecompressChunkState) (i : nat)
    (cols : list CompressedColumnValues) (slot1 slot2 : TupleTableSlot) : Prop :=
  same_shape slot1 slot2
  /\ (forall a, agree_at a slot1 slot2 \/ pending chunk_state i cols a)
  /\ defaults_agree chunk_state i cols slot1 slot2.

(** Two batch states with [n] compressed columns, while a batch is loaded
    into both: they agree on the compressed columns before [t] and on
    everything else but stale values of the output slot, the columns from
    [i] on being still to be set up. *)
Definition stale_from (chunk_state : DecompressChunkState) (quals : Prop)
    (n t i : nat) (bs1 bs2 : DecompressBatchState) : Prop :=
  compressed_slot bs1 = compressed_slot bs2
  /\ total_batch_rows bs1 = total_batch_rows bs2
  /\ next_batch_row bs1 = next_batch_row bs2
  /\ per_batch_context bs1 = per_batch_context bs2
  /\ predicate_calls bs1 = predicate_calls bs2
  /\ (quals \/ vector_qual_result bs1 = vector_qual_result bs2)
  /\ length (compressed_columns bs1) = n
  /\ length (compressed_columns bs2) = n
  /\ take t (compressed_columns bs1) = take t (compressed_columns bs2)
  /\ exists slot1 slot2,
       decompressed_scan_slot bs1 = Some slot1
       /\ decompressed_scan_slot bs2 = Some slot2
       /\ slots_stale chunk_state i (compressed_columns bs1) slot1 slot2.

(** The same once every column has been set up. *)
Definition stale_loaded (chunk_state : DecompressChunkState) (n : nat)
    (s1 s2 : DecompressBatchState) : Prop :=
  stale_from chunk_state False n
    (num_total_columns chunk_state) (num_total_columns chunk_state) s1 s2.

(** Two batch states as earlier batches can leave them: both have been
    used; their cursors, row counts, memory contexts, bitmaps and compressed
    columns are unrelated; their output slots may differ at every offset
    that a column of the scan stores into. *)
Definition left_behind (chunk_state : DecompressChunkState)
    (bs1 bs2 : DecompressBatchState) : Prop :=
  (exists compressed1 compressed2,
      compressed_slot bs1 = Some compressed1
      /\ compressed_slot bs2 = Some compressed2
      /\ tts_tupleDescriptor compressed1 = tts_tupleDescriptor compressed2)
  /\ length (compressed_columns bs1) = length (compressed_columns bs2)
  /\ predicate_calls bs1 = predicate_calls bs2
  /\ is_Some (per_batch_context bs1)
  /\ is_Some (per_batch_context bs2)
  /\ exists slot1 slot2,
       decompressed_scan_slot bs1 = Some slot1
       /\ decompressed_scan_slot bs2 = Some slot2
       /\ same_shape slot1 slot2
       /\ forall a, agree_at a slot1 slot2
                    \/ pending chunk_state 0 (compressed_columns bs1) a.

(** Two batch states that are equal but for the content of the output
    slot, and from which every row materializes to the same tuple. *)
Definition same_rows (bs1 bs2 : DecompressBatchState) : Prop :=
  with_decompressed_scan_slot None bs1 = with_decompressed_scan_slot None bs2
  /\ exists slot1 slot2,
       decompressed_scan_slot bs1 = Some slot1
       /\ decompressed_scan_slot bs2 = Some slot2
       /\ slot_equiv (compressed_columns bs1) slot1 slot2.
(** ** Loading a batch, step by step *)

Section LoadEffect.
Context `{Collaborators}.

(** What one step of the loop over the template columns does when it
    returns. *)
Definition column_step_effect (chunk_state : DecompressChunkState) (i : nat)
    (d : DecompressChunkColumnDescription) (s s' : DecompressBatchState) : Prop :=
  let attr := AttrNumberGetAttrOffset (template_output_attno d) in
  match type d with
  | SEGMENTBY_COLUMN =>
      exists compressed slot,
        compressed_slot s = Some compressed
        /\ decompressed_scan_slot s = Some slot
        /\ s' = with_decompressed_scan_slot
                  (Some (slot_store attr
                           (slot_getattr compressed (compressed_scan_attno d)).1
                           (slot_getattr compressed (compressed_scan_attno d)).2
                           slot)) s
  | COMPRESSED_COLUMN =>
      exists compressed c0,
        compressed_slot s = Some compressed
        /\ compressed_columns s !! i = Some c0
        /\ let value := (slot_getattr compressed (compressed_scan_attno d)).1 in
           let header := PG_DETOAST_DATUM value in
           if (slot_getattr compressed (compressed_scan_attno d)).2 then
             exists slot,
               decompressed_scan_slot s = Some slot
               /\ s' = with_decompressed_scan_slot
                         (Some (slot_store attr
                                  (getmissingattr (tts_tupleDescriptor slot) (attr + 1)).1
                                  (getmissingattr (tts_tupleDescriptor slot) (attr + 1)).2
                                  slot))
                         (with_compressed_columns
                            (<[i := empty_column (template_output_attno d)]>
                               (compressed_columns s)) s)
           else
             match
               (if enable_bulk_decompression chunk_state
                   && bulk_decompression_supported d
                then tsl_get_decompress_all_function
                       (compression_algorithm header) header (typid d)
                else None)
             with
             | Some arrow_array =>
                 (total_batch_rows s = 0
                  \/ total_batch_rows s = arrow_length arrow_array)
                 /\ s' = with_compressed_columns
                           (<[i := {| iterator := None;
                                      arrow := Some arrow_array;
                                      value_bytes := get_typlen (typid d);
                                      arrow_values := buffers_1 arrow_array;
                                      arrow_validity := buffers_0 arrow_array;
                                      output_attno := template_output_attno d |}]>
                              (compressed_columns s))
                           (with_total_batch_rows
                              (if total_batch_rows s =? 0
                               then to_int (arrow_length arrow_array)
                               else total_batch_rows s) s)
             | None =>
                 s' = with_compressed_columns
                        (<[i := with_iterator
                                  (Some (tsl_get_decompression_iterator_init
                                           (compression_algorithm header)
                                           (reverse chunk_state) header (typid d)))
                                  (empty_column (template_output_attno d))]>
                           (compressed_columns s)) s
             end
  | COUNT_COLUMN =>
      exists compressed,
        compressed_slot s = Some compressed
        /\ let count_value :=
             DatumGetInt32
               (slot_getattr compressed (compressed_scan_attno d)).1 in
           0 < count_value
           /\ (total_batch_rows s = 0 \/ total_batch_rows s = count_value)
           /\ s' = with_total_batch_rows count_value s
  | SEQUENCE_NUM_COLUMN => s' = s
  end.
End LoadEffect.

(** ** Attributes of the output slot *)

(** The value and the null flag at offset [a] of the output slot. *)
Definition slot_attribute (a : nat) (bs : DecompressBatchState)
  : option (option Datum * option bool) :=
  (fun slot => (tts_values slot !! a, tts_isnull slot !! a))
    <$> decompressed_scan_slot bs.

(** The column is written for each row, at offset [a]. *)
Definition owns (a : nat) (c : CompressedColumnValues) : Prop :=
  per_row c /\ AttrNumberGetAttrOffset (output_attno c) = Z.of_nat a.

(** Offset [a] of the output slot holds [v], and no compressed column of
    the batch is written there. *)
Definition attribute_kept (a : nat) (v : option (option Datum * option bool))
    (bs : DecompressBatchState) : Prop :=
  slot_attribute a bs = v
  /\ forall c, c ∈ compressed_columns bs -> ~ owns a c.

(** A computation that keeps an invariant of the batch state, whether it
    returns or raises. *)
Definition keeps {A} (Inv : DecompressBatchState -> Prop) (m : Exec A) : Prop :=
  forall bs, Inv bs -> Inv (outcome_state (m bs)).

(** The shape of the output slot: its descriptor and the lengths of its
    arrays. *)
Definition slot_shape (bs : DecompressBatchState)
  : option (TupleDesc * nat * nat) :=
  (fun slot => (tts_tupleDescriptor slot, length (tts_values slot),
                length (tts_isnull slot)))
    <$> decompressed_scan_slot bs.

(** The compressed columns of the batch state are the first templates of
    the scan: the state has no more columns than the scan, and every
    template that is not a compressed column comes after them. *)
Definition columns_first (chunk_state : DecompressChunkState)
    (bs : DecompressBatchState) : Prop :=
  (length (compressed_columns bs) <= num_total_columns chunk_state)%nat
  /\ forall i d,
       template_columns chunk_state !! i = Some d ->
       type d <> COMPRESSED_COLUMN ->
       (length (compressed_columns bs) <= i)%nat.

(** ** The cursor *)

(** The cursor of [bs'] is not before the cursor of [bs] and not past the
    end of the batch. *)
Definition cursor_within (bs bs' : DecompressBatchState) : Prop :=
  next_batch_row bs <= next_batch_row bs'
  <= Z.max (next_batch_row bs) (total_batch_rows bs).

(** ** The bitmap of the vectorized quals *)

(** The bitmap [after] has the size of [before] and passes no row that
    [before] excludes. *)
Definition narrows (before after : list Z) : Prop :=
  length after = length before
  /\ forall row,
       arrow_row_is_valid (Some after) row = true ->
       arrow_row_is_valid (Some before) row = true.

(** A vectorized predicate that ANDs its result to the bitmap it is
    given. *)
Definition predicate_narrows (predicate : VectorPredicate) : Prop :=
  forall vector constvalue predicate_result,
    narrows predicate_result (predicate vector constvalue predicate_result).

(** The bitmap of the batch passes no row that [bitmap] excludes. *)
Definition bitmap_narrowed (bitmap : list Z) (bs : DecompressBatchState)
  : Prop :=
  exists bitmap', vector_qual_result bs = Some bitmap'
                  /\ narrows bitmap bitmap'.

(** ** A small batch

    A batch of three rows with two compressed columns, a segment-by column
    and a count column.  The first compressed column is an [int4] column
    decoded in bulk form, with the rows [5], [NULL], [7]; the second is
    decoded row by row and yields [10], [11], [12].  The vectorized qual is
    [column 1 > 5]. *)

(** An iterator over a list of values: it reports the end once the values
    are used up, and keeps reporting it. *)
Definition iterator_of_list (values : list (Datum * bool))
  : DecompressionIterator :=
  {| results := fun k =>
       match values !! k with
       | Some (value, isnull) =>
           {| val := value; is_null := isnull; is_done := false |}
       | None => {| val := 0; is_null := true; is_done := true |}
       end;
     pulls := 0 |}.

Definition example_arrow : ArrowArray :=
  {| arrow_length := 3;
     null_count := 1;
     n_buffers := 2;
     buffers_0 := Some [5];
     buffers_1 := Some (write_le 4 5 ++ write_le 4 0 ++ write_le 4 7
                        ++ replicate 8 0) |}.

Definition example_bulk_column : CompressedColumnValues :=
  {| iterator := None;
     arrow := Some example_arrow;
     value_bytes := 4;
     arrow_values := buffers_1 example_arrow;
     arrow_validity := buffers_0 example_arrow;
     output_attno := 1 |}.

Definition example_iterator_column (values : list (Datum * bool))
  : CompressedColumnValues :=
  {| iterator := Some (iterator_of_list values);
     arrow := None;
     value_bytes := -1;
     arrow_values := None;
     arrow_validity := None;
     output_attno := 2 |}.

Definition example_values : list (Datum * bool) :=
  [(10, false); (11, false); (12, false)].

Definition example_tupdesc : TupleDesc :=
  {| natts := 3; attmissingval := [Some 0; None; None] |}.

Definition example_compressed_tupdesc : TupleDesc :=
  {| natts := 4; attmissingval := [None; None; None; None] |}.

Definition example_templates : list DecompressChunkColumnDescription :=
  [ {| type := COMPRESSED_COLUMN; typid := INT4OID;
       template_output_attno := 1; compressed_scan_attno := 1;
       bulk_decompression_supported := true |};
    {| type := COMPRESSED_COLUMN; typid := 25;
       template_output_attno := 2; compressed_scan_attno := 2;
       bulk_decompression_supported := false |};
    {| type := SEGMENTBY_COLUMN; typid := INT4OID;
       template_output_attno := 3; compressed_scan_attno := 3;
       bulk_decompression_supported := false |};
    {| type := COUNT_COLUMN; typid := INT4OID;
       template_output_attno := 0; compressed_scan_attno := 4;
       bulk_decompression_supported := false |} ].

(** [column 1 > 5]; 521 is the oid of the operator [int4 > int4]. *)
Definition example_qual : OpExpr :=
  {| opno := 521;
     arg_var := {| varattno := 1; vartype := INT4OID |};
     arg_const := {| constvalue := 5; constisnull := false |} |}.

Definition example_chunk (quals : list OpExpr)
    (row_filter : option (TupleTableSlot -> bool)) : DecompressChunkState :=
  {| ss_ScanTupleSlot := MakeSingleTupleTableSlot example_tupdesc;
     qual := row_filter;
     num_total_columns := 4;
     num_compressed_columns := 2;
     template_columns := example_templates;
     reverse := false;
     enable_bulk_decompression := true;
     vectorized_quals := quals |}.

(** The batch once it is loaded, with a given bitmap of the vectorized
    quals and given values of the iterated column. *)
Definition example_batch (bitmap : option (list Z))
    (values : list (Datum * bool)) : DecompressBatchState :=
  {| compressed_slot := Some (MakeSingleTupleTableSlot example_compressed_tupdesc);
     decompressed_scan_slot :=
       Some (ExecClearTuple (ExecStoreAllNullTuple
               (MakeSingleTupleTableSlot example_tupdesc)));
     total_batch_rows := 3;
     next_batch_row := 0;
     per_batch_context := Some [];
     vector_qual_result := bitmap;
     compressed_columns :=
       [example_bulk_column; example_iterator_column values];
     predicate_calls := [] |}.

Definition example_slot : TupleTableSlot :=
  ExecClearTuple (ExecStoreAllNullTuple
    (MakeSingleTupleTableSlot example_tupdesc)).

(** A row filter: the second column is not [11]. *)
Definition example_row_filter (slot : TupleTableSlot) : bool :=
  negb (default 0 (tts_values slot !! 1%nat) =? 11).

(** The signed value of the low [width] bytes of a word. *)
Definition signed_value (width : Z) (word : Z) : Z :=
  let low := word mod 2 ^ (8 * width) in
  if low <? 2 ^ (8 * width - 1) then low else low - 2 ^ (8 * width).

(** A vectorized [int4 > constant]: bit [row] of the result stays set when
    the row is valid and its value is greater than the constant. *)
Definition example_int4_gt : VectorPredicate :=
  fun vector constvalue predicate_result =>
    imap (fun j word =>
      Z.land word
        (foldr (fun bit mask =>
                  let row := 64 * Z.of_nat j + Z.of_nat bit in
                  if (row <? arrow_length vector)
                     && arrow_row_is_valid (buffers_0 vector) row
                     && (signed_value 4 constvalue
                         <? signed_value 4
                              (read_le 4 (default [] (buffers_1 vector))
                                       (Z.to_nat (4 * row))))
                  then Z.setbit mask (Z.of_nat bit) else mask)
               0 (seq 0 64)))
      predicate_result.

(** The compressed tuple of the batch: the two compressed columns, the
    segment-by value and the row count.  [second] is the content of the
    second compressed column. *)
Definition example_subslot (first second : Datum * bool) (count : Z)
  : TupleTableSlot :=
  {| tts_empty := false;
     tts_tupleDescriptor := example_compressed_tupdesc;
     tts_values := [first.1; second.1; 42; count];
     tts_isnull := [first.2; second.2; false; false] |}.

#[local] Instance example_collaborators : Collaborators :=
  {| get_vector_const_predicate := fun opcode =>
       if opcode =? 147 then Some example_int4_gt else None;
     get_opcode := fun operator => if operator =? 521 then 147 else 0;
     get_typlen := fun pgtype => if pgtype =? INT4OID then 4 else -1;
     getmissingattr := fun tupdesc attnum =>
       match attmissingval tupdesc !! Z.to_nat (attnum - 1) with
       | Some (Some value) => (value, false)
       | _ => (0, true)
       end;
     slot_getattr := fun slot attnum =>
       (default 0 (tts_values slot !! Z.to_nat (attnum - 1)),
        default true (tts_isnull slot !! Z.to_nat (attnum - 1)));
     PG_DETOAST_DATUM := fun value =>
       {| compression_algorithm := value; payload := [] |};
     tsl_get_decompress_all_function := fun algorithm header pgtype =>
       if algorithm =? 1 then Some example_arrow else None;
     tsl_get_decompression_iterator_init := fun algorithm backward header pgtype =>
       iterator_of_list
         (if backward then rev example_values else example_values) |}.

(** The batch when the first compressed column has no stored value: the
    column has the default value [0] for every row. *)
Definition example_default_batch : DecompressBatchState :=
  {| compressed_slot := Some (MakeSingleTupleTableSlot example_compressed_tupdesc);
     decompressed_scan_slot := Some (slot_store 0 0 false example_slot);
     total_batch_rows := 3;
     next_batch_row := 0;
     per_batch_context := Some [vector_qual_result_chunk 8];
     vector_qual_result := Some [UINT64_MAX];
     compressed_columns :=
       [empty_column 1; example_iterator_column example_values];
     predicate_calls := [] |}.

(** A batch state at the end of an earlier batch of two rows, the last of
    which is still in the cleared output slot. *)
Definition example_used_batch : DecompressBatchState :=
  {| compressed_slot := Some (example_subslot (9, false) (9, false) 2);
     decompressed_scan_slot :=
       Some (ExecClearTuple
               (slot_store 0 9 false
                  (slot_store 1 8 false
                     (slot_store 2 41 false example_slot))));
     total_batch_rows := 2;
     next_batch_row := 2;
     per_batch_context := Some [vector_qual_result_chunk 8];
     vector_qual_result := Some [3];
     compressed_columns :=
       [example_iterator_column [(1, false); (2, false)];
        example_bulk_column];
     predicate_calls := [] |}.


(** ** More small inputs *)

(** A batch state that has not been used: the array of the compressed
    columns is allocated and zeroed, nothing else is. *)
Definition example_fresh_batch : DecompressBatchState :=
  {| compressed_slot := None;
     decompressed_scan_slot := None;
     total_batch_rows := 0;
     next_batch_row := 0;
     per_batch_context := None;
     vector_qual_result := None;
     compressed_columns :=
       replicate 2 {| iterator := None; arrow := None; value_bytes := 0;
                      arrow_values := None; arrow_validity := None;
                      output_attno := 0 |};
     predicate_calls := [] |}.

(** The scan of the small batch when its table has lost the segment-by
    column: the third attribute of the output is not populated. *)
Definition example_chunk_dropped : DecompressChunkState :=
  {| ss_ScanTupleSlot := MakeSingleTupleTableSlot example_tupdesc;
     qual := None;
     num_total_columns := 3;
     num_compressed_columns := 2;
     template_columns :=
       take 2 example_templates ++ drop 3 example_templates;
     reverse := false;
     enable_bulk_decompression := true;
     vectorized_quals := [] |}.

(** The small batch with both columns in bulk form. *)
Definition example_bulk_batch (bitmap : option (list Z))
  : DecompressBatchState :=
  {| compressed_slot := Some (MakeSingleTupleTableSlot example_compressed_tupdesc);
     decompressed_scan_slot := Some example_slot;
     total_batch_rows := 3;
     next_batch_row := 0;
     per_batch_context := Some [];
     vector_qual_result := bitmap;
     compressed_columns :=
       [example_bulk_column;
        {| iterator := None;
           arrow := Some example_arrow;
           value_bytes := 4;
           arrow_values := buffers_1 example_arrow;
           arrow_validity := None;
           output_attno := 2 |}];
     predicate_calls := [] |}.

(** A DecompressChunk path over the path of a compressed chunk, and the
    aggregation [sum(int4)] on top of it. *)
Definition example_path (restrictions : list Node) : Path :=
  DecompressChunkPath
    {| parent := {| baserestrictinfo := restrictions |};
       pathtarget := {| exprs := [OtherNode 1; OtherNode 2] |} |}
    [{| parent := {| baserestrictinfo := [] |};
        pathtarget := {| exprs := [] |} |}]
    false.

Definition example_agg_path (aggfnoid : Oid) : AggPath :=
  {| agg_path :=
       {| parent := {| baserestrictinfo := [] |};
          pathtarget := {| exprs := [Aggref aggfnoid] |} |} |}.

Definition example_is_decompress_chunk_path (p : Path) : bool :=
  match p with
  | DecompressChunkPath _ _ _ => true
  | OtherPath _ => false
  end.

(** The batch states after loading the compressed tuple of the small
    batch: into the used batch state; when the first compressed column has
    no stored value; and, for the table without its segment-by column,
    into the batch state that has not been used. *)
Definition example_loaded : DecompressBatchState :=
  outcome_state
    (compressed_batch_set_compressed_tuple (example_chunk [] None)
       (example_subslot (1, false) (2, false) 3) example_used_batch).

Definition example_loaded_default : DecompressBatchState :=
  outcome_state
    (compressed_batch_set_compressed_tuple (example_chunk [] None)
       (example_subslot (0, true) (2, false) 3) example_used_batch).

Definition example_loaded_dropped : DecompressBatchState :=
  outcome_state
    (compressed_batch_set_compressed_tuple example_chunk_dropped
       (example_subslot (1, false) (2, false) 3) example_fresh_batch).

(** A decoder that reports [2^32 + 3] rows for the bulk column of the small
    batch, a length that only fits the 64-bit field of the arrow array,
    and the batch state after loading the compressed tuple with it. *)
Definition example_long_arrow : ArrowArray :=
  {| arrow_length := 2 ^ 32 + 3;
     null_count := null_count example_arrow;
     n_buffers := n_buffers example_arrow;
     buffers_0 := buffers_0 example_arrow;
     buffers_1 := buffers_1 example_arrow |}.

Definition example_long_collaborators : Collaborators :=
  {| get_vector_const_predicate :=
       @get_vector_const_predicate example_collaborators;
     get_opcode := @get_opcode example_collaborators;
     get_typlen := @get_typlen example_collaborators;
     getmissingattr := @getmissingattr example_collaborators;
     slot_getattr := @slot_getattr example_collaborators;
     PG_DETOAST_DATUM := @PG_DETOAST_DATUM example_collaborators;
     tsl_get_decompress_all_function := fun algorithm header pgtype =>
       if algorithm =? 1 then Some example_long_arrow else None;
     tsl_get_decompression_iterator_init :=
       @tsl_get_decompression_iterator_init example_collaborators |}.

Definition example_loaded_long : DecompressBatchState :=
  outcome_state
    (@compressed_batch_set_compressed_tuple example_long_collaborators
       (example_chunk [] None)
       (example_subslot (1, false) (2, false) 3) example_used_batch).
(** ** Reasoning about the execution monad *)

Lemma bind_Ok {A B} (m : Exec A) (k : A -> Exec B) bs a bs' :
  m bs = Ok a bs' -> bind m k bs = k a bs'.
Proof. intros H. unfold bind. by rewrite H. Qed.

Lemma bind_Raise {A B} (m : Exec A) (k : A -> Exec B) bs e bs' :
  m bs = Raise e bs' -> bind m k bs = Raise e bs'.
Proof. intros H. unfold bind. by rewrite H. Qed.

Lemma bind_get_run {A} (k : DecompressBatchState -> Exec A) bs :
  bind get k bs = k bs bs.
Proof. reflexivity. Qed.

Lemma bind_modify {A} f (k : unit -> Exec A) bs :
  bind (modify f) k bs = k tt (f bs).
Proof. reflexivity. Qed.

(** A loop whose body preserves an invariant indexed by the loop counter. *)
Lemma for_range_invariant (Inv : nat -> DecompressBatchState -> Prop)
    first count body bs :
  Inv first bs ->
  (forall i s, (first <= i < first + count)%nat -> Inv i s ->
     exists s', body i s = Ok tt s' /\ Inv (S i) s') ->
  exists bs', for_range first count body bs = Ok tt bs'
              /\ Inv (first + count)%nat bs'.
Proof.
  revert first bs. induction count as [|count IH]; intros first bs H0 Hstep.
  - exists bs. rewrite Nat.add_0_r. by split.
  - destruct (Hstep first bs) as (s1 & Hb & H1); [lia|done|].
    destruct (IH (S first) s1) as (bs' & Hl & H2); [done| |].
    + intros i s Hi. apply Hstep. lia.
    + exists bs'. split.
      * simpl. by rewrite (bind_Ok _ _ _ _ _ Hb).
      * by replace (first + S count)%nat with (S first + count)%nat by lia.
Qed.

(** ** Loops over the columns *)


Lemma with_iterator_id c : with_iterator (iterator c) c = c.
Proof. by destruct c. Qed.

Lemma pull_n_no_iterator k c : iterator c = None -> pull_n k c = c.
Proof. intros H. unfold pull_n. rewrite H. simpl. rewrite <- H. apply with_iterator_id. Qed.

Lemma pull_n_0 c : pull_n 0 c = c.
Proof.
  unfold pull_n. destruct c as [[[r p]|] a v av ava o]; reflexivity.
Qed.

Lemma pull_n_pull_n j k c : pull_n j (pull_n k c) = pull_n (j + k) c.
Proof.
  unfold pull_n. destruct c as [[[r p]|] a v av ava o]; simpl; [|done].
  unfold with_iterator; simpl. do 3 f_equal. lia.
Qed.

Lemma with_progress_id bs slot :
  decompressed_scan_slot bs = Some slot ->
  with_progress (next_batch_row bs) (compressed_columns bs) slot bs = bs.
Proof. destruct bs; simpl; intros ->; reflexivity. Qed.

Lemma materialize_row_foldl arrow_row cols slot :
  materialize_row arrow_row cols slot
  = foldl (fun s c => materialize_column arrow_row c s) slot cols.
Proof.
  unfold materialize_row. revert slot.
  induction cols as [|c cols IH]; intros slot; simpl; [done|].
  unfold materialize_column at 2.
  destruct (column_write arrow_row c); simpl; apply IH.
Qed.

Lemma for_columns_prefix body P g bs slot j :
  column_step body P g ->
  (j <= length (compressed_columns bs))%nat ->
  Forall P (take j (compressed_columns bs)) ->
  decompressed_scan_slot bs = Some slot ->
  for_range 0 j body bs
  = Ok tt (with_progress (next_batch_row bs)
             ((pull_n 1 <$> take j (compressed_columns bs))
              ++ drop j (compressed_columns bs))
             (foldl (fun s c => g c s) slot (take j (compressed_columns bs)))
             bs).
Proof.
  intros Hstep Hj HP Hslot.
  set (cols := compressed_columns bs) in *.
  destruct (for_range_invariant
    (fun i s => (i <= j)%nat /\
       s = with_progress (next_batch_row bs)
             ((pull_n 1 <$> take i cols) ++ drop i cols)
             (foldl (fun s c => g c s) slot (take i cols)) bs)
    0%nat j body bs) as (bs' & Hrun & _ & ->).
  - split; [lia|]. rewrite take_0, drop_0. simpl. symmetry.
    by apply with_progress_id.
  - intros i s [_ Hi] [_ ->].
    destruct (lookup_lt_is_Some_2 cols i) as [c Hc]; [lia|].
    eexists. split.
    + rewrite (Hstep i _ c (foldl (fun s c => g c s) slot (take i cols))); simpl.
      * reflexivity.
      * rewrite lookup_app_r; rewrite length_fmap, length_take; [|lia].
        replace (i - i `min` length cols)%nat with 0%nat by lia.
        by rewrite lookup_drop, Nat.add_0_r.
      * apply (Forall_lookup_1 _ _ i c HP). rewrite lookup_take_lt by lia. done.
      * done.
    + split; [lia|]. unfold with_progress; simpl. f_equal.
      * by rewrite (take_S_r _ _ _ Hc), foldl_app.
      * rewrite (take_S_r _ _ _ Hc), fmap_app, <- app_assoc. simpl.
        rewrite (drop_S _ _ _ Hc).
        rewrite insert_app_r_alt; rewrite length_fmap, length_take; [|lia].
        replace (i - i `min` length cols)%nat with 0%nat by lia. done.
  - by rewrite Hrun.
Qed.

Lemma for_columns body P g bs slot :
  column_step body P g ->
  Forall P (compressed_columns bs) ->
  decompressed_scan_slot bs = Some slot ->
  for_range 0 (length (compressed_columns bs)) body bs
  = Ok tt (with_progress (next_batch_row bs)
             (pull_n 1 <$> compressed_columns bs)
             (foldl (fun s c => g c s) slot (compressed_columns bs)) bs).
Proof.
  intros Hstep HP Hslot.
  rewrite (for_columns_prefix body P g bs slot) by (rewrite ?firstn_all; done).
  by rewrite firstn_all, drop_all, app_nil_r.
Qed.

Lemma pull_n_1_iterator c it :
  iterator c = Some it ->
  pull_n 1 c = with_iterator (Some (try_next it).2) c.
Proof. intros H. unfold pull_n. by rewrite H. Qed.

Lemma insert_pull_n_no_iterator (cols : list CompressedColumnValues) i c :
  cols !! i = Some c -> iterator c = None -> <[i := pull_n 1 c]> cols = cols.
Proof. intros Hc Hi. rewrite pull_n_no_iterator by done. by apply list_insert_id. Qed.

Lemma skip_column_step : column_step skip_column (fun _ => True) (fun _ slot => slot).
Proof.
  intros i s c slot Hc _ Hslot. unfold skip_column, column_at, bind. rewrite Hc.
  destruct (iterator c) as [it|] eqn:Hit.
  - unfold iterator_try_next, bind, set_column, modify, ret; simpl.
    rewrite (pull_n_1_iterator c it Hit). simpl.
    destruct s; simpl in *; subst; reflexivity.
  - unfold ret. rewrite insert_pull_n_no_iterator by done.
    by rewrite with_progress_id.
Qed.

Lemma check_column_done_step :
  column_step check_column_done (reports_done true) (fun _ slot => slot).
Proof.
  intros i s c slot Hc Hdone Hslot. unfold check_column_done, column_at, bind. rewrite Hc.
  destruct (iterator c) as [it|] eqn:Hit.
  - unfold iterator_try_next, bind, set_column, modify, ret; simpl.
    rewrite (Hdone it Hit). simpl.
    rewrite (pull_n_1_iterator c it Hit). simpl.
    destruct s; simpl in *; subst; reflexivity.
  - unfold ret. rewrite insert_pull_n_no_iterator by done.
    by rewrite with_progress_id.
Qed.

Lemma make_next_column_step arrow_row :
  column_step (make_next_column arrow_row) (reports_done false)
              (materialize_column arrow_row).
Proof.
  intros i s c slot Hc Hdone Hslot.
  unfold make_next_column, column_at, bind, materialize_column, column_write.
  rewrite Hc.
  destruct (iterator c) as [it|] eqn:Hit.
  - unfold iterator_try_next, bind, set_column, modify, ret; simpl.
    rewrite (Hdone it Hit). simpl.
    unfold update_scan_slot, scan_slot, bind, modify; simpl. rewrite Hslot.
    rewrite (pull_n_1_iterator c it Hit). simpl.
    reflexivity.
  - rewrite insert_pull_n_no_iterator by done.
    destruct (arrow_values c) as [src|].
    + unfold update_scan_slot, scan_slot, bind, modify; simpl. rewrite Hslot.
      destruct s; simpl in *; subst; reflexivity.
    + unfold ret. by rewrite with_progress_id.
Qed.

Lemma set_tts_empty_false slot :
  (if tts_empty slot then ExecStoreVirtualTuple slot else slot)
  = ExecStoreVirtualTuple slot.
Proof. destruct slot as [[] d v n]; reflexivity. Qed.

Lemma compressed_batch_make_next_tuple_ok chunk_state bs slot :
  length (compressed_columns bs) = num_compressed_columns chunk_state ->
  decompressed_scan_slot bs = Some slot ->
  Forall (reports_done false) (compressed_columns bs) ->
  compressed_batch_make_next_tuple chunk_state bs
  = Ok tt (with_progress (next_batch_row bs)
             (pull_n 1 <$> compressed_columns bs)
             (ExecStoreVirtualTuple
                (materialize_row (arrow_row_of chunk_state bs)
                                 (compressed_columns bs) slot)) bs).
Proof.
  intros Hlen Hslot Hdone. unfold compressed_batch_make_next_tuple.
  unfold bind at 1. unfold get. rewrite <- Hlen.
  erewrite bind_Ok;
    [|by apply (for_columns _ _ _ bs slot (make_next_column_step _))].
  rewrite <- materialize_row_foldl.
  unfold scan_slot, bind; simpl.
  destruct (tts_empty _) eqn:He.
  - unfold update_scan_slot, scan_slot, bind, modify; simpl. reflexivity.
  - unfold ret. unfold with_progress. f_equal. f_equal.
    rewrite <- set_tts_empty_false. by rewrite He.
Qed.

Lemma skip_columns_ok chunk_state bs slot :
  length (compressed_columns bs) = num_compressed_columns chunk_state ->
  decompressed_scan_slot bs = Some slot ->
  for_range 0 (num_compressed_columns chunk_state) skip_column bs
  = Ok tt (with_progress (next_batch_row bs)
             (pull_n 1 <$> compressed_columns bs) slot bs).
Proof.
  intros Hlen Hslot. rewrite <- Hlen.
  rewrite (for_columns _ _ _ bs slot skip_column_step); [|by apply Forall_true|done].
  do 2 f_equal. generalize (compressed_columns bs) slot.
  induction l; simpl; auto.
Qed.

Lemma check_columns_done_ok chunk_state bs slot :
  length (compressed_columns bs) = num_compressed_columns chunk_state ->
  decompressed_scan_slot bs = Some slot ->
  Forall (reports_done true) (compressed_columns bs) ->
  for_range 0 (num_compressed_columns chunk_state) check_column_done bs
  = Ok tt (with_progress (next_batch_row bs)
             (pull_n 1 <$> compressed_columns bs) slot bs).
Proof.
  intros Hlen Hslot Hdone. rewrite <- Hlen.
  rewrite (for_columns _ _ _ bs slot check_column_done_step); [|done..].
  do 2 f_equal. generalize (compressed_columns bs) slot.
  induction l; simpl; auto.
Qed.

(** ** Writes into the output slot *)


Lemma slot_store_overwrite a v n v' n' s :
  slot_store a v n (slot_store a v' n' s) = slot_store a v n s.
Proof.
  unfold slot_store. destruct (a <? 0) eqn:Ha; [done|]. simpl.
  by rewrite !list_insert_insert_eq.
Qed.

Lemma slot_store_commute a b v n v' n' s :
  a <> b ->
  slot_store a v n (slot_store b v' n' s) = slot_store b v' n' (slot_store a v n s).
Proof.
  intros Hab. unfold slot_store.
  destruct (a <? 0) eqn:Ha, (b <? 0) eqn:Hb; simpl; try done.
  f_equal; apply list_insert_insert_ne; lia.
Qed.

Lemma set_tts_empty_slot_store e a v n s :
  set_tts_empty e (slot_store a v n s) = slot_store a v n (set_tts_empty e s).
Proof. unfold slot_store, set_tts_empty. by destruct (a <? 0). Qed.

Lemma set_tts_empty_idemp e e' s :
  set_tts_empty e (set_tts_empty e' s) = set_tts_empty e s.
Proof. done. Qed.

Lemma foldl_apply_write_set_tts_empty e w s :
  foldl apply_write (set_tts_empty e s) w = set_tts_empty e (foldl apply_write s w).
Proof.
  revert s. induction w as [|x w IH]; intros s; simpl; [done|].
  unfold apply_write at 2. rewrite <- set_tts_empty_slot_store. apply IH.
Qed.

Lemma apply_write_absorbed w a v n v' n' s :
  apply_write (foldl apply_write (apply_write s (a, v', n')) w) (a, v, n)
  = apply_write (foldl apply_write s w) (a, v, n).
Proof.
  revert s. induction w as [|[[b u] m] w IH]; intros s; simpl.
  - unfold apply_write; simpl. apply slot_store_overwrite.
  - destruct (decide (b = a)) as [->|Hne].
    + unfold apply_write at 3 4; simpl. by rewrite slot_store_overwrite.
    + unfold apply_write at 3 4; simpl.
      rewrite slot_store_commute by done. apply (IH (slot_store b u m s)).
Qed.

(** Rows written over the same attributes overwrite each other. *)
Lemma foldl_apply_write_overwrite (w w' : list (Z * Datum * bool)) s :
  w.*1.*1 = w'.*1.*1 ->
  foldl apply_write (foldl apply_write s w') w = foldl apply_write s w.
Proof.
  revert w'. induction w as [|[[a v] n] w IH] using rev_ind; intros w' Heq.
  - destruct w'; [done|]. simpl in Heq. discriminate.
  - destruct w' as [|[[a' v'] n'] w' _] using rev_ind.
    + rewrite !fmap_app in Heq. simpl in Heq. by destruct (w.*1.*1).
    + rewrite !fmap_app in Heq. simpl in Heq.
      apply app_inj_tail in Heq as [Heq [= <-]].
      rewrite !foldl_app. simpl.
      rewrite apply_write_absorbed. by rewrite IH.
Qed.

Lemma column_write_attrs r r' k (cols : list CompressedColumnValues) :
  (omap (column_write r) (pull_n k <$> cols)).*1.*1
  = (omap (column_write r') cols).*1.*1.
Proof.
  induction cols as [|c cols IH]; [done|]. simpl.
  unfold column_write at 1 3. unfold pull_n at 1.
  destruct c as [[it|] a vb [src|] av o]; simpl; first [exact IH | f_equal; exact IH].
Qed.

Lemma materialize_row_overwrite r r' k k' cols slot :
  ExecStoreVirtualTuple
    (materialize_row r (pull_n k <$> cols)
       (ExecStoreVirtualTuple (materialize_row r' (pull_n k' <$> cols) slot)))
  = ExecStoreVirtualTuple (materialize_row r (pull_n k <$> cols) slot).
Proof.
  unfold materialize_row, ExecStoreVirtualTuple.
  rewrite foldl_apply_write_set_tts_empty, set_tts_empty_idemp.
  rewrite foldl_apply_write_overwrite; [done|].
  by rewrite !(column_write_attrs _ 0 _ cols).
Qed.

Lemma slot_equiv_refl cols slot : slot_equiv cols slot slot.
Proof. done. Qed.

Lemma slot_equiv_materialized cols slot slot0 r k :
  slot_equiv cols slot slot0 ->
  slot_equiv cols
    (ExecStoreVirtualTuple (materialize_row r (pull_n k <$> cols) slot)) slot0.
Proof. intros H r' k'. by rewrite materialize_row_overwrite. Qed.

(** ** The advance loop *)


Lemma pull_n_fmap j k (cols : list CompressedColumnValues) :
  pull_n j <$> (pull_n k <$> cols) = pull_n (j + k) <$> cols.
Proof.
  rewrite <- list_fmap_compose. apply list_fmap_ext. intros _ c _. simpl.
  apply pull_n_pull_n.
Qed.

Lemma iterator_in_sync_spec left it :
  iterator_in_sync left it = true ->
  forall k, (k <= left)%nat ->
    is_done (results it (k + pulls it)) = bool_decide (k = left).
Proof.
  unfold iterator_in_sync. intros [Hall Hend]%andb_true_iff k Hk.
  case_bool_decide as Heq.
  - by subst.
  - rewrite forallb_forall in Hall.
    apply negb_true_iff, Hall, in_seq. lia.
Qed.

Lemma columns_in_sync_reports bs k :
  columns_in_sync bs = true -> (k <= rows_left bs)%nat ->
  Forall (reports_done (bool_decide (k = rows_left bs)))
         (pull_n k <$> compressed_columns bs).
Proof.
  unfold columns_in_sync. intros Hall Hk.
  rewrite forallb_forall in Hall.
  apply Forall_fmap, Forall_forall. intros c Hc it. simpl.
  apply list_elem_of_In, Hall in Hc.
  unfold pull_n. destruct (iterator c) as [it0|]; simpl; [|done].
  intros [= <-]. simpl. by apply iterator_in_sync_spec.
Qed.

Lemma compressed_batch_postgres_qual_ok chunk_state bs slot :
  decompressed_scan_slot bs = Some slot ->
  compressed_batch_postgres_qual chunk_state bs
  = Ok (match qual chunk_state with
        | Some ExecQual => ExecQual slot
        | None => true
        end) bs.
Proof.
  intros H. unfold compressed_batch_postgres_qual.
  destruct (qual chunk_state); [|done].
  unfold bind, scan_slot. by rewrite H.
Qed.

Lemma advance_loop_end fuel chunk_state bs :
  (next_batch_row bs <? total_batch_rows bs) = false ->
  advance_loop fuel chunk_state bs
  = bind (for_range 0 (num_compressed_columns chunk_state) check_column_done)
         (fun _ => update_scan_slot ExecClearTuple) bs.
Proof. intros H. destruct fuel; simpl; unfold bind at 1, get; by rewrite H. Qed.

Lemma advance_loop_step fuel chunk_state bs :
  (next_batch_row bs <? total_batch_rows bs) = true ->
  advance_loop (S fuel) chunk_state bs
  = if compressed_batch_vector_qual chunk_state bs then
      bind (compressed_batch_make_next_tuple chunk_state)
           (fun _ => bind (compressed_batch_postgres_qual chunk_state)
              (fun passed =>
                 if passed then next_batch_row_incr
                 else bind next_batch_row_incr
                           (fun _ => advance_loop fuel chunk_state))) bs
    else
      bind (for_range 0 (num_compressed_columns chunk_state) skip_column)
           (fun _ => bind next_batch_row_incr
                       (fun _ => advance_loop fuel chunk_state)) bs.
Proof.
  intros H. simpl. unfold bind at 1, get. rewrite H.
  destruct (compressed_batch_vector_qual chunk_state bs); simpl; [|done].
  unfold bind. destruct (compressed_batch_make_next_tuple _ _); [|done].
  destruct (compressed_batch_postgres_qual _ _) as [[]|]; done.
Qed.

Section Advance.
Variable chunk_state : DecompressChunkState.
Variable bs0 : DecompressBatchState.
Variable slot0 : TupleTableSlot.
Hypothesis Hlen :
  length (compressed_columns bs0) = num_compressed_columns chunk_state.
Hypothesis Hsync : columns_in_sync bs0 = true.
Hypothesis Hle : next_batch_row bs0 <= total_batch_rows bs0.

Lemma vector_qual_state_at k slot :
  compressed_batch_vector_qual chunk_state (state_at bs0 k slot)
  = compressed_batch_vector_qual chunk_state (seek k bs0).
Proof. done. Qed.

Lemma advance_loop_spec count : forall k slot fuel,
  (k + count = rows_left bs0)%nat -> (count <= fuel)%nat ->
  slot_equiv (compressed_columns bs0) slot slot0 ->
  advance_post chunk_state bs0 slot0 k count (advance_loop fuel chunk_state (state_at bs0 k slot)).
Proof using Hlen Hsync Hle.
  induction count as [|count IH]; intros k slot fuel Hk Hfuel Heq.
  - unfold advance_post; simpl. exists slot. split; [done|].
    rewrite advance_loop_end
      by (apply Z.ltb_ge; unfold rows_left in Hk; simpl; lia).
    erewrite bind_Ok.
    2:{ apply (check_columns_done_ok chunk_state _ slot); simpl.
        - by rewrite length_fmap.
        - done.
        - replace true with (bool_decide (k = rows_left bs0)).
          + apply columns_in_sync_reports; [done|lia].
          + apply bool_decide_eq_true. lia. }
    unfold update_scan_slot, scan_slot, bind, modify; simpl.
    unfold exhausted, with_progress, with_decompressed_scan_slot; simpl.
    f_equal. f_equal.
    + unfold rows_left in *. lia.
    + rewrite pull_n_fmap. do 2 f_equal. lia.
  - destruct fuel as [|fuel]; [lia|].

    assert (Hnext : forall s,
      with_progress (next_batch_row bs0 + Z.of_nat k + 1)
        (pull_n 1 <$> (pull_n k <$> compressed_columns bs0)) s (state_at bs0 k slot)
      = state_at bs0 (S k) s).
    { intros s. unfold state_at, with_progress; simpl. f_equal; [lia|].
      apply pull_n_fmap. }
    assert (Hfirst : forall b,
      row_passes chunk_state bs0 slot0 k = b ->
      first_passing (row_passes chunk_state bs0 slot0) k (S count)
      = if b then Some k
        else first_passing (row_passes chunk_state bs0 slot0) (S k) count).
    { intros b <-. done. }
    rewrite advance_loop_step
      by (apply Z.ltb_lt; unfold rows_left in Hk; simpl; lia).
    rewrite vector_qual_state_at.
    destruct (compressed_batch_vector_qual chunk_state (seek k bs0)) eqn:Hvq.
    + (* the row passes the vectorized quals: it is materialized *)
      erewrite bind_Ok.
      2:{ apply (compressed_batch_make_next_tuple_ok chunk_state _ slot); simpl.
          - by rewrite length_fmap.
          - done.
          - replace false with (bool_decide (k = rows_left bs0)).
            + apply columns_in_sync_reports; [done|lia].
            + apply bool_decide_eq_false. lia. }
      simpl compressed_columns. simpl next_batch_row.
      assert (Hrow :
        ExecStoreVirtualTuple
          (materialize_row (arrow_row_of chunk_state (state_at bs0 k slot))
             (pull_n k <$> compressed_columns bs0) slot)
        = row_at chunk_state bs0 k slot0).
      { unfold row_at. rewrite (Heq _ k). done. }
      rewrite Hrow.
      erewrite bind_Ok
        by (by apply (compressed_batch_postgres_qual_ok _ _
                        (row_at chunk_state bs0 k slot0))).
      destruct (match qual chunk_state with
                | Some ExecQual => ExecQual (row_at chunk_state bs0 k slot0)
                | None => true
                end) eqn:Hpass.
      * unfold advance_post. rewrite (Hfirst true).
        2:{ unfold row_passes. by rewrite Hvq, Hpass. }
        unfold next_batch_row_incr, modify; simpl. f_equal.
        rewrite <- Hnext. reflexivity.
      * unfold advance_post. rewrite (Hfirst false).
        2:{ unfold row_passes. by rewrite Hvq, Hpass. }
        unfold bind at 1. unfold next_batch_row_incr, modify; simpl.
        specialize (IH (S k) (row_at chunk_state bs0 k slot0) fuel).
        unfold advance_post in IH.
        rewrite <- Hnext in IH. apply IH; [lia..|].
        unfold row_at. by apply slot_equiv_materialized.
    + (* the row is skipped *)
      erewrite bind_Ok.
      2:{ apply (skip_columns_ok chunk_state _ slot); simpl; [|done].
          by rewrite length_fmap. }
      unfold advance_post. rewrite (Hfirst false).
      2:{ unfold row_passes. by rewrite Hvq. }
      unfold bind at 1. unfold next_batch_row_incr, modify; simpl.
      specialize (IH (S k) slot fuel). unfold advance_post in IH.
      rewrite <- Hnext in IH. apply IH; [lia..|done].
Qed.
End Advance.

(** ** The cursor *)

Lemma pull_n_0_fmap (cols : list CompressedColumnValues) :
  pull_n 0 <$> cols = cols.
Proof.
  rewrite <- (list_fmap_id cols) at 2. apply list_fmap_ext.
  intros _ c _. apply pull_n_0.
Qed.

Lemma state_at_0 bs slot :
  decompressed_scan_slot bs = Some slot -> state_at bs 0 slot = bs.
Proof.
  intros H. unfold state_at. simpl Z.of_nat. rewrite Z.add_0_r, pull_n_0_fmap.
  by apply with_progress_id.
Qed.

Lemma first_passing_Some p k count j :
  first_passing p k count = Some j ->
  (k <= j < k + count)%nat /\ p j = true
  /\ forall i, (k <= i < j)%nat -> p i = false.
Proof.
  revert k. induction count as [|count IH]; intros k; simpl; [done|].
  destruct (p k) eqn:Hp.
  - intros [= <-]. repeat split; [lia..|done|]. intros i Hi. lia.
  - intros (Hj & Hpj & Hlt)%IH. repeat split; [lia..|done|].
    intros i Hi. destruct (decide (i = k)) as [->|]; [done|]. apply Hlt. lia.
Qed.

Lemma first_passing_None p k count :
  first_passing p k count = None ->
  forall i, (k <= i < k + count)%nat -> p i = false.
Proof.
  revert k. induction count as [|count IH]; intros k; simpl; [lia|].
  destruct (p k) eqn:Hp; [done|].
  intros Hn i Hi. destruct (decide (i = k)) as [->|]; [done|].
  apply (IH _ Hn). lia.
Qed.

(** The materializer, called on the row [k] rows after the cursor, leaves
    [row_at] in the output slot. *)
Lemma row_at_materialized chunk_state bs slot k :
  length (compressed_columns bs) = num_compressed_columns chunk_state ->
  decompressed_scan_slot bs = Some slot ->
  columns_in_sync bs = true ->
  (k < rows_left bs)%nat ->
  compressed_batch_make_next_tuple chunk_state (seek k bs)
  = Ok tt (with_progress (next_batch_row bs + Z.of_nat k)
             (pull_n (S k) <$> compressed_columns bs)
             (row_at chunk_state bs k slot) bs).
Proof.
  intros Hlen Hslot Hsync Hk.
  rewrite (compressed_batch_make_next_tuple_ok chunk_state _ slot); simpl.
  - unfold with_progress; simpl. by rewrite pull_n_fmap.
  - by rewrite length_fmap.
  - done.
  - replace false with (bool_decide (k = rows_left bs)).
    + apply columns_in_sync_reports; [done|lia].
    + apply bool_decide_eq_false. lia.
Qed.

Lemma compressed_batch_advance_post chunk_state bs slot :
  next_batch_row bs <= total_batch_rows bs ->
  length (compressed_columns bs) = num_compressed_columns chunk_state ->
  decompressed_scan_slot bs = Some slot ->
  columns_in_sync bs = true ->
  advance_post chunk_state bs slot 0 (rows_left bs)
               (compressed_batch_advance chunk_state bs).
Proof.
  intros Hle Hlen Hslot Hsync.
  unfold compressed_batch_advance, bind, get. fold (rows_left bs).
  replace (advance_loop (rows_left bs) chunk_state bs)
    with (advance_loop (rows_left bs) chunk_state (state_at bs 0 slot))
    by (by rewrite state_at_0).
  apply advance_loop_spec; [done..|lia|lia|done].
Qed.

(** C1: with [total_batch_rows > 0] and the iterators in sync with the batch
    counter, [compressed_batch_advance] stops at the first row at or after
    the cursor that passes the vectorized quals and the row filter: the
    cursor is one past that row and the output slot holds the row as the
    materializer builds it.  When no row passes, the output slot is empty
    and the cursor is [total_batch_rows]. *)
Theorem advance_stops_at_first_passing_row chunk_state bs slot :
  0 < total_batch_rows bs ->
  next_batch_row bs <= total_batch_rows bs ->
  length (compressed_columns bs) = num_compressed_columns chunk_state ->
  decompressed_scan_slot bs = Some slot ->
  columns_in_sync bs = true ->
  (exists k bs',
      (k < rows_left bs)%nat
      /\ row_passes chunk_state bs slot k = true
      /\ (forall j, (j < k)%nat -> row_passes chunk_state bs slot j = false)
      /\ compressed_batch_advance chunk_state bs = Ok tt bs'
      /\ next_batch_row bs' = next_batch_row bs + Z.of_nat k + 1
      /\ decompressed_scan_slot bs' = Some (row_at chunk_state bs k slot)
      /\ TupIsNull (decompressed_scan_slot bs') = false
      /\ exists s,
           compressed_batch_make_next_tuple chunk_state (seek k bs) = Ok tt s
           /\ decompressed_scan_slot s = decompressed_scan_slot bs')
  \/ (exists bs',
      (forall j, (j < rows_left bs)%nat ->
                 row_passes chunk_state bs slot j = false)
      /\ compressed_batch_advance chunk_state bs = Ok tt bs'
      /\ next_batch_row bs' = total_batch_rows bs
      /\ TupIsNull (decompressed_scan_slot bs') = true).
Proof.
  intros _ Hle Hlen Hslot Hsync.
  pose proof (compressed_batch_advance_post chunk_state bs slot
                Hle Hlen Hslot Hsync) as Hpost.
  unfold advance_post in Hpost.
  destruct (first_passing _ 0 (rows_left bs)) as [k|] eqn:Hfirst.
  - left. apply first_passing_Some in Hfirst as (Hk & Hpass & Hbefore).
    exists k, (state_at bs (S k) (row_at chunk_state bs k slot)).
    repeat split; [lia|done| |done|simpl; lia|].
    + intros j Hj. apply Hbefore. lia.
    + eexists. split; [apply (row_at_materialized _ _ slot); [done..|lia]|done].
  - right. destruct Hpost as (slot' & _ & Hrun).
    exists (exhausted bs slot'). repeat split; [|done].
    intros j Hj. apply (first_passing_None _ _ _ Hfirst). lia.
Qed.

(** ** Advancing until the batch is exhausted *)

Lemma first_passing_filter_Some (p : nat -> bool) k count j :
  first_passing p k count = Some j ->
  filter (fun i => p i) (seq k count)
  = j :: filter (fun i => p i) (seq (S j) (k + count - S j)).
Proof.
  revert k. induction count as [|count IH]; intros k;
    cbn [first_passing seq]; [done|].
  destruct (p k) eqn:Hp.
  - intros [= <-]. rewrite filter_cons_True by (by apply Is_true_true_2).
    by replace (k + S count - S k)%nat with count by lia.
  - intros Hj. rewrite filter_cons_False by (by apply Is_true_false_2).
    rewrite (IH _ Hj). by replace (S k + count)%nat with (k + S count)%nat by lia.
Qed.

Lemma first_passing_filter_None (p : nat -> bool) k count :
  first_passing p k count = None ->
  filter (fun i => p i) (seq k count) = [].
Proof.
  revert k. induction count as [|count IH]; intros k;
    cbn [first_passing seq]; [done|].
  destruct (p k) eqn:Hp; [done|].
  intros Hn. rewrite filter_cons_False by (by apply Is_true_false_2). by apply IH.
Qed.

Lemma advance_until_empty_emitted fuel chunk_state bs bs1 slot1 :
  compressed_batch_advance chunk_state bs = Ok tt bs1 ->
  decompressed_scan_slot bs1 = Some slot1 ->
  tts_empty slot1 = false ->
  advance_until_empty (S fuel) chunk_state bs
  = bind (advance_until_empty fuel chunk_state)
         (fun rows => ret (slot1 :: rows)) bs1.
Proof.
  intros Hrun Hslot Hempty. simpl.
  rewrite (bind_Ok _ _ _ _ _ Hrun). unfold bind at 1, get.
  by rewrite Hslot, Hempty.
Qed.

Lemma advance_until_empty_finished fuel chunk_state bs bs1 slot1 :
  compressed_batch_advance chunk_state bs = Ok tt bs1 ->
  decompressed_scan_slot bs1 = Some slot1 ->
  tts_empty slot1 = true ->
  advance_until_empty fuel chunk_state bs = Ok [] bs1.
Proof.
  intros Hrun Hslot Hempty.
  destruct fuel; simpl; rewrite (bind_Ok _ _ _ _ _ Hrun);
    unfold bind at 1, get; by rewrite Hslot, Hempty.
Qed.

Section Drain.
Variable chunk_state : DecompressChunkState.
Variable bs0 : DecompressBatchState.
Variable slot0 : TupleTableSlot.
Hypothesis Hlen :
  length (compressed_columns bs0) = num_compressed_columns chunk_state.
Hypothesis Hsync : columns_in_sync bs0 = true.
Hypothesis Hle : next_batch_row bs0 <= total_batch_rows bs0.

Lemma compressed_batch_advance_state_at k count slot :
  (k + count = rows_left bs0)%nat ->
  slot_equiv (compressed_columns bs0) slot slot0 ->
  advance_post chunk_state bs0 slot0 k count
    (compressed_batch_advance chunk_state (state_at bs0 k slot)).
Proof using Hlen Hsync Hle.
  intros Hk Heq. unfold compressed_batch_advance, bind, get.
  replace (Z.to_nat _) with count
    by (unfold rows_left in Hk; simpl; lia).
  by apply advance_loop_spec.
Qed.

Lemma advance_until_empty_spec count : forall k slot fuel,
  (k + count = rows_left bs0)%nat -> (count <= fuel)%nat ->
  slot_equiv (compressed_columns bs0) slot slot0 ->
  exists slot',
    advance_until_empty fuel chunk_state (state_at bs0 k slot)
    = Ok (passing_rows chunk_state bs0 slot0 k count) (exhausted bs0 slot').
Proof using Hlen Hsync Hle.
  induction count as [count IH] using (well_founded_induction lt_wf).
  intros k slot fuel Hk Hfuel Heq.
  pose proof (compressed_batch_advance_state_at k count slot Hk Heq) as Hpost.
  unfold advance_post in Hpost. unfold passing_rows.
  destruct (first_passing _ k count) as [j|] eqn:Hfirst.
  - rewrite (first_passing_filter_Some _ _ _ _ Hfirst).
    apply first_passing_Some in Hfirst as (Hj & _ & _).
    destruct fuel as [|fuel]; [lia|].
    destruct (IH (k + count - S j)%nat ltac:(lia) (S j)
                 (row_at chunk_state bs0 j slot0) fuel)
      as (slot' & Hrest); [lia..| |].
    { unfold row_at. apply slot_equiv_materialized, slot_equiv_refl. }
    exists slot'.
    rewrite (advance_until_empty_emitted _ _ _ _ _ Hpost eq_refl eq_refl).
    by rewrite (bind_Ok _ _ _ _ _ Hrest).
  - rewrite (first_passing_filter_None _ _ _ Hfirst).
    destruct Hpost as (slot' & _ & Hrun). exists slot'.
    by rewrite (advance_until_empty_finished _ _ _ _ _ Hrun eq_refl eq_refl).
Qed.
End Drain.

Lemma advance_to_exhaustion_spec chunk_state bs slot :
  next_batch_row bs <= total_batch_rows bs ->
  length (compressed_columns bs) = num_compressed_columns chunk_state ->
  decompressed_scan_slot bs = Some slot ->
  columns_in_sync bs = true ->
  exists slot',
    advance_to_exhaustion chunk_state bs
    = Ok (passing_rows chunk_state bs slot 0 (rows_left bs))
         (exhausted bs slot').
Proof.
  intros Hle Hlen Hslot Hsync. unfold advance_to_exhaustion, bind, get.
  replace (advance_until_empty (rows_left bs) chunk_state bs)
    with (advance_until_empty (rows_left bs) chunk_state (state_at bs 0 slot))
    by (by rewrite state_at_0).
  apply advance_until_empty_spec; [done..|lia|lia|done].
Qed.

Lemma pull_n_pulls k c it :
  iterator c = Some it ->
  exists it', iterator (pull_n k c) = Some it'
              /\ results it' = results it
              /\ pulls it' = (k + pulls it)%nat.
Proof. intros H. unfold pull_n. rewrite H. simpl. eauto. Qed.

(** C2: over a complete advance-to-exhaustion sequence from a loaded batch,
    the iterator of every iterator-form column is pulled once for each of
    the [total_batch_rows] rows, whether the row is skipped or materialized,
    and once more for the end-of-batch probe; a column without an iterator
    is left as it is. *)
Theorem iterator_pulled_once_per_row chunk_state bs slot :
  0 < total_batch_rows bs ->
  next_batch_row bs = 0 ->
  length (compressed_columns bs) = num_compressed_columns chunk_state ->
  decompressed_scan_slot bs = Some slot ->
  columns_in_sync bs = true ->
  exists rows bs',
    advance_to_exhaustion chunk_state bs = Ok rows bs'
    /\ (forall i c it,
          compressed_columns bs !! i = Some c -> iterator c = Some it ->
          exists c' it',
            compressed_columns bs' !! i = Some c'
            /\ iterator c' = Some it'
            /\ Z.of_nat (pulls it') = Z.of_nat (pulls it) + total_batch_rows bs + 1)
    /\ (forall i c,
          compressed_columns bs !! i = Some c -> iterator c = None ->
          compressed_columns bs' !! i = Some c)
    /\ (forall k, (k < rows_left bs)%nat ->
          (exists s,
             for_range 0 (num_compressed_columns chunk_state) skip_column
                       (seek k bs) = Ok tt s
             /\ compressed_columns s = pull_n (S k) <$> compressed_columns bs)
          /\ (exists s,
             compressed_batch_make_next_tuple chunk_state (seek k bs) = Ok tt s
             /\ compressed_columns s = pull_n (S k) <$> compressed_columns bs)).
Proof.
  intros Htotal Hnext Hlen Hslot Hsync.
  destruct (advance_to_exhaustion_spec chunk_state bs slot)
    as (slot' & Hrun); [lia|done..|].
  eexists _, _. split; [exact Hrun|]. simpl. repeat split.
  - intros i c it Hc Hit.
    destruct (pull_n_pulls (S (rows_left bs)) c it Hit) as (it' & Hit' & _ & Hp).
    exists (pull_n (S (rows_left bs)) c), it'.
    rewrite list_lookup_fmap, Hc. repeat split; [done|].
    rewrite Hp. unfold rows_left. lia.
  - intros i c Hc Hit. rewrite list_lookup_fmap, Hc. simpl.
    by rewrite pull_n_no_iterator.
  - rewrite (skip_columns_ok chunk_state _ slot); simpl;
      [|by rewrite length_fmap|done].
    eexists. split; [done|]. simpl. apply pull_n_fmap.
  - rewrite (row_at_materialized chunk_state bs slot k) by done.
    eexists. split; done.
Qed.

(** ** Saving the first tuple *)

Lemma seek_0 bs : seek 0 bs = bs.
Proof.
  unfold seek. rewrite pull_n_0_fmap. simpl Z.of_nat. rewrite Z.add_0_r.
  by destruct bs.
Qed.

Lemma compressed_batch_save_first_tuple_run chunk_state bs slot first_tuple_slot :
  0 < total_batch_rows bs ->
  next_batch_row bs = 0 ->
  length (compressed_columns bs) = num_compressed_columns chunk_state ->
  decompressed_scan_slot bs = Some slot ->
  columns_in_sync bs = true ->
  compressed_batch_save_first_tuple chunk_state first_tuple_slot bs
  = bind (if row_passes chunk_state bs slot 0 then ret tt
          else compressed_batch_advance chunk_state)
         (fun _ => ret (ExecCopySlot first_tuple_slot
                          (row_at chunk_state bs 0 slot)))
         (state_at bs 1 (row_at chunk_state bs 0 slot)).
Proof.
  intros Htotal Hnext Hlen Hslot Hsync.
  unfold compressed_batch_save_first_tuple.
  pose proof (row_at_materialized chunk_state bs slot 0 Hlen Hslot Hsync) as Hrow.
  rewrite seek_0 in Hrow.
  rewrite (bind_Ok _ _ _ _ _ (Hrow ltac:(unfold rows_left; lia))).
  unfold bind at 1, scan_slot at 1. simpl decompressed_scan_slot. cbv iota.
  unfold bind at 1, get.
  assert (Hqual :
    (if compressed_batch_vector_qual chunk_state
          (with_progress (next_batch_row bs + Z.of_nat 0)
             (pull_n 1 <$> compressed_columns bs)
             (row_at chunk_state bs 0 slot) bs)
     then compressed_batch_postgres_qual chunk_state
     else ret false)
      (with_progress (next_batch_row bs + Z.of_nat 0)
         (pull_n 1 <$> compressed_columns bs)
         (row_at chunk_state bs 0 slot) bs)
    = Ok (row_passes chunk_state bs slot 0)
         (with_progress (next_batch_row bs + Z.of_nat 0)
            (pull_n 1 <$> compressed_columns bs)
            (row_at chunk_state bs 0 slot) bs)).
  { unfold row_passes.
    change (compressed_batch_vector_qual chunk_state (with_progress _ _ _ bs))
      with (compressed_batch_vector_qual chunk_state (seek 0 bs)).
    destruct (compressed_batch_vector_qual chunk_state (seek 0 bs)); [|done].
    by apply compressed_batch_postgres_qual_ok. }
  rewrite (bind_Ok _ _ _ _ _ Hqual).
  unfold bind at 1. unfold next_batch_row_incr at 1, modify at 1.
  assert (Hstate :
    with_next_batch_row
      (next_batch_row
         (with_progress (next_batch_row bs + Z.of_nat 0)
            (pull_n 1 <$> compressed_columns bs)
            (row_at chunk_state bs 0 slot) bs) + 1)
      (with_progress (next_batch_row bs + Z.of_nat 0)
         (pull_n 1 <$> compressed_columns bs)
         (row_at chunk_state bs 0 slot) bs)
    = state_at bs 1 (row_at chunk_state bs 0 slot)).
  { unfold state_at, with_progress, with_next_batch_row; simpl. f_equal. lia. }
  rewrite Hstate.
  by destruct (row_passes chunk_state bs slot 0).
Qed.

(** C4: with the cursor at row 0 of a batch with [total_batch_rows > 0],
    [compressed_batch_save_first_tuple] materializes row 0 and copies it into
    the caller's slot whether or not it passes the quals.  When row 0 passes
    it stays in the output slot with the cursor at 1; when it does not, the
    advance loop runs from row 1 and leaves a later passing row, or an
    empty slot, so that row 0 is returned as a passing row exactly when it
    passed itself. *)
Theorem save_first_tuple_copies_row_0 chunk_state bs slot first_tuple_slot :
  0 < total_batch_rows bs ->
  next_batch_row bs = 0 ->
  length (compressed_columns bs) = num_compressed_columns chunk_state ->
  decompressed_scan_slot bs = Some slot ->
  columns_in_sync bs = true ->
  exists bs',
    compressed_batch_save_first_tuple chunk_state first_tuple_slot bs
    = Ok (ExecCopySlot first_tuple_slot (row_at chunk_state bs 0 slot)) bs'
    /\ (exists s, compressed_batch_make_next_tuple chunk_state bs = Ok tt s
                  /\ decompressed_scan_slot s
                     = Some (row_at chunk_state bs 0 slot))
    /\ (row_passes chunk_state bs slot 0 = true ->
          decompressed_scan_slot bs' = Some (row_at chunk_state bs 0 slot)
          /\ next_batch_row bs' = 1)
    /\ (row_passes chunk_state bs slot 0 = false ->
          compressed_batch_advance chunk_state
            (state_at bs 1 (row_at chunk_state bs 0 slot)) = Ok tt bs'
          /\ ((exists k,
                 (1 <= k < rows_left bs)%nat
                 /\ row_passes chunk_state bs slot k = true
                 /\ (forall j, (1 <= j < k)%nat ->
                               row_passes chunk_state bs slot j = false)
                 /\ decompressed_scan_slot bs'
                    = Some (row_at chunk_state bs k slot)
                 /\ next_batch_row bs' = Z.of_nat k + 1)
              \/ ((forall j, (1 <= j < rows_left bs)%nat ->
                             row_passes chunk_state bs slot j = false)
                  /\ TupIsNull (decompressed_scan_slot bs') = true
                  /\ next_batch_row bs' = total_batch_rows bs)))
    /\ (TupIsNull (decompressed_scan_slot bs') = false
        /\ next_batch_row bs' = 1
        <-> row_passes chunk_state bs slot 0 = true).
Proof.
  intros Htotal Hnext Hlen Hslot Hsync.
  rewrite (compressed_batch_save_first_tuple_run _ _ slot) by done.
  assert (Hmat : exists s,
    compressed_batch_make_next_tuple chunk_state bs = Ok tt s
    /\ decompressed_scan_slot s = Some (row_at chunk_state bs 0 slot)).
  { pose proof (row_at_materialized chunk_state bs slot 0 Hlen Hslot Hsync) as Hrow.
    rewrite seek_0 in Hrow. eexists. split; [apply Hrow|done].
    unfold rows_left. lia. }
  destruct (row_passes chunk_state bs slot 0) eqn:Hpass0.
  - eexists. split; [reflexivity|]. split; [done|]. simpl.
    repeat split; try done; lia.
  - pose proof (compressed_batch_advance_state_at chunk_state bs slot
                  Hlen Hsync ltac:(lia) 1 (rows_left bs - 1)
                  (row_at chunk_state bs 0 slot)) as Hpost.
    unfold advance_post in Hpost.
    assert (Hleft : (1 + (rows_left bs - 1) = rows_left bs)%nat)
      by (unfold rows_left; lia).
    specialize (Hpost Hleft).
    destruct (first_passing _ 1 (rows_left bs - 1)) as [k|] eqn:Hfirst.
    + rewrite (bind_Ok _ _ _ _ _
                 (Hpost ltac:(apply slot_equiv_materialized, slot_equiv_refl))).
      apply first_passing_Some in Hfirst as (Hk & Hpassk & Hbefore).
      eexists. split; [reflexivity|]. split; [done|]. simpl.
      split; [done|]. split.
      * intros _. split; [by apply Hpost, slot_equiv_materialized|].
        left. exists k. repeat split; [lia..|done| |lia].
        intros j Hj. by apply Hbefore.
      * split; [lia|done].
    + destruct (Hpost ltac:(apply slot_equiv_materialized, slot_equiv_refl))
        as (slot' & _ & Hrun).
      rewrite (bind_Ok _ _ _ _ _ Hrun).
      eexists. split; [reflexivity|]. split; [done|]. simpl.
      split; [done|]. split.
      * intros _. split; [done|]. right. repeat split.
        intros j Hj. apply (first_passing_None _ _ _ Hfirst). lia.
      * split; [by intros []|done].
Qed.

(** ** Reverse scans *)

Lemma fmap_filter_seq_mirror {A} (f_f f_b : nat -> A) (p_f p_b : nat -> bool) n :
  forall k,
    (forall j, (j < n)%nat ->
       f_b (k + j)%nat = f_f (n - 1 - j)%nat
       /\ p_b (k + j)%nat = p_f (n - 1 - j)%nat) ->
    f_b <$> filter (fun j => p_b j) (seq k n)
    = rev (f_f <$> filter (fun j => p_f j) (seq 0 n)).
Proof.
  induction n as [|n IH]; intros k Hmirror; [done|].
  rewrite (seq_S n 0), filter_app, fmap_app, rev_app_distr.
  cbn [seq]. destruct (Hmirror 0%nat ltac:(lia)) as [Hf Hp].
  rewrite Nat.add_0_r in Hf, Hp.
  replace (S n - 1 - 0)%nat with n in Hf, Hp by lia.
  assert (Hrest :
    f_b <$> filter (fun j => p_b j) (seq (S k) n)
    = rev (f_f <$> filter (fun j => p_f j) (seq 0 n))).
  { apply IH. intros j Hj. destruct (Hmirror (S j) ltac:(lia)) as [Hf' Hp'].
    replace (S k + j)%nat with (k + S j)%nat by lia.
    by replace (n - 1 - j)%nat with (S n - 1 - S j)%nat by lia. }
  simpl plus. destruct (p_f n) eqn:Hn.
  - rewrite !filter_cons_True by (by apply Is_true_true_2).
    rewrite filter_nil. cbn [fmap list_fmap rev app].
    by rewrite Hf, <- Hrest.
  - rewrite !filter_cons_False by (by apply Is_true_false_2).
    by rewrite filter_nil, <- Hrest.
Qed.

Lemma mirrored_column_write total (forward backward : CompressedColumnValues) r k :
  mirrored_column total forward backward -> (k < total)%nat ->
  column_write r (pull_n k backward)
  = column_write r (pull_n (total - 1 - k) forward).
Proof.
  intros (Hv & Hval & Hb & Ha & Hit) Hk. unfold column_write, pull_n.
  destruct (iterator forward) as [it_f|], (iterator backward) as [it_b|];
    simpl; try done.
  - by rewrite Ha, (Hit k Hk).
  - by rewrite Ha, Hv, Hval, Hb.
Qed.

Lemma mirrored_materialize_row total cols_f cols_b r k slot :
  Forall2 (mirrored_column total) cols_f cols_b -> (k < total)%nat ->
  materialize_row r (pull_n k <$> cols_b) slot
  = materialize_row r (pull_n (total - 1 - k) <$> cols_f) slot.
Proof.
  intros Hall Hk. unfold materialize_row. f_equal.
  induction Hall as [|c_f c_b cols_f cols_b Hc _ IH]; [done|].
  rewrite !fmap_cons. cbn [omap list_omap].
  rewrite (mirrored_column_write total c_f c_b r k Hc Hk).
  destruct (column_write r (pull_n (total - 1 - k) c_f)); by rewrite IH.
Qed.

Section Reverse.
Variable chunk_state : DecompressChunkState.
Variables forward backward : DecompressBatchState.
Variable slot : TupleTableSlot.
Hypothesis Hnext_f : next_batch_row forward = 0.
Hypothesis Hnext_b : next_batch_row backward = 0.
Hypothesis Htotal : total_batch_rows backward = total_batch_rows forward.
Hypothesis Hbitmap : vector_qual_result backward = vector_qual_result forward.
Hypothesis Hmirror :
  Forall2 (mirrored_column (rows_left forward))
          (compressed_columns forward) (compressed_columns backward).

Lemma rows_left_mirror : rows_left backward = rows_left forward.
Proof using Hnext_f Hnext_b Htotal.
  unfold rows_left. by rewrite Hnext_f, Hnext_b, Htotal.
Qed.

Lemma arrow_row_mirror k :
  (k < rows_left forward)%nat ->
  arrow_row_of (with_reverse true chunk_state) (seek k backward)
  = arrow_row_of (with_reverse false chunk_state) (seek (rows_left forward - 1 - k) forward).
Proof using Hnext_f Hnext_b Htotal.
  intros Hk. unfold arrow_row_of; simpl.
  rewrite Hnext_f, Hnext_b, Htotal. unfold rows_left in *. lia.
Qed.

Lemma row_at_mirror k :
  (k < rows_left forward)%nat ->
  row_at (with_reverse true chunk_state) backward k slot
  = row_at (with_reverse false chunk_state) forward (rows_left forward - 1 - k) slot.
Proof using Hnext_f Hnext_b Htotal Hmirror.
  intros Hk. unfold row_at. rewrite (arrow_row_mirror k Hk). f_equal.
  by apply mirrored_materialize_row.
Qed.

Lemma row_passes_mirror k :
  (k < rows_left forward)%nat ->
  row_passes (with_reverse true chunk_state) backward slot k
  = row_passes (with_reverse false chunk_state) forward slot (rows_left forward - 1 - k).
Proof using Hnext_f Hnext_b Htotal Hbitmap Hmirror.
  intros Hk. unfold row_passes. rewrite (row_at_mirror k Hk).
  f_equal. unfold compressed_batch_vector_qual.
  rewrite (arrow_row_mirror k Hk). simpl. by rewrite Hbitmap.
Qed.

Lemma passing_rows_mirror :
  passing_rows (with_reverse true chunk_state) backward slot 0 (rows_left backward)
  = rev (passing_rows (with_reverse false chunk_state) forward slot 0 (rows_left forward)).
Proof using Hnext_f Hnext_b Htotal Hbitmap Hmirror.
  unfold passing_rows. rewrite rows_left_mirror.
  apply fmap_filter_seq_mirror. intros j Hj. simpl.
  by rewrite row_at_mirror, row_passes_mirror.
Qed.
End Reverse.

(** C6: the rows that a reverse scan of a batch returns, advancing until the
    batch is exhausted, are the rows of the forward scan of the same batch
    with the same quals in the opposite order.  The row that is read from a
    bulk column and from the bitmap of the vectorized quals is
    [total_batch_rows - 1 - next_batch_row] in a reverse scan and
    [next_batch_row] in a forward scan. *)
Theorem reverse_scan_returns_reversed_rows chunk_state forward backward slot :
  0 < total_batch_rows forward ->
  next_batch_row forward = 0 ->
  next_batch_row backward = 0 ->
  total_batch_rows backward = total_batch_rows forward ->
  vector_qual_result backward = vector_qual_result forward ->
  decompressed_scan_slot forward = Some slot ->
  decompressed_scan_slot backward = Some slot ->
  length (compressed_columns forward) = num_compressed_columns chunk_state ->
  Forall2 (mirrored_column (rows_left forward))
          (compressed_columns forward) (compressed_columns backward) ->
  columns_in_sync forward = true ->
  columns_in_sync backward = true ->
  (exists rows forward' backward',
      advance_to_exhaustion (with_reverse false chunk_state) forward
      = Ok rows forward'
      /\ advance_to_exhaustion (with_reverse true chunk_state) backward
         = Ok (rev rows) backward')
  /\ (forall bs,
        arrow_row_of (with_reverse true chunk_state) bs
        = total_batch_rows bs - 1 - next_batch_row bs
        /\ arrow_row_of (with_reverse false chunk_state) bs
           = next_batch_row bs)
  /\ (forall b bs bitmap,
        vector_qual_result bs = Some bitmap ->
        compressed_batch_vector_qual (with_reverse b chunk_state) bs
        = arrow_row_is_valid (Some bitmap)
            (arrow_row_of (with_reverse b chunk_state) bs)).
Proof.
  intros Hpos Hnext_f Hnext_b Htotal Hbitmap Hslot_f Hslot_b Hlen Hmirror
         Hsync_f Hsync_b.
  split; [|split].
  - destruct (advance_to_exhaustion_spec (with_reverse false chunk_state)
                forward slot) as (slot_f & Hrun_f); [lia|done..|].
    destruct (advance_to_exhaustion_spec (with_reverse true chunk_state)
                backward slot) as (slot_b & Hrun_b); [lia| |done..|].
    { simpl. rewrite <- Hlen. symmetry. by eapply Forall2_length. }
    eexists _, _, _. split; [exact Hrun_f|].
    rewrite Hrun_b. f_equal. by apply passing_rows_mirror.
  - done.
  - intros b bs bitmap Hb. unfold compressed_batch_vector_qual. by rewrite Hb.
Qed.

(** ** Vectorized quals *)

Lemma replicate_snoc_app {A} n (x : A) l :
  replicate n x ++ x :: l = replicate (S n) x ++ l.
Proof. induction n as [|n IH]; simpl; [done|]. by rewrite IH. Qed.

Lemma zero_bitmap_all (bitmap : list Z) bs :
  vector_qual_result bs = Some bitmap ->
  for_range 0 (length bitmap) (fun i =>
    modify (fun bs =>
      with_vector_qual_result (<[i := 0]> <$> vector_qual_result bs) bs)) bs
  = Ok tt (with_vector_qual_result (Some (replicate (length bitmap) 0)) bs).
Proof.
  intros Hb.
  destruct (for_range_invariant
    (fun j s => s = with_vector_qual_result
                      (Some (replicate j 0 ++ drop j bitmap)) bs)
    0%nat (length bitmap)
    (fun i => modify (fun bs =>
       with_vector_qual_result (<[i := 0]> <$> vector_qual_result bs) bs))
    bs) as (bs' & Hrun & ->).
  - simpl. rewrite drop_0. destruct bs; simpl in *; by subst.
  - intros j s Hj ->. eexists. split; [reflexivity|].
    unfold with_vector_qual_result; simpl. do 2 f_equal.
    destruct (lookup_lt_is_Some_2 bitmap j) as [x Hx]; [lia|].
    rewrite insert_app_r_alt; rewrite length_replicate; [|lia].
    rewrite Nat.sub_diag, (drop_S _ _ _ Hx). simpl.
    apply replicate_snoc_app.
  - rewrite Hrun. simpl. by rewrite drop_all, app_nil_r.
Qed.

Lemma arrow_row_is_valid_zero n row :
  arrow_row_is_valid (Some (replicate n 0)) row = false.
Proof.
  unfold arrow_row_is_valid.
  destruct (replicate n 0 !! Z.to_nat (row / 64)) as [w|] eqn:Hw; simpl.
  - apply lookup_replicate in Hw as [-> _]. apply Z.testbit_0_l.
  - apply Z.testbit_0_l.
Qed.

Section Quals.
Context `{Collaborators}.

Lemma foreach_raise {A} (before after : list A) x body bs bs1 e bs2 :
  foreach before body bs = Ok tt bs1 ->
  body x bs1 = Raise e bs2 ->
  foreach (before ++ x :: after) body bs = Raise e bs2.
Proof.
  revert bs. induction before as [|y before IH]; intros bs; simpl.
  - intros [= <-] Hbody. unfold bind. by rewrite Hbody.
  - unfold bind. destruct (body y bs) as [[] bs'|]; [|done]. apply IH.
Qed.

(** The checks of [apply_vector_qual] that precede the construction of the
    arrow array, when they all pass. *)
Lemma apply_vector_qual_checked chunk_state bitmap_bytes oe bs
    column_description column_values :
  let column_index :=
    find_template_column (template_columns chunk_state)
      (varattno (arg_var oe)) 0 (num_total_columns chunk_state) in
  (column_index < num_total_columns chunk_state)%nat ->
  template_columns chunk_state !! column_index = Some column_description ->
  type column_description = COMPRESSED_COLUMN ->
  compressed_columns bs !! column_index = Some column_values ->
  iterator column_values = None ->
  apply_vector_qual chunk_state bitmap_bytes oe bs
  = bind
      (match arrow column_values with
       | Some vector => ret vector
       | None =>
           bind scan_slot (fun slot =>
             let attr :=
               AttrNumberGetAttrOffset
                 (template_output_attno column_description) in
             make_single_value_arrow (typid column_description)
               (default 0 (tts_values slot !! Z.to_nat attr))
               (default false (tts_isnull slot !! Z.to_nat attr)))
       end)
      (fun vector =>
         match get_vector_const_predicate (get_opcode (opno oe)) with
         | None =>
             elog_ERROR
               (vectorized_predicate_not_found (get_opcode (opno oe)))
         | Some predicate =>
             bind (Ensure (negb (constisnull (arg_const oe)))
                          vectorized_predicate_null_value)
               (fun _ =>
                  match arrow column_values with
                  | Some _ =>
                      bind get (fun batch_state =>
                        match vector_qual_result batch_state with
                        | None => elog_ERROR undefined_behaviour
                        | Some predicate_result =>
                            bind (call_predicate predicate vector
                                    (constvalue (arg_const oe))
                                    predicate_result)
                                 (fun result =>
                                    modify (with_vector_qual_result
                                              (Some result)))
                        end)
                  | None =>
                      bind (call_predicate predicate vector
                              (constvalue (arg_const oe)) [1])
                        (fun result =>
                           if negb (Z.testbit (default 0 (result !! 0%nat)) 0)
                           then
                             for_range 0 (Z.to_nat (bitmap_bytes `quot` 8))
                               (fun i =>
                                  modify (fun bs =>
                                    with_vector_qual_result
                                      (<[i := 0]> <$> vector_qual_result bs)
                                      bs))
                           else ret tt)
                  end)
         end) bs.
Proof.
  intros column_index Hfound Hdesc Htype Hcol Hit.
  unfold apply_vector_qual. fold column_index.
  rewrite bool_decide_eq_true_2 by done.
  unfold Ensure at 1. unfold bind at 1, ret at 1.
  rewrite Hdesc, Htype. cbn [is_compressed_column].
  unfold Ensure at 1. unfold bind at 1, ret at 1.
  unfold bind at 1, column_at at 1. rewrite Hcol.
  rewrite Hit. cbn [is_NULL].
  unfold Ensure at 1. unfold bind at 1, ret at 1.
  destruct (arrow column_values); [done|].
  unfold Ensure at 1. unfold bind at 1 2, ret at 1. done.
Qed.

Lemma make_single_value_arrow_ok pgtype datum isnull width bs :
  isnull = true \/ single_value_width pgtype = Some width ->
  make_single_value_arrow pgtype datum isnull bs
  = Ok (default_value_arrow width datum isnull)
       (with_per_batch_context
          (cons single_value_arrow_chunk <$> per_batch_context bs) bs).
Proof.
  intros Hty. unfold make_single_value_arrow, default_value_arrow, palloc.
  rewrite bind_modify. destruct isnull; [done|].
  destruct Hty as [|Hw]; [done|]. by rewrite Hw.
Qed.

(** C3: for a vectorized qual on a compressed column that has no stored
    value, the predicate is called once, on an arrow array of length 1
    that holds the default value of the column.  When the default value
    does not pass, every word of the bitmap of the batch is set to zero and
    no row passes; when it passes, the bitmap is left as it was. *)
Theorem default_value_qual_applies_to_whole_batch
    chunk_state bitmap_bytes oe bs column_description column_values slot
    width predicate bitmap :
  let column_index :=
    find_template_column (template_columns chunk_state)
      (varattno (arg_var oe)) 0 (num_total_columns chunk_state) in
  let attr :=
    Z.to_nat (AttrNumberGetAttrOffset
                (template_output_attno column_description)) in
  let default_value := default 0 (tts_values slot !! attr) in
  let default_isnull := default false (tts_isnull slot !! attr) in
  let vector := default_value_arrow width default_value default_isnull in
  let passed :=
    Z.testbit
      (default 0 (predicate vector (constvalue (arg_const oe)) [1] !! 0%nat))
      0 in
  (column_index < num_total_columns chunk_state)%nat ->
  template_columns chunk_state !! column_index = Some column_description ->
  type column_description = COMPRESSED_COLUMN ->
  compressed_columns bs !! column_index = Some column_values ->
  iterator column_values = None ->
  arrow column_values = None ->
  decompressed_scan_slot bs = Some slot ->
  default_isnull = true
  \/ single_value_width (typid column_description) = Some width ->
  get_vector_const_predicate (get_opcode (opno oe)) = Some predicate ->
  constisnull (arg_const oe) = false ->
  vector_qual_result bs = Some bitmap ->
  length bitmap = Z.to_nat (bitmap_bytes `quot` 8) ->
  exists bs',
    apply_vector_qual chunk_state bitmap_bytes oe bs = Ok tt bs'
    /\ arrow_length vector = 1
    /\ buffers_0 vector = Some [if default_isnull then 0 else 1]
    /\ (default_isnull = false ->
        buffers_1 vector
        = Some (write_le 8 (default_value mod 2 ^ (8 * width))))
    /\ predicate_calls bs'
       = (vector, constvalue (arg_const oe)) :: predicate_calls bs
    /\ vector_qual_result bs'
       = Some (if passed then bitmap else replicate (length bitmap) 0)
    /\ (passed = false ->
        forall row,
          arrow_row_is_valid (vector_qual_result bs') row = false).
Proof.
  intros column_index attr default_value default_isnull vector passed
         Hfound Hdesc Htype Hcol Hit Harrow Hslot Hty Hpred Hconst Hbitmap Hlen.
  pose proof (make_single_value_arrow_ok (typid column_description)
                default_value default_isnull width bs Hty) as Hmake.
  fold vector in Hmake.
  rewrite (apply_vector_qual_checked _ _ _ _ column_description column_values)
    by done.
  rewrite Harrow.
  erewrite bind_Ok.
  2:{ unfold bind, scan_slot. rewrite Hslot. exact Hmake. }
  rewrite Hpred, Hconst. cbn [negb Ensure].
  unfold bind at 1, ret at 1.
  erewrite bind_Ok by reflexivity.
  rewrite <- Hlen. fold passed.
  assert (Hvector : arrow_length vector = 1
    /\ buffers_0 vector = Some [if default_isnull then 0 else 1]
    /\ (default_isnull = false ->
        buffers_1 vector
        = Some (write_le 8 (default_value mod 2 ^ (8 * width))))).
  { unfold vector, default_value_arrow. by destruct default_isnull. }
  destruct Hvector as (Hlength & Hvalid & Hvalues).
  destruct passed eqn:Hpassed; cbn [negb].
  - eexists. split; [reflexivity|]. split_and!; done.
  - rewrite (zero_bitmap_all bitmap) by done.
    eexists. split; [reflexivity|]. split_and!; try done.
    intros _ row. apply arrow_row_is_valid_zero.
Qed.

Lemma qual_column_ready_vector column_description column_values bs :
  qual_column_ready column_description column_values bs ->
  exists vector bs',
    (match arrow column_values with
     | Some vector => ret vector
     | None =>
         bind scan_slot (fun slot =>
           let attr :=
             AttrNumberGetAttrOffset
               (template_output_attno column_description) in
           make_single_value_arrow (typid column_description)
             (default 0 (tts_values slot !! Z.to_nat attr))
             (default false (tts_isnull slot !! Z.to_nat attr)))
     end) bs = Ok vector bs'
    /\ vector_qual_result bs' = vector_qual_result bs
    /\ predicate_calls bs' = predicate_calls bs
    /\ (is_Some (arrow column_values) -> bs' = bs).
Proof.
  intros [_ [[vector Hv]|(slot & Hslot & Hty)]].
  - rewrite Hv. exists vector, bs. by repeat split.
  - destruct (arrow column_values) as [vector|].
    + exists vector, bs. by repeat split.
    + unfold bind, scan_slot. rewrite Hslot.
      assert (Hwidth : exists width,
        default false (tts_isnull slot !! Z.to_nat
           (AttrNumberGetAttrOffset (template_output_attno column_description)))
        = true
        \/ single_value_width (typid column_description) = Some width).
      { destruct Hty as [Hnull|[width Hw]]; [exists 0; by left|].
        exists width. by right. }
      destruct Hwidth as [width Hwidth].
      rewrite (make_single_value_arrow_ok _ _ _ width bs Hwidth).
      eexists _, _. split; [done|]. simpl.
      repeat split. by intros [].
Qed.

(** C8: a vectorized qual whose column is not a compressed column, or is a
    compressed column in iterator form, whose operator has no vectorized
    implementation, or whose constant is null, raises an error.  The
    bitmap of the batch is then as it was before this qual, and the
    predicate was not called; the error propagates out of
    [apply_vector_quals], which has allocated the bitmap by then. *)
Theorem vector_qual_precondition_violations
    chunk_state bitmap_bytes oe bs column_description :
  let column_index :=
    find_template_column (template_columns chunk_state)
      (varattno (arg_var oe)) 0 (num_total_columns chunk_state) in
  (column_index < num_total_columns chunk_state)%nat ->
  template_columns chunk_state !! column_index = Some column_description ->
  (type column_description <> COMPRESSED_COLUMN ->
     apply_vector_qual chunk_state bitmap_bytes oe bs
     = Raise only_compressed_columns_supported bs)
  /\ (forall column_values it,
        type column_description = COMPRESSED_COLUMN ->
        compressed_columns bs !! column_index = Some column_values ->
        iterator column_values = Some it ->
        apply_vector_qual chunk_state bitmap_bytes oe bs
        = Raise only_arrow_columns_supported bs)
  /\ (forall column_values,
        type column_description = COMPRESSED_COLUMN ->
        compressed_columns bs !! column_index = Some column_values ->
        qual_column_ready column_description column_values bs ->
        get_vector_const_predicate (get_opcode (opno oe)) = None ->
        exists bs',
          apply_vector_qual chunk_state bitmap_bytes oe bs
          = Raise (vectorized_predicate_not_found (get_opcode (opno oe))) bs'
          /\ vector_qual_result bs' = vector_qual_result bs
          /\ predicate_calls bs' = predicate_calls bs)
  /\ (forall column_values predicate,
        type column_description = COMPRESSED_COLUMN ->
        compressed_columns bs !! column_index = Some column_values ->
        qual_column_ready column_description column_values bs ->
        get_vector_const_predicate (get_opcode (opno oe)) = Some predicate ->
        constisnull (arg_const oe) = true ->
        exists bs',
          apply_vector_qual chunk_state bitmap_bytes oe bs
          = Raise vectorized_predicate_null_value bs'
          /\ vector_qual_result bs' = vector_qual_result bs
          /\ predicate_calls bs' = predicate_calls bs)
  /\ (forall before after bs0 e bs',
        vectorized_quals chunk_state = before ++ oe :: after ->
        bitmap_bytes
        = to_int (8 * (to_int (total_batch_rows bs0 + 63) `quot` 64)) ->
        bitmap_bytes mod 2 ^ 64 <= MaxAllocSize ->
        foreach before (apply_vector_qual chunk_state bitmap_bytes)
          (with_vector_qual_result
             (Some (replicate (Z.to_nat (bitmap_bytes `quot` 8)) UINT64_MAX))
             (with_per_batch_context
                (cons (vector_qual_result_chunk bitmap_bytes)
                   <$> per_batch_context bs0) bs0))
        = Ok tt bs ->
        apply_vector_qual chunk_state bitmap_bytes oe bs = Raise e bs' ->
        apply_vector_quals chunk_state bs0 = Raise e bs').
Proof.
  intros column_index Hfound Hdesc. repeat split.
  - intros Htype. unfold apply_vector_qual. fold column_index.
    rewrite bool_decide_eq_true_2 by done.
    unfold Ensure at 1. unfold bind at 1, ret at 1. rewrite Hdesc.
    by destruct (type column_description).
  - intros column_values it Htype Hcol Hit.
    unfold apply_vector_qual. fold column_index.
    rewrite bool_decide_eq_true_2 by done.
    unfold Ensure at 1. unfold bind at 1, ret at 1.
    rewrite Hdesc, Htype. cbn [is_compressed_column].
    unfold Ensure at 1. unfold bind at 1, ret at 1.
    unfold bind at 1, column_at at 1. rewrite Hcol.
    by rewrite Hit.
  - intros column_values Htype Hcol Hready Hpred.
    rewrite (apply_vector_qual_checked _ _ _ _ _ column_values)
      by (try done; apply Hready).
    destruct (qual_column_ready_vector _ _ _ Hready)
      as (vector & bs' & Hvector & Hbitmap & Hcalls & _).
    rewrite (bind_Ok _ _ _ _ _ Hvector), Hpred. by exists bs'.
  - intros column_values predicate Htype Hcol Hready Hpred Hnull.
    rewrite (apply_vector_qual_checked _ _ _ _ _ column_values)
      by (try done; apply Hready).
    destruct (qual_column_ready_vector _ _ _ Hready)
      as (vector & bs' & Hvector & Hbitmap & Hcalls & _).
    rewrite (bind_Ok _ _ _ _ _ Hvector), Hpred, Hnull. by exists bs'.
  - intros before after bs0 e bs' Hquals -> Hsize Hbefore Hraise.
    unfold apply_vector_quals. rewrite Hquals.
    replace (is_NIL (before ++ oe :: after)) with false
      by by destruct before.
    unfold bind at 1, get. unfold palloc_size.
    rewrite (proj2 (Z.leb_le _ _) Hsize).
    unfold bind at 1, palloc at 1, modify at 1.
    unfold bind at 1, modify at 1.
    by apply (foreach_raise _ _ _ _ _ bs).
Qed.
End Quals.

(** ** Reading a bulk column *)

Lemma byte_at_range src offset :
  Forall is_byte src -> 0 <= byte_at src offset < 256.
Proof.
  intros Hsrc. unfold byte_at.
  destruct (src !! offset) as [b|] eqn:Hb; simpl; [|lia].
  by apply (Forall_lookup_1 _ _ _ _ Hsrc Hb).
Qed.

Lemma read_le_range n src offset :
  Forall is_byte src -> 0 <= read_le n src offset < 256 ^ Z.of_nat n.
Proof.
  intros Hsrc. revert offset. induction n as [|n IH]; intros offset.
  - simpl. lia.
  - cbn [read_le]. rewrite Nat2Z.inj_succ, Z.pow_succ_r by lia.
    pose proof (byte_at_range src offset Hsrc).
    pose proof (IH (S offset)). lia.
Qed.

Lemma read_le_split n m src offset :
  read_le (n + m) src offset
  = read_le n src offset + 256 ^ Z.of_nat n * read_le m src (offset + n).
Proof.
  revert offset. induction n as [|n IH]; intros offset.
  - simpl. rewrite Nat.add_0_r. lia.
  - cbn [Nat.add read_le]. rewrite IH, Nat2Z.inj_succ, Z.pow_succ_r by lia.
    replace (S offset + n)%nat with (offset + S n)%nat by lia. lia.
Qed.

(** The low [width] bytes of the 8-byte word are the value that is stored at
    the offset. *)
Lemma read_uint64_truncated src offset width :
  Forall is_byte src -> 0 <= offset -> 1 <= width <= 8 ->
  read_uint64 src offset mod 2 ^ (8 * width)
  = read_le (Z.to_nat width) src (Z.to_nat offset).
Proof.
  intros Hsrc Hoff Hw. unfold read_uint64.
  replace 8%nat with (Z.to_nat width + (8 - Z.to_nat width))%nat by lia.
  rewrite read_le_split.
  replace (2 ^ (8 * width)) with (256 ^ Z.of_nat (Z.to_nat width)).
  - rewrite Z.mul_comm, Z_mod_plus_full.
    apply Z.mod_small, read_le_range, Hsrc.
  - rewrite Z2Nat.id by lia. change 256 with (2 ^ 8).
    rewrite <- Z.pow_mul_r by lia. done.
Qed.

(** C7: for a column in bulk form the materializer reads the 8 bytes at
    offset [value_bytes * row] of the values buffer and stores that word;
    its low [value_bytes] bytes are the value of the row.  The null flag is
    the negation of the validity bit of the row. *)
Theorem bulk_column_read_at_row_offset arrow_row i bs column_values src slot :
  compressed_columns bs !! i = Some column_values ->
  iterator column_values = None ->
  arrow_values column_values = Some src ->
  decompressed_scan_slot bs = Some slot ->
  let offset := Z.to_nat (value_bytes column_values * arrow_row) in
  let word := read_le 8 src offset in
  let isnull := negb (arrow_row_is_valid (arrow_validity column_values)
                                         arrow_row) in
  let attr := AttrNumberGetAttrOffset (output_attno column_values) in
  make_next_column arrow_row i bs
  = Ok tt (with_decompressed_scan_slot
             (Some (slot_store attr word isnull slot)) bs)
  /\ (0 <= attr -> (Z.to_nat attr < length (tts_values slot))%nat ->
      tts_values (slot_store attr word isnull slot) !! Z.to_nat attr
      = Some word)
  /\ (0 <= attr -> (Z.to_nat attr < length (tts_isnull slot))%nat ->
      tts_isnull (slot_store attr word isnull slot) !! Z.to_nat attr
      = Some isnull)
  /\ (Forall is_byte src -> 0 <= arrow_row ->
      1 <= value_bytes column_values <= 8 ->
      word mod 2 ^ (8 * value_bytes column_values)
      = read_le (Z.to_nat (value_bytes column_values)) src offset)
  /\ (forall words,
        arrow_validity column_values = Some words ->
        isnull = negb (Z.testbit (default 0 (words !! Z.to_nat (arrow_row / 64)))
                                 (arrow_row mod 64))).
Proof.
  intros Hcol Hit Hsrc Hslot offset word isnull attr. repeat split.
  - unfold make_next_column, column_at, bind. rewrite Hcol, Hit, Hsrc.
    unfold update_scan_slot, scan_slot, bind, modify. by rewrite Hslot.
  - intros Hattr Hlen. unfold slot_store.
    rewrite (proj2 (Z.ltb_ge attr 0)) by lia. simpl.
    by apply list_lookup_insert_eq.
  - intros Hattr Hlen. unfold slot_store.
    rewrite (proj2 (Z.ltb_ge attr 0)) by lia. simpl.
    by apply list_lookup_insert_eq.
  - intros Hbytes Hrow Hwidth.
    apply (read_uint64_truncated src (value_bytes column_values * arrow_row));
      [done|lia|done].
  - intros words Hwords. unfold isnull. by rewrite Hwords.
Qed.

(** ** Corrupt batches *)

Lemma for_range_raise j : forall first count body bs bs_j e bs',
  for_range first j body bs = Ok tt bs_j ->
  body (first + j)%nat bs_j = Raise e bs' ->
  (j < count)%nat ->
  for_range first count body bs = Raise e bs'.
Proof.
  induction j as [|j IH]; intros first count body bs bs_j e bs' Hrun Hbody Hlt.
  - injection Hrun as <-. rewrite Nat.add_0_r in Hbody.
    destruct count as [|count]; [lia|]. simpl. by rewrite (bind_Raise _ _ _ _ _ Hbody).
  - destruct count as [|count]; [lia|]. simpl in *.
    unfold bind in Hrun |- *.
    destruct (body first bs) as [[] bs1|]; [|done].
    apply (IH (S first) count body bs1 bs_j); [done| |lia].
    by replace (S first + j)%nat with (first + S j)%nat by lia.
Qed.

Lemma lookup_pulled_prefix (cols : list CompressedColumnValues) j :
  (j <= length cols)%nat ->
  ((pull_n 1 <$> take j cols) ++ drop j cols) !! j = cols !! j.
Proof.
  intros Hj. rewrite lookup_app_r; rewrite length_fmap, length_take; [|lia].
  replace (j - j `min` length cols)%nat with 0%nat by lia.
  by rewrite lookup_drop, Nat.add_0_r.
Qed.

(** The end-of-batch check raises at the first column whose iterator has
    not ended. *)
Lemma check_columns_done_raise chunk_state bs slot j column_values it :
  length (compressed_columns bs) = num_compressed_columns chunk_state ->
  decompressed_scan_slot bs = Some slot ->
  compressed_columns bs !! j = Some column_values ->
  iterator column_values = Some it ->
  is_done (results it (pulls it)) = false ->
  Forall (reports_done true) (take j (compressed_columns bs)) ->
  exists bs',
    for_range 0 (num_compressed_columns chunk_state) check_column_done bs
    = Raise compressed_column_out_of_sync bs'.
Proof.
  intros Hlen Hslot Hcol Hit Hdone Hbefore.
  pose proof (lookup_lt_Some _ _ _ Hcol) as Hj.
  eexists. eapply (for_range_raise j 0).
  - by apply (for_columns_prefix _ _ _ bs slot j check_column_done_step);
      [lia|..].
  - simpl. unfold check_column_done, column_at, bind. simpl.
    rewrite lookup_pulled_prefix by lia. rewrite Hcol, Hit.
    unfold iterator_try_next, bind, set_column, modify, ret. simpl.
    by rewrite Hdone.
  - lia.
Qed.

(** The materializer raises at the first column whose iterator has ended. *)
Lemma compressed_batch_make_next_tuple_raise chunk_state bs slot j
    column_values it :
  length (compressed_columns bs) = num_compressed_columns chunk_state ->
  decompressed_scan_slot bs = Some slot ->
  compressed_columns bs !! j = Some column_values ->
  iterator column_values = Some it ->
  is_done (results it (pulls it)) = true ->
  Forall (reports_done false) (take j (compressed_columns bs)) ->
  exists bs',
    compressed_batch_make_next_tuple chunk_state bs
    = Raise compressed_column_out_of_sync bs'.
Proof.
  intros Hlen Hslot Hcol Hit Hdone Hbefore.
  pose proof (lookup_lt_Some _ _ _ Hcol) as Hj.
  eexists. unfold compressed_batch_make_next_tuple. unfold bind at 1, get.
  apply bind_Raise. eapply (for_range_raise j 0).
  - by apply (for_columns_prefix _ _ _ bs slot j (make_next_column_step _));
      [lia|..].
  - simpl. unfold make_next_column, column_at, bind. simpl.
    rewrite lookup_pulled_prefix by lia. rewrite Hcol, Hit.
    unfold iterator_try_next, bind, set_column, modify, ret. simpl.
    by rewrite Hdone.
  - lia.
Qed.

(** The first of the columns whose iterator reports [expected]. *)
Lemma first_iterator_reporting expected
    (columns : list CompressedColumnValues) :
  (exists column_values it,
      column_values ∈ columns
      /\ iterator column_values = Some it
      /\ is_done (results it (pulls it)) = expected) ->
  exists j column_values it,
    columns !! j = Some column_values
    /\ iterator column_values = Some it
    /\ is_done (results it (pulls it)) = expected
    /\ Forall (reports_done (negb expected)) (take j columns).
Proof.
  induction columns as [|c columns IH].
  { intros (c & it & []%elem_of_nil & _). }
  intros (c' & it' & Hin & Hit' & Hdone').
  destruct (iterator c) as [it|] eqn:Hit.
  - destruct (decide (is_done (results it (pulls it)) = expected))
      as [Hdone|Hdone].
    + exists 0%nat, c, it. by split_and!.
    + apply elem_of_cons in Hin. destruct Hin as [->|Hin]; [congruence|].
      destruct IH as (j & cj & itj & Hj & Hitj & Hdonej & Hbefore);
        [by exists c', it'|].
      exists (S j), cj, itj. split_and!; try done. simpl.
      constructor; [|done]. intros it0 Hit0.
      rewrite Hit in Hit0. injection Hit0 as <-.
      destruct (is_done (results it (pulls it))), expected; done.
  - apply elem_of_cons in Hin. destruct Hin as [->|Hin]; [congruence|].
    destruct IH as (j & cj & itj & Hj & Hitj & Hdonej & Hbefore);
      [by exists c', it'|].
    exists (S j), cj, itj. split_and!; try done. simpl.
    constructor; [|done]. intros it0 Hit0. congruence.
Qed.

(** The loop of [compressed_batch_advance] goes over the rows that are
    dropped: [count] iterations later it is at the row after them. *)
Lemma advance_loop_dropped chunk_state bs0 slot0 count : forall k slot fuel,
  length (compressed_columns bs0) = num_compressed_columns chunk_state ->
  (k + count <= rows_left bs0)%nat ->
  (forall i, (k <= i < k + count)%nat ->
     row_dropped chunk_state bs0 slot0 i) ->
  slot_equiv (compressed_columns bs0) slot slot0 ->
  exists slot',
    slot_equiv (compressed_columns bs0) slot' slot0
    /\ advance_loop (count + fuel) chunk_state (state_at bs0 k slot)
       = advance_loop fuel chunk_state (state_at bs0 (k + count) slot').
Proof.
  induction count as [|count IH]; intros k slot fuel Hlen Hk Hdropped Heq.
  { exists slot. split; [done|]. by rewrite Nat.add_0_r. }
  assert (Hnext : forall s,
    with_progress (next_batch_row bs0 + Z.of_nat k + 1)
      (pull_n 1 <$> (pull_n k <$> compressed_columns bs0)) s
      (state_at bs0 k slot)
    = state_at bs0 (S k) s).
  { intros s. unfold state_at, with_progress; simpl. f_equal; [lia|].
    apply pull_n_fmap. }
  destruct (Hdropped k ltac:(lia)) as [Hfails Hnot_done].
  assert (Hrest : forall slot1,
    slot_equiv (compressed_columns bs0) slot1 slot0 ->
    exists slot',
      slot_equiv (compressed_columns bs0) slot' slot0
      /\ advance_loop (count + fuel) chunk_state (state_at bs0 (S k) slot1)
         = advance_loop fuel chunk_state (state_at bs0 (k + S count) slot')).
  { intros slot1 Heq1.
    replace (k + S count)%nat with (S k + count)%nat by lia.
    apply IH; [done|lia| |done]. intros i Hi. apply Hdropped. lia. }
  cbn [Nat.add].
  rewrite advance_loop_step
    by (apply Z.ltb_lt; unfold rows_left in Hk; simpl; lia).
  change (compressed_batch_vector_qual chunk_state (state_at bs0 k slot))
    with (compressed_batch_vector_qual chunk_state (seek k bs0)).
  unfold row_passes in Hfails.
  destruct (compressed_batch_vector_qual chunk_state (seek k bs0)) eqn:Hvq.
  - (* the row is materialized and the row filter rejects it *)
    erewrite bind_Ok.
    2:{ apply (compressed_batch_make_next_tuple_ok chunk_state _ slot); simpl.
        - by rewrite length_fmap.
        - done.
        - by apply Hnot_done. }
    simpl compressed_columns. simpl next_batch_row.
    assert (Hrow :
      ExecStoreVirtualTuple
        (materialize_row (arrow_row_of chunk_state (state_at bs0 k slot))
           (pull_n k <$> compressed_columns bs0) slot)
      = row_at chunk_state bs0 k slot0).
    { unfold row_at. rewrite (Heq _ k). done. }
    rewrite Hrow.
    erewrite bind_Ok
      by (by apply (compressed_batch_postgres_qual_ok _ _
                      (row_at chunk_state bs0 k slot0))).
    cbn [andb] in Hfails. rewrite Hfails.
    unfold bind at 1. unfold next_batch_row_incr, modify; simpl.
    destruct (Hrest (row_at chunk_state bs0 k slot0))
      as (slot' & Heq' & Hrun).
    { unfold row_at. by apply slot_equiv_materialized. }
    exists slot'. split; [done|]. rewrite <- Hrun, <- Hnext. reflexivity.
  - (* the row is skipped *)
    erewrite bind_Ok.
    2:{ apply (skip_columns_ok chunk_state _ slot); simpl; [|done].
        by rewrite length_fmap. }
    unfold bind at 1. unfold next_batch_row_incr, modify; simpl.
    destruct (Hrest slot Heq) as (slot' & Heq' & Hrun).
    exists slot'. split; [done|]. rewrite <- Hrun, <- Hnext. reflexivity.
Qed.

(** [compressed_batch_advance] gets to the row [k] rows after the cursor
    when the rows before it are dropped. *)
Lemma compressed_batch_advance_dropped chunk_state bs slot k :
  length (compressed_columns bs) = num_compressed_columns chunk_state ->
  decompressed_scan_slot bs = Some slot ->
  (k <= rows_left bs)%nat ->
  (forall i, (i < k)%nat -> row_dropped chunk_state bs slot i) ->
  exists slot',
    compressed_batch_advance chunk_state bs
    = advance_loop (rows_left bs - k) chunk_state (state_at bs k slot').
Proof.
  intros Hlen Hslot Hk Hdropped.
  destruct (advance_loop_dropped chunk_state bs slot k 0 slot
              (rows_left bs - k))
    as (slot' & _ & Hrun); [done|lia|intros i Hi; apply Hdropped; lia|done|].
  cbn [Nat.add] in Hrun. rewrite state_at_0 in Hrun by done.
  exists slot'. unfold compressed_batch_advance. rewrite bind_get_run.
  fold (rows_left bs). rewrite <- Hrun. f_equal. lia.
Qed.

(** [compressed_batch_save_first_tuple] when no iterator has ended at the
    row of the cursor: the row is materialized, and the scan goes on from
    the next row when the row does not pass. *)
Lemma compressed_batch_save_first_tuple_materialized
    chunk_state bs slot first_tuple_slot :
  length (compressed_columns bs) = num_compressed_columns chunk_state ->
  decompressed_scan_slot bs = Some slot ->
  Forall (reports_done false) (compressed_columns bs) ->
  compressed_batch_save_first_tuple chunk_state first_tuple_slot bs
  = bind (if row_passes chunk_state bs slot 0 then ret tt
          else compressed_batch_advance chunk_state)
         (fun _ => ret (ExecCopySlot first_tuple_slot
                          (row_at chunk_state bs 0 slot)))
         (state_at bs 1 (row_at chunk_state bs 0 slot)).
Proof.
  intros Hlen Hslot Hnot_done.
  unfold compressed_batch_save_first_tuple.
  assert (Hrow :
    compressed_batch_make_next_tuple chunk_state bs
    = Ok tt (with_progress (next_batch_row bs + Z.of_nat 0)
               (pull_n 1 <$> compressed_columns bs)
               (row_at chunk_state bs 0 slot) bs)).
  { rewrite (compressed_batch_make_next_tuple_ok _ _ slot) by done.
    unfold row_at. rewrite seek_0. simpl Z.of_nat.
    by rewrite Z.add_0_r. }
  rewrite (bind_Ok _ _ _ _ _ Hrow).
  unfold bind at 1, scan_slot at 1. simpl decompressed_scan_slot. cbv iota.
  unfold bind at 1, get.
  assert (Hqual :
    (if compressed_batch_vector_qual chunk_state
          (with_progress (next_batch_row bs + Z.of_nat 0)
             (pull_n 1 <$> compressed_columns bs)
             (row_at chunk_state bs 0 slot) bs)
     then compressed_batch_postgres_qual chunk_state
     else ret false)
      (with_progress (next_batch_row bs + Z.of_nat 0)
         (pull_n 1 <$> compressed_columns bs)
         (row_at chunk_state bs 0 slot) bs)
    = Ok (row_passes chunk_state bs slot 0)
         (with_progress (next_batch_row bs + Z.of_nat 0)
            (pull_n 1 <$> compressed_columns bs)
            (row_at chunk_state bs 0 slot) bs)).
  { unfold row_passes.
    change (compressed_batch_vector_qual chunk_state (with_progress _ _ _ bs))
      with (compressed_batch_vector_qual chunk_state (seek 0 bs)).
    destruct (compressed_batch_vector_qual chunk_state (seek 0 bs)); [|done].
    by apply compressed_batch_postgres_qual_ok. }
  rewrite (bind_Ok _ _ _ _ _ Hqual).
  unfold bind at 1. unfold next_batch_row_incr at 1, modify at 1.
  assert (Hstate :
    with_next_batch_row
      (next_batch_row
         (with_progress (next_batch_row bs + Z.of_nat 0)
            (pull_n 1 <$> compressed_columns bs)
            (row_at chunk_state bs 0 slot) bs) + 1)
      (with_progress (next_batch_row bs + Z.of_nat 0)
         (pull_n 1 <$> compressed_columns bs)
         (row_at chunk_state bs 0 slot) bs)
    = state_at bs 1 (row_at chunk_state bs 0 slot)).
  { unfold state_at, with_progress, with_next_batch_row; simpl. f_equal. lia. }
  rewrite Hstate.
  by destruct (row_passes chunk_state bs slot 0).
Qed.

Section Corruption.
Context `{Collaborators}.

(** C5: the corruption conditions are errors that leave the entry point
    they occur in.  (1) A bulk-decoded column whose length differs from
    the row count that the batch already has raises an error when the
    column is set up; (2) so does a count column with a value [<= 0]; (3)
    [compressed_batch_advance] raises an error when it gets to the end of
    the batch, having dropped the rows that were left, and an iterator has
    not ended; (4) it raises one when it gets to a row that it
    materializes, having dropped the rows before it, and an iterator has
    ended; (5) an error raised while a column is set up is the outcome of
    [compressed_batch_set_compressed_tuple]; and (6)
    [compressed_batch_save_first_tuple] raises an error when an iterator
    has ended at the row it materializes, and an error of the
    [compressed_batch_advance] that it calls when that row does not pass
    is its outcome. *)
Theorem corruption_is_fatal chunk_state :
  (forall bs i column_description compressed value arrow_array,
      template_columns chunk_state !! i = Some column_description ->
      type column_description = COMPRESSED_COLUMN ->
      is_Some (compressed_columns bs !! i) ->
      compressed_slot bs = Some compressed ->
      slot_getattr compressed (compressed_scan_attno column_description)
      = (value, false) ->
      enable_bulk_decompression chunk_state
      && bulk_decompression_supported column_description = true ->
      tsl_get_decompress_all_function
        (compression_algorithm (PG_DETOAST_DATUM value))
        (PG_DETOAST_DATUM value) (typid column_description)
      = Some arrow_array ->
      total_batch_rows bs <> 0 ->
      arrow_length arrow_array <> total_batch_rows bs ->
      exists bs',
        set_column_from_tuple chunk_state i bs
        = Raise compressed_column_out_of_sync bs')
  /\ (forall bs i column_description compressed value isnull,
      template_columns chunk_state !! i = Some column_description ->
      type column_description = COUNT_COLUMN ->
      compressed_slot bs = Some compressed ->
      slot_getattr compressed (compressed_scan_attno column_description)
      = (value, isnull) ->
      DatumGetInt32 value <= 0 ->
      set_column_from_tuple chunk_state i bs
      = Raise (corrupt_segment_length (DatumGetInt32 value)) bs)
  /\ (forall bs slot,
      length (compressed_columns bs) = num_compressed_columns chunk_state ->
      decompressed_scan_slot bs = Some slot ->
      (forall k, (k < rows_left bs)%nat ->
         row_dropped chunk_state bs slot k) ->
      some_iterator_reports false (seek (rows_left bs) bs) ->
      exists bs',
        compressed_batch_advance chunk_state bs
        = Raise compressed_column_out_of_sync bs')
  /\ (forall bs slot k,
      length (compressed_columns bs) = num_compressed_columns chunk_state ->
      decompressed_scan_slot bs = Some slot ->
      (k < rows_left bs)%nat ->
      (forall i, (i < k)%nat -> row_dropped chunk_state bs slot i) ->
      compressed_batch_vector_qual chunk_state (seek k bs) = true ->
      some_iterator_reports true (seek k bs) ->
      exists bs',
        compressed_batch_advance chunk_state bs
        = Raise compressed_column_out_of_sync bs')
  /\ (forall subslot bs bs0 i bs_i e bs',
      prepare_batch_state chunk_state subslot bs = Ok tt bs0 ->
      for_range 0 i (set_column_from_tuple chunk_state) bs0 = Ok tt bs_i ->
      (i < num_total_columns chunk_state)%nat ->
      set_column_from_tuple chunk_state i bs_i = Raise e bs' ->
      compressed_batch_set_compressed_tuple chunk_state subslot bs
      = Raise e bs')
  /\ (forall bs slot first_tuple_slot,
      length (compressed_columns bs) = num_compressed_columns chunk_state ->
      decompressed_scan_slot bs = Some slot ->
      some_iterator_reports true bs ->
      exists bs',
        compressed_batch_save_first_tuple chunk_state first_tuple_slot bs
        = Raise compressed_column_out_of_sync bs')
  /\ (forall bs slot first_tuple_slot e bs',
      length (compressed_columns bs) = num_compressed_columns chunk_state ->
      decompressed_scan_slot bs = Some slot ->
      Forall (reports_done false) (compressed_columns bs) ->
      row_passes chunk_state bs slot 0 = false ->
      compressed_batch_advance chunk_state
        (state_at bs 1 (row_at chunk_state bs 0 slot)) = Raise e bs' ->
      compressed_batch_save_first_tuple chunk_state first_tuple_slot bs
      = Raise e bs').
Proof.
  split_and!.
  - intros bs i d compressed value arrow_array
           Hdesc Htype [c Hcol] Hcompressed Hattr Hbulk Harrow Htotal Hlen.
    unfold set_column_from_tuple. rewrite Hdesc, Htype.
    unfold set_compressed_column.
    unfold bind at 1, column_at at 1. rewrite Hcol.
    unfold bind at 1, set_column at 1, modify at 1.
    unfold bind at 1, get at 1. cbn [compressed_slot with_compressed_columns].
    rewrite Hcompressed, Hattr, Hbulk, Harrow.
    cbn [total_batch_rows with_compressed_columns].
    rewrite (proj2 (Z.eqb_neq _ _) Htotal).
    rewrite (proj2 (Z.eqb_neq (total_batch_rows bs) (arrow_length arrow_array)))
      by done.
    eexists. reflexivity.
  - intros bs i d compressed value isnull Hdesc Htype Hcompressed Hattr Hcount.
    unfold set_column_from_tuple. rewrite Hdesc, Htype.
    unfold bind, get. rewrite Hcompressed, Hattr.
    by rewrite (proj2 (Z.leb_le _ _) Hcount).
  - intros bs slot Hlen Hslot Hdropped Hlate.
    destruct (compressed_batch_advance_dropped chunk_state bs slot
                (rows_left bs)) as (slot' & ->); [done|done|lia|done|].
    destruct (first_iterator_reporting false _ Hlate)
      as (j & c & it & Hcol & Hit & Hdone & Hbefore).
    destruct (check_columns_done_raise chunk_state
                (state_at bs (rows_left bs) slot') slot' j c it)
      as (bs' & Hraise); [simpl; by rewrite length_fmap|done..|].
    exists bs'.
    rewrite advance_loop_end
      by (apply Z.ltb_ge; unfold rows_left; simpl; lia).
    by apply bind_Raise.
  - intros bs slot k Hlen Hslot Hk Hdropped Hvq Hearly.
    destruct (compressed_batch_advance_dropped chunk_state bs slot k)
      as (slot' & ->); [done|done|lia|done|].
    destruct (first_iterator_reporting true _ Hearly)
      as (j & c & it & Hcol & Hit & Hdone & Hbefore).
    destruct (compressed_batch_make_next_tuple_raise chunk_state
                (state_at bs k slot') slot' j c it)
      as (bs' & Hraise); [simpl; by rewrite length_fmap|done..|].
    exists bs'.
    destruct (rows_left bs - k)%nat as [|fuel] eqn:Hfuel; [lia|].
    rewrite advance_loop_step
      by (apply Z.ltb_lt; unfold rows_left in Hk; simpl; lia).
    change (compressed_batch_vector_qual chunk_state (state_at bs k slot'))
      with (compressed_batch_vector_qual chunk_state (seek k bs)).
    rewrite Hvq. by apply bind_Raise.
  - intros subslot bs bs0 i bs_i e bs' Hprepare Hloop Hi Hraise.
    unfold compressed_batch_set_compressed_tuple.
    rewrite (bind_Ok _ _ _ _ _ Hprepare).
    apply bind_Raise. by apply (for_range_raise i 0 _ _ bs0 bs_i).
  - intros bs slot first_tuple_slot Hlen Hslot Hearly.
    destruct (first_iterator_reporting true _ Hearly)
      as (j & c & it & Hcol & Hit & Hdone & Hbefore).
    destruct (compressed_batch_make_next_tuple_raise chunk_state bs slot j c it)
      as (bs' & Hraise); [done..|].
    exists bs'. unfold compressed_batch_save_first_tuple.
    by apply bind_Raise.
  - intros bs slot first_tuple_slot e bs' Hlen Hslot Hnot_done Hfails Hraise.
    rewrite (compressed_batch_save_first_tuple_materialized _ _ slot)
      by done.
    rewrite Hfails. by apply bind_Raise.
Qed.
End Corruption.

(** ** Rows skipped by the vectorized quals *)

Lemma bind_Raise_inv {A B} (m : Exec A) (k : A -> Exec B) bs e bs' :
  bind m k bs = Raise e bs' ->
  m bs = Raise e bs' \/ exists a bs1, m bs = Ok a bs1 /\ k a bs1 = Raise e bs'.
Proof.
  unfold bind. destruct (m bs) as [a bs1|e1 bs1] eqn:Hm.
  - intros Hk. right. by exists a, bs1.
  - intros [= -> ->]. by left.
Qed.

Lemma preserves_bind {A B X} (part : DecompressBatchState -> X)
    (m : Exec A) (k : A -> Exec B) :
  preserves part m -> (forall a, preserves part (k a)) ->
  preserves part (bind m k).
Proof.
  intros Hm Hk bs. unfold bind. specialize (Hm bs).
  destruct (m bs) as [a bs1|e bs1]; [|done].
  rewrite <- Hm. apply Hk.
Qed.

Lemma preserves_ret {A X} (part : DecompressBatchState -> X) (a : A) :
  preserves part (ret a).
Proof. done. Qed.

Lemma preserves_elog {A X} (part : DecompressBatchState -> X) e :
  preserves part (@elog_ERROR A e).
Proof. done. Qed.

Lemma preserves_get {X} (part : DecompressBatchState -> X) :
  preserves part get.
Proof. done. Qed.

Lemma preserves_modify {X} (part : DecompressBatchState -> X) f :
  (forall bs, part (f bs) = part bs) -> preserves part (modify f).
Proof. intros Hf bs. apply Hf. Qed.

Lemma preserves_Ensure {X} (part : DecompressBatchState -> X) cond e :
  preserves part (Ensure cond e).
Proof. by destruct cond. Qed.

Lemma preserves_column_at {X} (part : DecompressBatchState -> X) i :
  preserves part (column_at i).
Proof. intros bs. unfold column_at. by destruct (_ !! i). Qed.

Lemma preserves_scan_slot {X} (part : DecompressBatchState -> X) :
  preserves part scan_slot.
Proof. intros bs. unfold scan_slot. by destruct (decompressed_scan_slot bs). Qed.

Lemma preserves_for_range {X} (part : DecompressBatchState -> X) count :
  forall first body,
    (forall i, preserves part (body i)) ->
    preserves part (for_range first count body).
Proof.
  induction count as [|count IH]; intros first body Hbody; [done|].
  apply preserves_bind; [apply Hbody|]. intros _. by apply IH.
Qed.

Lemma preserves_foreach {A X} (part : DecompressBatchState -> X)
    (l : list A) body :
  (forall x, preserves part (body x)) -> preserves part (foreach l body).
Proof.
  intros Hbody. induction l as [|x l IH]; [done|].
  apply preserves_bind; [apply Hbody|]. by intros _.
Qed.

Create HintDb preserves.
#[local] Hint Resolve preserves_ret preserves_elog preserves_get
  preserves_Ensure preserves_column_at preserves_scan_slot : preserves.

(** Step through a computation whose parts preserve a part of the state. *)
Ltac preserves_step :=
  match goal with
  | |- preserves _ (bind _ _) => apply preserves_bind; [|intros ?]
  | |- preserves _ (for_range _ _ _) => apply preserves_for_range; intros ?
  | |- preserves _ (foreach _ _) => apply preserves_foreach; intros ?
  | |- preserves _ (modify _) => apply preserves_modify; intros ?; reflexivity
  | |- preserves _ (match ?x with _ => _ end) => destruct x
  | |- preserves _ (let '(_, _) := ?x in _) => destruct x
  | |- preserves _ _ => solve [auto with preserves]
  end.

Ltac preserves_solve := repeat preserves_step.

Lemma preserves_cursor_update_scan_slot f :
  preserves cursor_of (update_scan_slot f).
Proof. unfold update_scan_slot. preserves_solve. Qed.

Lemma preserves_cursor_skip_column i : preserves cursor_of (skip_column i).
Proof. unfold skip_column, iterator_try_next, set_column. preserves_solve. Qed.

Lemma preserves_cursor_check_column_done i :
  preserves cursor_of (check_column_done i).
Proof.
  unfold check_column_done, iterator_try_next, set_column. preserves_solve.
Qed.

Lemma preserves_cursor_make_next_column arrow_row i :
  preserves cursor_of (make_next_column arrow_row i).
Proof.
  unfold make_next_column, iterator_try_next, set_column, update_scan_slot.
  preserves_solve.
Qed.

Lemma preserves_cursor_make_next_tuple chunk_state :
  preserves cursor_of (compressed_batch_make_next_tuple chunk_state).
Proof.
  unfold compressed_batch_make_next_tuple.
  apply preserves_bind; [auto with preserves|]. intros bs.
  apply preserves_bind.
  - apply preserves_for_range, preserves_cursor_make_next_column.
  - intros _. unfold update_scan_slot. preserves_solve.
Qed.

Lemma preserves_cursor_postgres_qual chunk_state :
  preserves cursor_of (compressed_batch_postgres_qual chunk_state).
Proof. unfold compressed_batch_postgres_qual. preserves_solve. Qed.

Lemma cursor_of_vector_qual chunk_state bs bs' :
  cursor_of bs' = cursor_of bs ->
  compressed_batch_vector_qual chunk_state bs'
  = compressed_batch_vector_qual chunk_state bs.
Proof.
  intros [= Hn Ht Hv].
  unfold compressed_batch_vector_qual, arrow_row_of. by rewrite Hn, Ht, Hv.
Qed.

Lemma raises_no_error_bind {A B} (m : Exec A) (k : A -> Exec B) :
  raises_no_error m -> (forall a, raises_no_error (k a)) ->
  raises_no_error (bind m k).
Proof.
  intros Hm Hk bs e bs' [Hr|(a & bs1 & _ & Hr)]%bind_Raise_inv.
  - by apply (Hm _ _ _ Hr).
  - by apply (Hk _ _ _ _ Hr).
Qed.

Lemma raises_no_error_skip_column i : raises_no_error (skip_column i).
Proof.
  apply raises_no_error_bind.
  - intros bs e bs'. unfold column_at. destruct (_ !! i); [done|]. by intros [= <- _].
  - intros c. destruct (iterator c); [|done].
    apply raises_no_error_bind; done.
Qed.

Lemma raises_no_error_for_range count : forall first body,
  (forall i, raises_no_error (body i)) ->
  raises_no_error (for_range first count body).
Proof.
  induction count as [|count IH]; intros first body Hbody; [done|].
  apply raises_no_error_bind; [apply Hbody|]. intros _. by apply IH.
Qed.

(** An error about a column out of sync leaves [advance_loop] at a row that
    is being materialized or at the end of the batch. *)
Lemma advance_loop_out_of_sync chunk_state fuel : forall bs bs',
  advance_loop fuel chunk_state bs = Raise compressed_column_out_of_sync bs' ->
  total_batch_rows bs' = total_batch_rows bs
  /\ (next_batch_row bs' < total_batch_rows bs'
      /\ compressed_batch_vector_qual chunk_state bs' = true
      \/ total_batch_rows bs' <= next_batch_row bs').
Proof.
  induction fuel as [|fuel IH]; intros bs bs'.
  - destruct (next_batch_row bs <? total_batch_rows bs) eqn:Hcur.
    + simpl. unfold bind, get. by rewrite Hcur.
    + rewrite advance_loop_end by done.
      intros [Hr|(a & bs1 & _ & Hr)]%bind_Raise_inv.
      * pose proof (preserves_for_range cursor_of
                      (num_compressed_columns chunk_state) 0 _
                      preserves_cursor_check_column_done bs) as Hsame.
        rewrite Hr in Hsame. injection Hsame as Hn Ht _. simpl in *.
        split; [done|]. right. apply Z.ltb_ge in Hcur. lia.
      * unfold update_scan_slot, scan_slot, bind in Hr.
        by destruct (decompressed_scan_slot bs1).
  - destruct (next_batch_row bs <? total_batch_rows bs) eqn:Hcur.
    + rewrite advance_loop_step by done.
      assert (Hincr : forall s s',
        bind next_batch_row_incr (fun _ => advance_loop fuel chunk_state) s
        = Raise compressed_column_out_of_sync s' ->
        total_batch_rows s' = total_batch_rows s
        /\ (next_batch_row s' < total_batch_rows s'
            /\ compressed_batch_vector_qual chunk_state s' = true
            \/ total_batch_rows s' <= next_batch_row s')).
      { intros s s' Hr. apply IH in Hr. apply Hr. }
      destruct (compressed_batch_vector_qual chunk_state bs) eqn:Hvq.
      * intros [Hr|([] & bs1 & Hm & Hr)]%bind_Raise_inv.
        -- pose proof (preserves_cursor_make_next_tuple chunk_state bs) as Hsame.
           rewrite Hr in Hsame. simpl in Hsame.
           rewrite (cursor_of_vector_qual _ _ _ Hsame).
           injection Hsame as Hn Ht _. split; [done|]. left.
           apply Z.ltb_lt in Hcur. split; [lia|done].
        -- pose proof (preserves_cursor_make_next_tuple chunk_state bs) as Hsame.
           rewrite Hm in Hsame. injection Hsame as _ Ht _. simpl in Ht.
           rewrite <- Ht.
           apply bind_Raise_inv in Hr as [Hr|(passed & bs2 & Hq & Hr)].
           ++ unfold compressed_batch_postgres_qual in Hr.
              destruct (qual chunk_state); [|done].
              unfold bind, scan_slot in Hr.
              by destruct (decompressed_scan_slot bs1).
           ++ pose proof (preserves_cursor_postgres_qual chunk_state bs1) as Hsame.
              rewrite Hq in Hsame. injection Hsame as _ Ht2 _. simpl in Ht2.
              rewrite <- Ht2. destruct passed; [done|]. by apply Hincr.
      * intros [Hr|([] & bs1 & Hm & Hr)]%bind_Raise_inv.
        -- by apply (raises_no_error_for_range _ 0 _ raises_no_error_skip_column)
             in Hr.
        -- pose proof (preserves_for_range cursor_of
                         (num_compressed_columns chunk_state) 0 _
                         preserves_cursor_skip_column bs) as Hsame.
           rewrite Hm in Hsame. injection Hsame as _ Ht _. simpl in Ht.
           rewrite <- Ht. by apply Hincr.
    + rewrite advance_loop_end by done.
      intros [Hr|(a & bs1 & _ & Hr)]%bind_Raise_inv.
      * pose proof (preserves_for_range cursor_of
                      (num_compressed_columns chunk_state) 0 _
                      preserves_cursor_check_column_done bs) as Hsame.
        rewrite Hr in Hsame. injection Hsame as Hn Ht _. simpl in *.
        split; [done|]. right. apply Z.ltb_ge in Hcur. lia.
      * unfold update_scan_slot, scan_slot, bind in Hr.
        by destruct (decompressed_scan_slot bs1).
Qed.

(** C10, as amended: on a row that the bitmap of the vectorized quals
    excludes, every iterator is pulled once and the result is dropped,
    whatever it is: no error is raised there, also when an iterator has
    already ended, and the loop goes on with the next row.  An error about a
    column out of sync can only leave [compressed_batch_advance] at a row
    that is being materialized or at the end of the batch. *)
Theorem skipped_row_drops_iterator_results chunk_state bs slot :
  length (compressed_columns bs) = num_compressed_columns chunk_state ->
  decompressed_scan_slot bs = Some slot ->
  for_range 0 (num_compressed_columns chunk_state) skip_column bs
  = Ok tt (with_progress (next_batch_row bs)
             (pull_n 1 <$> compressed_columns bs) slot bs)
  /\ (next_batch_row bs < total_batch_rows bs ->
      compressed_batch_vector_qual chunk_state bs = false ->
      compressed_batch_advance chunk_state bs
      = compressed_batch_advance chunk_state
          (with_progress (next_batch_row bs + 1)
             (pull_n 1 <$> compressed_columns bs) slot bs))
  /\ (forall bs',
        compressed_batch_advance chunk_state bs
        = Raise compressed_column_out_of_sync bs' ->
        total_batch_rows bs' = total_batch_rows bs
        /\ (next_batch_row bs' < total_batch_rows bs'
            /\ compressed_batch_vector_qual chunk_state bs' = true
            \/ total_batch_rows bs' <= next_batch_row bs')).
Proof.
  intros Hlen Hslot. split_and!.
  - by apply skip_columns_ok.
  - intros Hcur Hvq. unfold compressed_batch_advance. rewrite !bind_get_run.
    cbn [total_batch_rows next_batch_row with_progress].
    destruct (Z.to_nat (total_batch_rows bs - next_batch_row bs))
      as [|fuel] eqn:Hfuel; [lia|].
    rewrite advance_loop_step by (apply Z.ltb_lt; lia).
    rewrite Hvq.
    rewrite (bind_Ok _ _ _ _ _ (skip_columns_ok chunk_state bs slot Hlen Hslot)).
    unfold bind at 1, next_batch_row_incr at 1, modify at 1.
    replace (Z.to_nat (total_batch_rows bs - (next_batch_row bs + 1)))
      with fuel by lia.
    done.
  - intros bs'. unfold compressed_batch_advance. rewrite bind_get_run.
    apply advance_loop_out_of_sync.
Qed.

(** C10, as it is stated, fails: in the small batch with one value in the
    iterated column and only row 0 in the bitmap, row 1 is skipped while the
    iterator has already ended, and the batch is exhausted without an
    error. *)
Lemma ended_iterator_at_skipped_row_is_not_reported :
  compressed_batch_vector_qual (example_chunk [] None)
    (seek 1 (example_batch (Some [1]) [(10, false)])) = false
  /\ (exists column_values it,
        compressed_columns (example_batch (Some [1]) [(10, false)]) !! 1%nat
        = Some column_values
        /\ iterator column_values = Some it
        /\ is_done (results it (1 + pulls it)) = true)
  /\ exists rows bs',
       advance_to_exhaustion (example_chunk [] None)
         (example_batch (Some [1]) [(10, false)]) = Ok rows bs'
       /\ length rows = 1%nat
       /\ next_batch_row bs' = 3.
Proof.
  split_and!.
  - reflexivity.
  - eexists _, _. split_and!; reflexivity.
  - eexists _, _. split_and!; [vm_compute; reflexivity|reflexivity..].
Qed.

(** ** Reusing a batch state *)

Lemma outcomes_agree_bind {A B} (R R' : DecompressBatchState -> DecompressBatchState -> Prop)
    (m1 m2 : Exec A) (k1 k2 : A -> Exec B) bs1 bs2 :
  outcomes_agree R (m1 bs1) (m2 bs2) ->
  (forall a s1 s2, R s1 s2 -> outcomes_agree R' (k1 a s1) (k2 a s2)) ->
  outcomes_agree R' (bind m1 k1 bs1) (bind m2 k2 bs2).
Proof.
  intros Hm Hk. unfold bind.
  destruct (m1 bs1) as [a1 s1|e1 s1], (m2 bs2) as [a2 s2|e2 s2]; simpl in *;
    try done.
  destruct Hm as [<- HR]. by apply Hk.
Qed.

Lemma outcomes_agree_for_range
    (R : nat -> DecompressBatchState -> DecompressBatchState -> Prop)
    count : forall first body bs1 bs2,
  R first bs1 bs2 ->
  (forall i s1 s2, (first <= i < first + count)%nat -> R i s1 s2 ->
     outcomes_agree (R (S i)) (body i s1) (body i s2)) ->
  outcomes_agree (R (first + count)%nat)
    (for_range first count body bs1) (for_range first count body bs2).
Proof.
  induction count as [|count IH]; intros first body bs1 bs2 HR Hbody.
  - simpl. rewrite Nat.add_0_r. done.
  - simpl. apply (outcomes_agree_bind (R (S first))).
    + apply Hbody; [lia|done].
    + intros _ s1 s2 HR'.
      replace (first + S count)%nat with (S first + count)%nat by lia.
      apply IH; [done|]. intros i s1' s2' Hi. apply Hbody. lia.
Qed.

Lemma agree_from_set_column quals n i c bs1 bs2 :
  agree_from quals n i bs1 bs2 ->
  agree_from quals n (S i) (with_compressed_columns (<[i := c]> (compressed_columns bs1)) bs1)
                   (with_compressed_columns (<[i := c]> (compressed_columns bs2)) bs2).
Proof.
  intros (Hc & Hd & Ht & Hn & Hp & Hl & Hq & Hlen1 & Hlen2 & Htake).
  split_and!; simpl; try done.
  - by rewrite length_insert.
  - by rewrite length_insert.
  - destruct (decide (i < n)%nat) as [Hlt|Hge].
    + erewrite !take_S_r by (apply list_lookup_insert_eq; lia).
      by rewrite !take_insert_ge, Htake by lia.
    + rewrite !list_insert_ge by lia.
      rewrite !firstn_all2 in Htake |- * by lia. done.
Qed.

Lemma agree_from_weaken quals n i bs1 bs2 :
  agree_from quals n (S i) bs1 bs2 -> agree_from quals n i bs1 bs2.
Proof.
  intros (Hc & Hd & Ht & Hn & Hp & Hl & Hq & Hlen1 & Hlen2 & Htake).
  split_and!; try done.
  apply (f_equal (take i)) in Htake. by rewrite !take_take, Nat.min_l in Htake by lia.
Qed.

Lemma agree_from_all quals n i bs1 bs2 :
  agree_from quals n i bs1 bs2 -> (length (compressed_columns bs1) <= i)%nat ->
  forall j, agree_from quals n j bs1 bs2.
Proof.
  intros (Hc & Hd & Ht & Hn & Hp & Hl & Hq & Hlen1 & Hlen2 & Htake) Hi j.
  split_and!; try done.
  rewrite !firstn_all2 in Htake by lia. by rewrite Htake.
Qed.

Ltac agree_from_solve :=
  match goal with
  | H : agree_from _ _ _ _ _ |- agree_from _ _ _ _ _ =>
      destruct H as (? & ? & ? & ? & ? & ? & ? & ? & ? & ?);
      split_and!; simpl; first [congruence | assumption]
  end.

Section Reuse.
Context `{Collaborators}.

Lemma update_scan_slot_agree quals n i f s1 s2 :
  agree_from quals n i s1 s2 ->
  outcomes_agree (agree_from quals n i) (update_scan_slot f s1) (update_scan_slot f s2).
Proof.
  intros Hagree. pose proof Hagree as (_ & Hd & _).
  unfold update_scan_slot, scan_slot, bind, modify. rewrite Hd.
  destruct (decompressed_scan_slot s2); simpl; [|done].
  split; [done|]. agree_from_solve.
Qed.

Lemma set_compressed_column_agree quals n chunk_state i column_description s1 s2 :
  agree_from quals n i s1 s2 ->
  outcomes_agree (agree_from quals n (S i))
    (set_compressed_column chunk_state i column_description s1)
    (set_compressed_column chunk_state i column_description s2).
Proof.
  intros Hagree. unfold set_compressed_column.
  assert (Hlookup :
    (exists c1 c2, column_at i s1 = Ok c1 s1 /\ column_at i s2 = Ok c2 s2)
    \/ (column_at i s1 = Raise undefined_behaviour s1
        /\ column_at i s2 = Raise undefined_behaviour s2)).
  { pose proof Hagree as (_ & _ & _ & _ & _ & _ & _ & Hlen1 & Hlen2 & _).
    unfold column_at.
    destruct (compressed_columns s1 !! i) as [c1|] eqn:Hc1,
             (compressed_columns s2 !! i) as [c2|] eqn:Hc2.
    - left. by exists c1, c2.
    - apply lookup_lt_Some in Hc1. apply lookup_ge_None in Hc2. lia.
    - apply lookup_lt_Some in Hc2. apply lookup_ge_None in Hc1. lia.
    - by right. }
  destruct Hlookup as [(c1 & c2 & H1 & H2)|[H1 H2]].
  2:{ by rewrite (bind_Raise _ _ _ _ _ H1), (bind_Raise _ _ _ _ _ H2). }
  rewrite (bind_Ok _ _ _ _ _ H1), (bind_Ok _ _ _ _ _ H2).
  revert Hagree. generalize s1 s2. clear. intros s1 s2 Hagree.
  apply (outcomes_agree_bind (agree_from quals n (S i))).
  { split; [done|]. by apply agree_from_set_column. }
  clear s1 s2 Hagree. intros _ s1 s2 Hagree.
  pose proof Hagree as (Hc & Hd & Ht & Hn & Hp & Hl & Hq & Hlen1 & Hlen2 & Htake).
  rewrite !bind_get_run. rewrite Hc, Ht.
  destruct (compressed_slot s2) as [compressed|]; [|done].
  destruct (slot_getattr compressed _) as [value isnull].
  destruct isnull.
  { by apply update_scan_slot_agree. }
  destruct (if _ && _ then _ else None) as [arrow_array|].
  - apply (outcomes_agree_bind (agree_from quals n (S i))).
    + destruct (total_batch_rows s2 =? 0).
      * split; [done|]. agree_from_solve.
      * destruct (negb _); [done|]. by split.
    + intros _ t1 t2 Hs. split; [done|].
      apply agree_from_set_column. by apply agree_from_weaken.
  - split; [done|].
    apply agree_from_set_column. by apply agree_from_weaken.
Qed.

Lemma set_column_from_tuple_agree quals n chunk_state i s1 s2 :
  agree_from quals n i s1 s2 ->
  (forall column_description,
      template_columns chunk_state !! i = Some column_description ->
      type column_description <> COMPRESSED_COLUMN ->
      (length (compressed_columns s1) <= i)%nat) ->
  outcomes_agree (agree_from quals n (S i))
    (set_column_from_tuple chunk_state i s1)
    (set_column_from_tuple chunk_state i s2).
Proof.
  intros Hagree Hbeyond.
  pose proof Hagree as (Hc & Hd & Ht & Hn & Hp & Hl & Hq & Hlen1 & Hlen2 & Htake).
  unfold set_column_from_tuple.
  destruct (template_columns chunk_state !! i) as [d|] eqn:Hdesc; [|done].
  destruct (type d) eqn:Htype.
  - assert (Hall : forall j, agree_from quals n j s1 s2)
      by (apply (agree_from_all quals n i); [done|apply (Hbeyond d); [done|by rewrite Htype]]).
    rewrite !bind_get_run. rewrite Hc.
    destruct (compressed_slot s2) as [compressed|]; [|done].
    destruct (slot_getattr compressed _) as [value isnull].
    by apply update_scan_slot_agree.
  - by apply set_compressed_column_agree.
  - assert (Hall : forall j, agree_from quals n j s1 s2)
      by (apply (agree_from_all quals n i); [done|apply (Hbeyond d); [done|by rewrite Htype]]).
    rewrite !bind_get_run. rewrite Hc, Ht.
    destruct (compressed_slot s2) as [compressed|]; [|done].
    destruct (slot_getattr compressed _) as [value isnull].
    destruct (_ <=? 0); [done|].
    destruct (total_batch_rows s2 =? 0).
    + split; [done|]. specialize (Hall (S i)). agree_from_solve.
    + destruct (negb _); [done|]. by split.
  - assert (Hall : forall j, agree_from quals n j s1 s2)
      by (apply (agree_from_all quals n i); [done|apply (Hbeyond d); [done|by rewrite Htype]]).
    by split.
Qed.

Lemma outcomes_agree_refl {A} (out : outcome A) : outcomes_agree eq out out.
Proof. by destruct out. Qed.

Lemma agree_from_eq quals n i bs1 bs2 :
  agree_from quals n i bs1 bs2 -> (n <= i)%nat ->
  vector_qual_result bs1 = vector_qual_result bs2 ->
  bs1 = bs2.
Proof.
  intros (Hc & Hd & Ht & Hn & Hp & Hl & Hq & Hlen1 & Hlen2 & Htake) Hi Hv.
  rewrite !firstn_all2 in Htake by lia.
  destruct bs1, bs2; simpl in *; by subst.
Qed.

Lemma apply_vector_quals_agree chunk_state n i s1 s2 :
  agree_from (vectorized_quals chunk_state <> []) n i s1 s2 ->
  (n <= i)%nat ->
  outcomes_agree eq (apply_vector_quals chunk_state s1)
                    (apply_vector_quals chunk_state s2).
Proof.
  intros Hagree Hi. unfold apply_vector_quals.
  destruct (vectorized_quals chunk_state) as [|oe quals] eqn:Hquals.
  - pose proof Hagree as (_ & _ & _ & _ & _ & _ & [?|Hv] & _); [done|].
    split; [done|]. by eapply agree_from_eq.
  - cbn [is_NIL]. rewrite !bind_get_run.
    pose proof Hagree as (_ & _ & Ht & _). rewrite Ht.
    unfold palloc_size. destruct (_ <=? MaxAllocSize); [|done].
    unfold palloc. rewrite !bind_modify.
    match goal with
    | |- outcomes_agree _ (_ ?x1) (_ ?x2) =>
        replace x1 with x2; [apply outcomes_agree_refl|]
    end.
    symmetry. apply (agree_from_eq True n i); [|done..].
    destruct Hagree as (? & ? & ? & ? & ? & ? & ? & ? & ? & ?).
    split_and!; simpl; first [congruence | by left | done].
Qed.

Lemma prepare_batch_state_used chunk_state subslot bs compressed :
  is_Some (per_batch_context bs) ->
  compressed_slot bs = Some compressed ->
  prepare_batch_state chunk_state subslot bs
  = Ok tt (with_per_batch_context (Some [])
             (with_next_batch_row 0
                (with_total_batch_rows 0
                   (with_compressed_slot
                      (Some (ExecCopySlot compressed subslot)) bs)))).
Proof.
  intros [context Hcontext] Hcompressed. unfold prepare_batch_state.
  rewrite bind_get_run, Hcontext. cbn [is_NULL].
  unfold bind at 1, ret at 1. rewrite bind_get_run, Hcompressed.
  done.
Qed.

Lemma preserves_next_update_scan_slot f :
  preserves next_batch_row (update_scan_slot f).
Proof. unfold update_scan_slot. preserves_solve. Qed.

Lemma preserves_next_set_column_from_tuple chunk_state i :
  preserves next_batch_row (set_column_from_tuple chunk_state i).
Proof.
  unfold set_column_from_tuple, set_compressed_column, set_column,
    update_scan_slot.
  preserves_solve.
Qed.

Lemma preserves_next_apply_vector_quals chunk_state :
  preserves next_batch_row (apply_vector_quals chunk_state).
Proof.
  unfold apply_vector_quals, apply_vector_qual, make_single_value_arrow,
    call_predicate, palloc_size, palloc.
  preserves_solve.
Qed.

(** Two batch states that agree on what outlives a batch end up in the
    same state, or with the same error, when the same tuple is loaded into
    them. *)
Lemma loading_same_state chunk_state subslot bs1 bs2 :
  same_persistent bs1 bs2 ->
  (length (compressed_columns bs1) <= num_total_columns chunk_state)%nat ->
  (forall i column_description,
      template_columns chunk_state !! i = Some column_description ->
      type column_description <> COMPRESSED_COLUMN ->
      (length (compressed_columns bs1) <= i)%nat) ->
  vectorized_quals chunk_state <> []
  \/ vector_qual_result bs1 = vector_qual_result bs2 ->
  outcomes_agree eq
    (compressed_batch_set_compressed_tuple chunk_state subslot bs1)
    (compressed_batch_set_compressed_tuple chunk_state subslot bs2).
Proof.
  intros (Hslot & (c1 & c2 & Hc1 & Hc2 & Hdesc) & Hlen & Hcalls & Hused1 & Hused2)
         Hcount Hlayout Hbitmap.
  unfold compressed_batch_set_compressed_tuple.
  rewrite (bind_Ok _ _ _ _ _
             (prepare_batch_state_used chunk_state subslot bs1 c1 Hused1 Hc1)).
  rewrite (bind_Ok _ _ _ _ _
             (prepare_batch_state_used chunk_state subslot bs2 c2 Hused2 Hc2)).
  apply (outcomes_agree_bind
           (agree_from (vectorized_quals chunk_state <> [])
              (length (compressed_columns bs1))
              (0 + num_total_columns chunk_state))).
  - apply (outcomes_agree_for_range
             (agree_from (vectorized_quals chunk_state <> [])
                (length (compressed_columns bs1)))).
    + split_and!; simpl; try done.
      unfold ExecCopySlot. by rewrite Hdesc.
    + intros i s1 s2 _ Hagree. apply set_column_from_tuple_agree; [done|].
      intros d Hd Htype.
      destruct Hagree as (_ & _ & _ & _ & _ & _ & _ & -> & _).
      by apply (Hlayout i d).
  - intros _ s1 s2 Hagree.
    by apply (apply_vector_quals_agree _ _ _ _ _ Hagree).
Qed.

(** The cursor of a batch that has just been loaded is 0. *)
Lemma loading_resets_cursor chunk_state subslot bs compressed bs' :
  is_Some (per_batch_context bs) ->
  compressed_slot bs = Some compressed ->
  compressed_batch_set_compressed_tuple chunk_state subslot bs = Ok tt bs' ->
  next_batch_row bs' = 0.
Proof.
  intros Hused Hcompressed Hrun.
  assert (Hnext : preserves next_batch_row
    (bind (for_range 0 (num_total_columns chunk_state)
             (set_column_from_tuple chunk_state))
          (fun _ => apply_vector_quals chunk_state))).
  { apply preserves_bind.
    - apply preserves_for_range. intros i.
      apply preserves_next_set_column_from_tuple.
    - intros _. apply preserves_next_apply_vector_quals. }
  unfold compressed_batch_set_compressed_tuple in Hrun.
  rewrite (bind_Ok _ _ _ _ _
             (prepare_batch_state_used chunk_state subslot bs compressed
                Hused Hcompressed)) in Hrun.
  specialize (Hnext (with_per_batch_context (Some [])
    (with_next_batch_row 0 (with_total_batch_rows 0
       (with_compressed_slot (Some (ExecCopySlot compressed subslot)) bs))))).
  rewrite Hrun in Hnext. exact Hnext.
Qed.
End Reuse.

(** ** The loops end within their fuel *)

Lemma bind_Ok_inv {A B} (m : Exec A) (k : A -> Exec B) bs b bs' :
  bind m k bs = Ok b bs' ->
  exists a bs1, m bs = Ok a bs1 /\ k a bs1 = Ok b bs'.
Proof.
  unfold bind. destruct (m bs) as [a bs1|e bs1]; [|done].
  intros Hk. by exists a, bs1.
Qed.

Lemma never_raises_bind {A B} e (m : Exec A) (k : A -> Exec B) :
  never_raises e m -> (forall a, never_raises e (k a)) ->
  never_raises e (bind m k).
Proof.
  intros Hm Hk bs e' bs' [Hr|(a & bs1 & _ & Hr)]%bind_Raise_inv.
  - by apply (Hm _ _ _ Hr).
  - by apply (Hk _ _ _ _ Hr).
Qed.

Lemma never_raises_ret {A} e (a : A) : never_raises e (ret a).
Proof. done. Qed.

Lemma never_raises_get e : never_raises e get.
Proof. done. Qed.

Lemma never_raises_modify e f : never_raises e (modify f).
Proof. done. Qed.

Lemma never_raises_elog {A} e e' :
  e' <> e -> never_raises e (@elog_ERROR A e').
Proof. by intros Hne bs e1 bs' [= <- _]. Qed.

Lemma never_raises_for_range e count : forall first body,
  (forall i, never_raises e (body i)) ->
  never_raises e (for_range first count body).
Proof.
  induction count as [|count IH]; intros first body Hbody; [done|].
  apply never_raises_bind; [apply Hbody|]. intros _. by apply IH.
Qed.

(** Step through a computation none of whose parts raises the error. *)
Ltac never_raises_step :=
  match goal with
  | |- never_raises _ (bind _ _) => apply never_raises_bind; [|intros ?]
  | |- never_raises _ (for_range _ _ _) =>
      apply never_raises_for_range; intros ?
  | |- never_raises _ (ret _) => apply never_raises_ret
  | |- never_raises _ get => apply never_raises_get
  | |- never_raises _ (modify _) => apply never_raises_modify
  | |- never_raises _ (elog_ERROR _) => by apply never_raises_elog
  | |- never_raises _ (match ?x with _ => _ end) => destruct x
  | |- never_raises _ (let '(_, _) := ?x in _) => destruct x
  end.

Ltac never_raises_solve := repeat never_raises_step.

Lemma never_raises_column_at e i :
  undefined_behaviour <> e -> never_raises e (column_at i).
Proof.
  intros Hne bs e' bs'. unfold column_at.
  destruct (_ !! i); [done|]. by intros [= <- _].
Qed.

Lemma never_raises_scan_slot e :
  undefined_behaviour <> e -> never_raises e scan_slot.
Proof.
  intros Hne bs e' bs'. unfold scan_slot.
  destruct (decompressed_scan_slot bs); [done|]. by intros [= <- _].
Qed.

Lemma never_raises_update_scan_slot e f :
  undefined_behaviour <> e -> never_raises e (update_scan_slot f).
Proof.
  intros Hne. unfold update_scan_slot.
  apply never_raises_bind; [by apply never_raises_scan_slot|].
  intros slot. apply never_raises_modify.
Qed.

Lemma skip_column_fuel i : never_raises loop_fuel_exhausted (skip_column i).
Proof.
  unfold skip_column, iterator_try_next, set_column.
  apply never_raises_bind; [by apply never_raises_column_at|].
  intros column_values. never_raises_solve.
Qed.

Lemma check_column_done_fuel i :
  never_raises loop_fuel_exhausted (check_column_done i).
Proof.
  unfold check_column_done, iterator_try_next, set_column.
  apply never_raises_bind; [by apply never_raises_column_at|].
  intros column_values. never_raises_solve.
Qed.

Lemma make_next_column_fuel arrow_row i :
  never_raises loop_fuel_exhausted (make_next_column arrow_row i).
Proof.
  unfold make_next_column, iterator_try_next, set_column.
  apply never_raises_bind; [by apply never_raises_column_at|].
  intros column_values.
  destruct (iterator column_values) as [it|].
  - apply never_raises_bind; [never_raises_solve|]. intros result.
    destruct (is_done result); [never_raises_solve|].
    by apply never_raises_update_scan_slot.
  - destruct (arrow_values column_values); [|never_raises_solve].
    by apply never_raises_update_scan_slot.
Qed.

Lemma compressed_batch_make_next_tuple_fuel chunk_state :
  never_raises loop_fuel_exhausted
    (compressed_batch_make_next_tuple chunk_state).
Proof.
  unfold compressed_batch_make_next_tuple.
  apply never_raises_bind; [apply never_raises_get|]. intros batch_state.
  apply never_raises_bind.
  - apply never_raises_for_range, make_next_column_fuel.
  - intros _. apply never_raises_bind; [by apply never_raises_scan_slot|].
    intros slot. destruct (tts_empty slot); [|never_raises_solve].
    by apply never_raises_update_scan_slot.
Qed.

Lemma compressed_batch_postgres_qual_fuel chunk_state :
  never_raises loop_fuel_exhausted
    (compressed_batch_postgres_qual chunk_state).
Proof.
  unfold compressed_batch_postgres_qual.
  destruct (qual chunk_state); [|never_raises_solve].
  apply never_raises_bind; [by apply never_raises_scan_slot|].
  intros slot. never_raises_solve.
Qed.

(** The cursor after the part of an iteration that precedes the
    increment. *)
Lemma rows_left_preserved {A} (m : Exec A) bs a bs1 :
  preserves cursor_of m -> m bs = Ok a bs1 ->
  next_batch_row bs1 = next_batch_row bs
  /\ total_batch_rows bs1 = total_batch_rows bs.
Proof.
  intros Hm Hrun. specialize (Hm bs). rewrite Hrun in Hm.
  by injection Hm as -> -> _.
Qed.

(** [advance_loop] does not run out of fuel when it is given one unit for
    each row that is left. *)
Lemma advance_loop_fuel chunk_state fuel : forall bs,
  (rows_left bs <= fuel)%nat ->
  forall e bs', advance_loop fuel chunk_state bs = Raise e bs' ->
                e <> loop_fuel_exhausted.
Proof.
  assert (Hend : forall fuel bs e bs',
    (next_batch_row bs <? total_batch_rows bs) = false ->
    advance_loop fuel chunk_state bs = Raise e bs' ->
    e <> loop_fuel_exhausted).
  { intros fuel' bs e bs' Hcur. rewrite advance_loop_end by done.
    apply never_raises_bind.
    - apply never_raises_for_range, check_column_done_fuel.
    - intros _. by apply never_raises_update_scan_slot. }
  induction fuel as [|fuel IH]; intros bs Hfuel e bs'.
  - destruct (next_batch_row bs <? total_batch_rows bs) eqn:Hcur;
      [|by apply Hend].
    apply Z.ltb_lt in Hcur. unfold rows_left in Hfuel. lia.
  - destruct (next_batch_row bs <? total_batch_rows bs) eqn:Hcur;
      [|by apply Hend].
    rewrite advance_loop_step by done.
    assert (Hincr : forall s e bs',
      next_batch_row s = next_batch_row bs ->
      total_batch_rows s = total_batch_rows bs ->
      bind next_batch_row_incr (fun _ => advance_loop fuel chunk_state) s
      = Raise e bs' ->
      e <> loop_fuel_exhausted).
    { intros s e1 s' Hn Ht. unfold bind, next_batch_row_incr, modify.
      apply IH. unfold rows_left in *. simpl. rewrite Hn, Ht.
      apply Z.ltb_lt in Hcur. lia. }
    destruct (compressed_batch_vector_qual chunk_state bs).
    + intros [Hr|([] & bs1 & Hm & Hr)]%bind_Raise_inv.
      * by apply compressed_batch_make_next_tuple_fuel in Hr.
      * destruct (rows_left_preserved _ _ _ _
                    (preserves_cursor_make_next_tuple chunk_state) Hm)
          as [Hn1 Ht1].
        apply bind_Raise_inv in Hr as [Hr|(passed & bs2 & Hq & Hr)].
        -- by apply compressed_batch_postgres_qual_fuel in Hr.
        -- destruct (rows_left_preserved _ _ _ _
                       (preserves_cursor_postgres_qual chunk_state) Hq)
             as [Hn2 Ht2].
           destruct passed; [done|].
           apply (Hincr bs2 e bs'); [congruence..|done].
    + intros [Hr|([] & bs1 & Hm & Hr)]%bind_Raise_inv.
      * by apply (never_raises_for_range _ _ 0 _ skip_column_fuel) in Hr.
      * destruct (rows_left_preserved _ _ _ _
                    (preserves_for_range cursor_of
                       (num_compressed_columns chunk_state) 0 _
                       preserves_cursor_skip_column) Hm) as [Hn1 Ht1].
        by apply (Hincr bs1 e bs').
Qed.

(** The fuel that [compressed_batch_advance] gives to its loop is enough,
    whatever the batch state is. *)
Lemma compressed_batch_advance_fuel chunk_state :
  never_raises loop_fuel_exhausted (compressed_batch_advance chunk_state).
Proof.
  intros bs e bs'. unfold compressed_batch_advance. rewrite bind_get_run.
  by apply advance_loop_fuel.
Qed.

Lemma update_scan_slot_Ok f bs bs' :
  update_scan_slot f bs = Ok tt bs' ->
  exists slot,
    decompressed_scan_slot bs = Some slot
    /\ bs' = with_decompressed_scan_slot (Some (f slot)) bs.
Proof.
  unfold update_scan_slot, scan_slot, bind, modify.
  destruct (decompressed_scan_slot bs) as [slot|]; [|done].
  intros [= <-]. by exists slot.
Qed.

(** When [advance_loop] returns, the output slot is empty or the cursor has
    moved on, and not past the end of the batch. *)
Lemma advance_loop_returns chunk_state fuel : forall bs bs',
  advance_loop fuel chunk_state bs = Ok tt bs' ->
  total_batch_rows bs' = total_batch_rows bs
  /\ (TupIsNull (decompressed_scan_slot bs') = true
      \/ next_batch_row bs < next_batch_row bs' <= total_batch_rows bs).
Proof.
  assert (Hend : forall fuel bs bs',
    (next_batch_row bs <? total_batch_rows bs) = false ->
    advance_loop fuel chunk_state bs = Ok tt bs' ->
    total_batch_rows bs' = total_batch_rows bs
    /\ (TupIsNull (decompressed_scan_slot bs') = true
        \/ next_batch_row bs < next_batch_row bs' <= total_batch_rows bs)).
  { intros fuel' bs bs' Hcur. rewrite advance_loop_end by done.
    intros ([] & bs1 & Hm & Hr)%bind_Ok_inv.
    destruct (rows_left_preserved _ _ _ _
                (preserves_for_range cursor_of
                   (num_compressed_columns chunk_state) 0 _
                   preserves_cursor_check_column_done) Hm) as [_ Ht].
    apply update_scan_slot_Ok in Hr as (slot & _ & ->). simpl.
    split; [done|]. by left. }
  induction fuel as [|fuel IH]; intros bs bs'.
  - destruct (next_batch_row bs <? total_batch_rows bs) eqn:Hcur;
      [|by apply Hend].
    simpl. unfold bind, get. by rewrite Hcur.
  - destruct (next_batch_row bs <? total_batch_rows bs) eqn:Hcur;
      [|by apply Hend].
    rewrite advance_loop_step by done. apply Z.ltb_lt in Hcur.
    assert (Hincr : forall s,
      next_batch_row s = next_batch_row bs ->
      total_batch_rows s = total_batch_rows bs ->
      bind next_batch_row_incr (fun _ => advance_loop fuel chunk_state) s
      = Ok tt bs' ->
      total_batch_rows bs' = total_batch_rows bs
      /\ (TupIsNull (decompressed_scan_slot bs') = true
          \/ next_batch_row bs < next_batch_row bs' <= total_batch_rows bs)).
    { intros s Hn Ht. unfold bind, next_batch_row_incr, modify.
      intros [Ht' Hcases]%IH. simpl in Ht', Hcases.
      split; [congruence|]. destruct Hcases as [?|?]; [by left|right; lia]. }
    destruct (compressed_batch_vector_qual chunk_state bs).
    + intros ([] & bs1 & Hm & Hr)%bind_Ok_inv.
      destruct (rows_left_preserved _ _ _ _
                  (preserves_cursor_make_next_tuple chunk_state) Hm)
        as [Hn1 Ht1].
      apply bind_Ok_inv in Hr as (passed & bs2 & Hq & Hr).
      destruct (rows_left_preserved _ _ _ _
                  (preserves_cursor_postgres_qual chunk_state) Hq)
        as [Hn2 Ht2].
      destruct passed.
      * injection Hr as <-. simpl. split; [congruence|]. right. lia.
      * apply (Hincr bs2); [congruence..|done].
    + intros ([] & bs1 & Hm & Hr)%bind_Ok_inv.
      destruct (rows_left_preserved _ _ _ _
                  (preserves_for_range cursor_of
                     (num_compressed_columns chunk_state) 0 _
                     preserves_cursor_skip_column) Hm) as [Hn1 Ht1].
      by apply (Hincr bs1).
Qed.

(** The loop of the caller does not run out of fuel either: each call that
    returns a row moves the cursor on. *)
Lemma advance_until_empty_fuel chunk_state fuel : forall bs,
  (rows_left bs <= fuel)%nat ->
  forall e bs', advance_until_empty fuel chunk_state bs = Raise e bs' ->
                e <> loop_fuel_exhausted.
Proof.
  assert (Hcall : forall bs bs1 slot,
    compressed_batch_advance chunk_state bs = Ok tt bs1 ->
    decompressed_scan_slot bs1 = Some slot -> tts_empty slot = false ->
    (rows_left bs1 < rows_left bs)%nat).
  { intros bs bs1 slot Hrun Hslot Hempty.
    unfold compressed_batch_advance in Hrun. rewrite bind_get_run in Hrun.
    apply advance_loop_returns in Hrun as [Ht [Hnull|Hmoved]].
    - rewrite Hslot in Hnull. simpl in Hnull. congruence.
    - unfold rows_left. lia. }
  induction fuel as [|fuel IH]; intros bs Hfuel e bs'; simpl;
    (intros [Hr|([] & bs1 & Hrun & Hr)]%bind_Raise_inv;
     [by apply compressed_batch_advance_fuel in Hr|]);
    rewrite bind_get_run in Hr;
    (destruct (decompressed_scan_slot bs1) as [slot|] eqn:Hslot;
     [|by injection Hr as <- _]);
    (destruct (tts_empty slot) eqn:Hempty; [done|]);
    pose proof (Hcall _ _ _ Hrun Hslot Hempty) as Hless.
  - lia.
  - apply bind_Raise_inv in Hr as [Hr|(rows & bs2 & _ & Hr)]; [|done].
    apply (IH bs1) in Hr; [done|lia].
Qed.

Lemma advance_to_exhaustion_fuel chunk_state :
  never_raises loop_fuel_exhausted (advance_to_exhaustion chunk_state).
Proof.
  intros bs e bs'. unfold advance_to_exhaustion. rewrite bind_get_run.
  by apply advance_until_empty_fuel.
Qed.

(** ** Stale values in the output slot *)

Lemma lookup_insert_same {A} (l1 l2 : list A) i j x :
  length l1 = length l2 ->
  l1 !! j = l2 !! j \/ j = i ->
  <[i := x]> l1 !! j = <[i := x]> l2 !! j.
Proof.
  intros Hlen Hj. destruct (decide (j = i)) as [->|Hne].
  - destruct (decide (i < length l1)%nat).
    + by rewrite !list_lookup_insert_eq by lia.
    + rewrite !list_insert_ge by lia. by rewrite !lookup_ge_None_2 by lia.
  - rewrite !list_lookup_insert_ne by done. by destruct Hj.
Qed.

Lemma agree_at_slot_store a attr v b slot1 slot2 :
  same_shape slot1 slot2 ->
  agree_at a slot1 slot2 \/ Z.of_nat a = attr ->
  agree_at a (slot_store attr v b slot1) (slot_store attr v b slot2).
Proof.
  intros (_ & _ & Hlv & Hln) Hagree. unfold agree_at, slot_store.
  destruct (attr <? 0) eqn:Hneg; simpl.
  - destruct Hagree as [?|?]; [done|]. apply Z.ltb_lt in Hneg. lia.
  - apply Z.ltb_ge in Hneg.
    split; (apply lookup_insert_same; [done|]);
      (destruct Hagree as [[? ?]|?]; [by left|right; lia]).
Qed.

Lemma same_shape_slot_store attr v b slot1 slot2 :
  same_shape slot1 slot2 ->
  same_shape (slot_store attr v b slot1) (slot_store attr v b slot2).
Proof.
  intros (He & Hd & Hlv & Hln). unfold same_shape, slot_store.
  destruct (attr <? 0); simpl; [done|].
  by rewrite !length_insert.
Qed.

(** Storing the same value at the offset of column [i] in both slots. *)
Lemma slots_stale_store chunk_state i cols slot1 slot2 d v b :
  template_columns chunk_state !! i = Some d ->
  slots_stale chunk_state i cols slot1 slot2 ->
  slots_stale chunk_state (S i) cols
    (slot_store (AttrNumberGetAttrOffset (template_output_attno d)) v b slot1)
    (slot_store (AttrNumberGetAttrOffset (template_output_attno d)) v b slot2).
Proof.
  intros Hd (Hshape & Hpending & Hdefaults). split_and!.
  - by apply same_shape_slot_store.
  - intros a.
    destruct (decide (Z.of_nat a
                      = AttrNumberGetAttrOffset (template_output_attno d)))
      as [Heq|Hne].
    { left. apply agree_at_slot_store; [done|by right]. }
    destruct (Hpending a) as [Hagree|(j & d' & Hd' & Hstores & Hj)].
    { left. apply agree_at_slot_store; [done|by left]. }
    right. exists j, d'. split; [done|]. split; [done|].
    destruct Hj as [Hj|[Hj Hc]].
    + destruct (decide (j = i)) as [->|Hji]; [|left; lia].
      rewrite Hd in Hd'. injection Hd' as <-.
      destruct Hstores as [_ Hattr]. congruence.
    + right. split; [lia|done].
  - intros j d' c a Hj Hd' Htype Hc Hit Harrow Hattr.
    destruct (decide (j = i)) as [->|Hji].
    + rewrite Hd in Hd'. injection Hd' as <-.
      apply agree_at_slot_store; [done|]. by right.
    + apply agree_at_slot_store; [done|]. left.
      apply (Hdefaults j d' c a); [lia|done..].
Qed.

(** Column [i] is replaced while it is still pending. *)
Lemma slots_stale_insert chunk_state i cols slot1 slot2 c :
  slots_stale chunk_state i cols slot1 slot2 ->
  slots_stale chunk_state i (<[i := c]> cols) slot1 slot2.
Proof.
  intros (Hshape & Hpending & Hdefaults). split_and!; [done| |].
  - intros a. destruct (Hpending a) as [?|(j & d & Hd & Hstores & Hj)];
      [by left|right].
    exists j, d. split; [done|]. split; [done|].
    destruct Hj as [Hj|[Hj (c' & Hc' & Hrow)]]; [by left|right].
    split; [done|]. exists c'. by rewrite list_lookup_insert_ne by lia.
  - intros j d c' a Hj Hd Htype Hc' Hit Harrow Hattr.
    rewrite list_lookup_insert_ne in Hc' by lia.
    by apply (Hdefaults j d c' a).
Qed.

(** Column [i] has become a column that is written for each row. *)
Lemma slots_stale_per_row chunk_state i cols slot1 slot2 d c :
  template_columns chunk_state !! i = Some d ->
  cols !! i = Some c ->
  per_row c -> is_Some (iterator c) \/ is_Some (arrow c) ->
  output_attno c = template_output_attno d ->
  slots_stale chunk_state i cols slot1 slot2 ->
  slots_stale chunk_state (S i) cols slot1 slot2.
Proof.
  intros Hd Hc Hrow Hform Hattno (Hshape & Hpending & Hdefaults).
  split_and!; [done| |].
  - intros a. destruct (Hpending a) as [?|(j & d' & Hd' & Hstores & Hj)];
      [by left|right].
    exists j, d'. split; [done|]. split; [done|].
    destruct Hj as [Hj|[Hj Hc']].
    + destruct (decide (j = i)) as [->|Hji]; [|left; lia].
      right. split; [lia|]. rewrite Hd in Hd'. injection Hd' as <-.
      by exists c.
    + right. split; [lia|done].
  - intros j d' c' a Hj Hd' Htype Hc' Hit Harrow.
    destruct (decide (j = i)) as [->|Hji].
    + rewrite Hc in Hc'. injection Hc' as <-.
      destruct Hform as [[? Hf]|[? Hf]]; congruence.
    + apply (Hdefaults j d' c' a); [lia|done..].
Qed.

(** Column [i] stores nothing into the slot. *)
Lemma slots_stale_skip chunk_state i cols slot1 slot2 d :
  template_columns chunk_state !! i = Some d ->
  type d = COUNT_COLUMN \/ type d = SEQUENCE_NUM_COLUMN ->
  slots_stale chunk_state i cols slot1 slot2 ->
  slots_stale chunk_state (S i) cols slot1 slot2.
Proof.
  intros Hd Htype (Hshape & Hpending & Hdefaults).
  split_and!; [done| |].
  - intros a. destruct (Hpending a) as [?|(j & d' & Hd' & Hstores & Hj)];
      [by left|right].
    exists j, d'. split; [done|]. split; [done|].
    destruct Hj as [Hj|[Hj Hc']].
    + destruct (decide (j = i)) as [->|Hji]; [|left; lia].
      rewrite Hd in Hd'. injection Hd' as <-.
      destruct Hstores as [[?|?] _], Htype; congruence.
    + right. split; [lia|done].
  - intros j d' c' a Hj Hd' Htype' Hc' Hit Harrow.
    destruct (decide (j = i)) as [->|Hji].
    + rewrite Hd in Hd'. injection Hd' as <-. destruct Htype; congruence.
    + apply (Hdefaults j d' c' a); [lia|done..].
Qed.

Lemma take_insert_S {A} i (c : A) l1 l2 :
  length l1 = length l2 -> take i l1 = take i l2 ->
  take (S i) (<[i := c]> l1) = take (S i) (<[i := c]> l2).
Proof.
  intros Hlen Htake. destruct (decide (i < length l1)%nat) as [Hlt|Hge].
  - erewrite !take_S_r by (apply list_lookup_insert_eq; lia).
    by rewrite !take_insert_ge, Htake by lia.
  - rewrite !list_insert_ge by lia.
    rewrite !firstn_all2 in Htake |- * by lia. done.
Qed.

Lemma take_weaken {A} i t (l1 l2 : list A) :
  (i <= t)%nat -> take t l1 = take t l2 -> take i l1 = take i l2.
Proof.
  intros Hi Htake. apply (f_equal (take i)) in Htake.
  by rewrite !take_take, Nat.min_l in Htake by lia.
Qed.

Section Stale.
Context `{Collaborators}.
Variable chunk_state : DecompressChunkState.
Variable quals : Prop.
Variable n : nat.

Lemma stale_from_set_column t i c s1 s2 :
  (i <= t)%nat ->
  stale_from chunk_state quals n t i s1 s2 ->
  stale_from chunk_state quals n (S i) i
    (with_compressed_columns (<[i := c]> (compressed_columns s1)) s1)
    (with_compressed_columns (<[i := c]> (compressed_columns s2)) s2).
Proof.
  intros Hit (Hc & Ht & Hn & Hp & Hl & Hq & Hlen1 & Hlen2 & Htake
              & slot1 & slot2 & Hs1 & Hs2 & Hstale).
  split_and!; simpl; try done.
  - by rewrite length_insert.
  - by rewrite length_insert.
  - apply take_insert_S; [lia|]. by apply (take_weaken i t).
  - exists slot1, slot2. split_and!; [done..|]. by apply slots_stale_insert.
Qed.

Lemma update_scan_slot_stale f t i i' s1 s2 :
  stale_from chunk_state quals n t i s1 s2 ->
  (forall slot1 slot2,
     slots_stale chunk_state i (compressed_columns s1) slot1 slot2 ->
     slots_stale chunk_state i' (compressed_columns s1) (f slot1) (f slot2)) ->
  outcomes_agree (stale_from chunk_state quals n t i')
    (update_scan_slot f s1) (update_scan_slot f s2).
Proof.
  intros (Hc & Ht & Hn & Hp & Hl & Hq & Hlen1 & Hlen2 & Htake
          & slot1 & slot2 & Hs1 & Hs2 & Hstale) Hf.
  unfold update_scan_slot, scan_slot, bind, modify. rewrite Hs1, Hs2. simpl.
  split; [done|]. split_and!; simpl; try done.
  exists (f slot1), (f slot2). split_and!; [done..|]. by apply Hf.
Qed.

Lemma stale_from_total t i total s1 s2 :
  stale_from chunk_state quals n t i s1 s2 ->
  stale_from chunk_state quals n t i
    (with_total_batch_rows total s1) (with_total_batch_rows total s2).
Proof.
  intros (Hc & Ht & Hn & Hp & Hl & Hq & Hlen1 & Hlen2 & Htake & Hslots).
  split_and!; simpl; done.
Qed.

Lemma stale_from_slots t i i' s1 s2 :
  stale_from chunk_state quals n t i s1 s2 ->
  (forall slot1 slot2,
     slots_stale chunk_state i (compressed_columns s1) slot1 slot2 ->
     slots_stale chunk_state i' (compressed_columns s1) slot1 slot2) ->
  stale_from chunk_state quals n t i' s1 s2.
Proof.
  intros (Hc & Ht & Hn & Hp & Hl & Hq & Hlen1 & Hlen2 & Htake
          & slot1 & slot2 & Hs1 & Hs2 & Hstale) Hf.
  split_and!; try done. exists slot1, slot2. split_and!; [done..|]. by apply Hf.
Qed.

Lemma stale_from_take t t' i s1 s2 :
  stale_from chunk_state quals n t i s1 s2 ->
  (t' <= t \/ n <= t)%nat ->
  stale_from chunk_state quals n t' i s1 s2.
Proof.
  intros (Hc & Ht & Hn & Hp & Hl & Hq & Hlen1 & Hlen2 & Htake & Hslots) Ht'.
  split_and!; try done.
  destruct Ht' as [Ht'|Ht'].
  - by apply (take_weaken t' t).
  - rewrite !firstn_all2 in Htake by lia. by rewrite Htake.
Qed.

Hypothesis Hvalues : forall algorithm header pgtype arrow_array,
  tsl_get_decompress_all_function algorithm header pgtype = Some arrow_array ->
  is_Some (buffers_1 arrow_array).

Lemma set_compressed_column_stale i d s1 s2 :
  template_columns chunk_state !! i = Some d ->
  stale_from chunk_state quals n i i s1 s2 ->
  outcomes_agree (stale_from chunk_state quals n (S i) (S i))
    (set_compressed_column chunk_state i d s1)
    (set_compressed_column chunk_state i d s2).
Proof.
  intros Hd Hstale. unfold set_compressed_column.
  assert (Hlookup :
    (exists c1 c2, (i < n)%nat
        /\ column_at i s1 = Ok c1 s1 /\ column_at i s2 = Ok c2 s2)
    \/ (column_at i s1 = Raise undefined_behaviour s1
        /\ column_at i s2 = Raise undefined_behaviour s2)).
  { pose proof Hstale as (_ & _ & _ & _ & _ & _ & Hlen1 & Hlen2 & _).
    unfold column_at.
    destruct (compressed_columns s1 !! i) as [c1|] eqn:Hc1,
             (compressed_columns s2 !! i) as [c2|] eqn:Hc2.
    - left. exists c1, c2. apply lookup_lt_Some in Hc1. split; [lia|done].
    - apply lookup_lt_Some in Hc1. apply lookup_ge_None in Hc2. lia.
    - apply lookup_lt_Some in Hc2. apply lookup_ge_None in Hc1. lia.
    - by right. }
  destruct Hlookup as [(c1 & c2 & Hin & H1 & H2)|[H1 H2]].
  2:{ by rewrite (bind_Raise _ _ _ _ _ H1), (bind_Raise _ _ _ _ _ H2). }
  rewrite (bind_Ok _ _ _ _ _ H1), (bind_Ok _ _ _ _ _ H2).
  unfold set_column. rewrite !bind_modify, !bind_get_run.
  pose proof (stale_from_set_column i i
                (empty_column (template_output_attno d)) s1 s2
                ltac:(lia) Hstale) as Hreset.
  set (r1 := with_compressed_columns _ s1) in *.
  set (r2 := with_compressed_columns _ s2) in *.
  pose proof Hreset as (Hc & Ht & Hn & Hp & Hl & Hq & Hlen1 & Hlen2 & Htake
                        & slot1 & slot2 & Hs1 & Hs2 & Hslots).
  rewrite Hc, Ht.
  destruct (compressed_slot r2) as [compressed|]; [|done].
  destruct (slot_getattr compressed _) as [value isnull].
  destruct isnull.
  { apply (update_scan_slot_stale _ (S i) i (S i)); [done|].
    intros t1 t2 Ht12. pose proof Ht12 as ((_ & Hdesc & _) & _).
    rewrite Hdesc. destruct (getmissingattr _ _) as [missing missing_isnull].
    by apply slots_stale_store. }
  assert (Hset : forall c t1 t2,
    per_row c -> is_Some (iterator c) \/ is_Some (arrow c) ->
    output_attno c = template_output_attno d ->
    stale_from chunk_state quals n (S i) i t1 t2 ->
    stale_from chunk_state quals n (S i) (S i)
      (with_compressed_columns (<[i := c]> (compressed_columns t1)) t1)
      (with_compressed_columns (<[i := c]> (compressed_columns t2)) t2)).
  { intros c t1 t2 Hrow Hform Hattno Ht12.
    apply (stale_from_slots (S i) i).
    - by apply (stale_from_set_column (S i)); [lia|].
    - intros u1 u2. simpl.
      apply (slots_stale_per_row _ _ _ _ _ d c); try done.
      apply list_lookup_insert_eq.
      destruct Ht12 as (_ & _ & _ & _ & _ & _ & Hl1 & _). lia. }
  destruct (if _ && _ then _ else None) as [arrow_array|] eqn:Hbulk.
  - assert (Hbuf : is_Some (buffers_1 arrow_array)).
    { destruct (_ && _); [|done]. by eapply Hvalues. }
    apply (outcomes_agree_bind (stale_from chunk_state quals n (S i) i)).
    + destruct (total_batch_rows r2 =? 0).
      * split; [done|]. by apply stale_from_total.
      * destruct (negb _); [done|]. by split.
    + intros _ t1 t2 Ht12. split; [done|].
      apply Hset; try done; simpl.
      * by right.
      * right. by eexists.
  - split; [done|]. apply Hset; try done; simpl.
    + left. by eexists.
    + left. by eexists.
Qed.

Lemma set_column_from_tuple_stale i s1 s2 :
  stale_from chunk_state quals n i i s1 s2 ->
  (forall d,
      template_columns chunk_state !! i = Some d ->
      type d <> COMPRESSED_COLUMN -> (n <= i)%nat) ->
  outcomes_agree (stale_from chunk_state quals n (S i) (S i))
    (set_column_from_tuple chunk_state i s1)
    (set_column_from_tuple chunk_state i s2).
Proof.
  intros Hstale Hbeyond.
  unfold set_column_from_tuple.
  destruct (template_columns chunk_state !! i) as [d|] eqn:Hdesc; [|done].
  destruct (type d) eqn:Htype.
  - assert (Hall : stale_from chunk_state quals n (S i) i s1 s2).
    { apply (stale_from_take i); [done|right].
      apply (Hbeyond d); [done|by rewrite Htype]. }
    pose proof Hall as (Hc & _).
    rewrite !bind_get_run. rewrite Hc.
    destruct (compressed_slot s2) as [compressed|]; [|done].
    destruct (slot_getattr compressed _) as [value isnull].
    apply (update_scan_slot_stale _ (S i) i (S i)); [done|].
    intros t1 t2 Ht12. by apply slots_stale_store.
  - by apply set_compressed_column_stale.
  - assert (Hall : stale_from chunk_state quals n (S i) (S i) s1 s2).
    { apply (stale_from_slots (S i) i).
      - apply (stale_from_take i); [done|right].
        apply (Hbeyond d); [done|by rewrite Htype].
      - intros t1 t2. apply (slots_stale_skip _ _ _ _ _ d); [done|by left]. }
    pose proof Hall as (Hc & Ht & _).
    rewrite !bind_get_run. rewrite Hc, Ht.
    destruct (compressed_slot s2) as [compressed|]; [|done].
    destruct (slot_getattr compressed _) as [value isnull].
    destruct (_ <=? 0); [done|].
    destruct (total_batch_rows s2 =? 0).
    + split; [done|]. by apply stale_from_total.
    + destruct (negb _); [done|]. by split.
  - split; [done|].
    apply (stale_from_slots (S i) i).
    + apply (stale_from_take i); [done|right].
      apply (Hbeyond d); [done|by rewrite Htype].
    + intros t1 t2. apply (slots_stale_skip _ _ _ _ _ d); [done|by right].
Qed.
End Stale.

Lemma outcomes_agree_column_at {A}
    (R : DecompressBatchState -> DecompressBatchState -> Prop)
    i (k1 k2 : CompressedColumnValues -> Exec A) s1 s2 :
  compressed_columns s1 = compressed_columns s2 ->
  (forall c, compressed_columns s1 !! i = Some c ->
             outcomes_agree R (k1 c s1) (k2 c s2)) ->
  outcomes_agree R (bind (column_at i) k1 s1) (bind (column_at i) k2 s2).
Proof.
  intros Hcols Hk. unfold bind, column_at. rewrite <- Hcols.
  destruct (compressed_columns s1 !! i) as [c|]; [by apply Hk|done].
Qed.

Lemma outcomes_agree_Ensure {A}
    (R : DecompressBatchState -> DecompressBatchState -> Prop)
    cond e (k1 k2 : unit -> Exec A) s1 s2 :
  (cond = true -> outcomes_agree R (k1 tt s1) (k2 tt s2)) ->
  outcomes_agree R (bind (Ensure cond e) k1 s1) (bind (Ensure cond e) k2 s2).
Proof. intros Hk. destruct cond; [by apply Hk|done]. Qed.

Section StaleQuals.
Context `{Collaborators}.
Variable chunk_state : DecompressChunkState.
Variable n : nat.
Hypothesis Hcount : (n <= num_total_columns chunk_state)%nat.
Hypothesis Hattno : forall j d,
  template_columns chunk_state !! j = Some d ->
  type d = COMPRESSED_COLUMN -> 1 <= template_output_attno d.

Lemma stale_loaded_columns s1 s2 :
  stale_loaded chunk_state n s1 s2 -> compressed_columns s1 = compressed_columns s2.
Proof using Hcount.
  intros (_ & _ & _ & _ & _ & _ & Hlen1 & Hlen2 & Htake & _).
  by rewrite !firstn_all2 in Htake by lia.
Qed.

Lemma stale_loaded_bitmap s1 s2 :
  stale_loaded chunk_state n s1 s2 -> vector_qual_result s1 = vector_qual_result s2.
Proof. by intros (_ & _ & _ & _ & _ & [[]|?] & _). Qed.

Lemma stale_loaded_modify (f : DecompressBatchState -> DecompressBatchState) s1 s2 :
  (forall s, compressed_slot (f s) = compressed_slot s
             /\ total_batch_rows (f s) = total_batch_rows s
             /\ next_batch_row (f s) = next_batch_row s
             /\ compressed_columns (f s) = compressed_columns s
             /\ decompressed_scan_slot (f s) = decompressed_scan_slot s) ->
  per_batch_context (f s1) = per_batch_context (f s2) ->
  predicate_calls (f s1) = predicate_calls (f s2) ->
  vector_qual_result (f s1) = vector_qual_result (f s2) ->
  stale_loaded chunk_state n s1 s2 -> stale_loaded chunk_state n (f s1) (f s2).
Proof.
  intros Hf Hp' Hl' Hv'
         (Hc & Ht & Hn & Hp & Hl & Hq & Hlen1 & Hlen2 & Htake & Hslots).
  destruct (Hf s1) as (E1 & E2 & E3 & E4 & E5).
  destruct (Hf s2) as (F1 & F2 & F3 & F4 & F5).
  unfold stale_loaded, stale_from.
  rewrite E1, E2, E3, E4, E5, F1, F2, F3, F4, F5.
  split_and!; try done. by right.
Qed.

Lemma make_single_value_arrow_stale pgtype datum isnull s1 s2 :
  stale_loaded chunk_state n s1 s2 ->
  outcomes_agree (stale_loaded chunk_state n)
    (make_single_value_arrow pgtype datum isnull s1)
    (make_single_value_arrow pgtype datum isnull s2).
Proof.
  intros Hstale. unfold make_single_value_arrow, palloc.
  rewrite !bind_modify.
  assert (Hnext : stale_loaded chunk_state n
    (with_per_batch_context
       (cons single_value_arrow_chunk <$> per_batch_context s1) s1)
    (with_per_batch_context
       (cons single_value_arrow_chunk <$> per_batch_context s2) s2)).
  { apply (stale_loaded_modify (fun s =>
      with_per_batch_context
        (cons single_value_arrow_chunk <$> per_batch_context s) s));
      [done| | | |done]; simpl.
    - destruct Hstale as (_ & _ & _ & -> & _). done.
    - by destruct Hstale as (_ & _ & _ & _ & -> & _).
    - by apply stale_loaded_bitmap. }
  destruct isnull; [by split|].
  destruct (single_value_width pgtype); [by split|done].
Qed.

Lemma call_predicate_stale predicate vector constvalue predicate_result s1 s2 :
  stale_loaded chunk_state n s1 s2 ->
  outcomes_agree (stale_loaded chunk_state n)
    (call_predicate predicate vector constvalue predicate_result s1)
    (call_predicate predicate vector constvalue predicate_result s2).
Proof.
  intros Hstale. unfold call_predicate. rewrite !bind_modify.
  split; [done|].
  apply (stale_loaded_modify (fun s =>
    with_predicate_calls ((vector, constvalue) :: predicate_calls s) s));
    [done| | | |done]; simpl.
  - by destruct Hstale as (_ & _ & _ & -> & _).
  - by destruct Hstale as (_ & _ & _ & _ & -> & _).
  - by apply stale_loaded_bitmap.
Qed.

Lemma set_bitmap_stale (f : option (list Z) -> option (list Z)) s1 s2 :
  stale_loaded chunk_state n s1 s2 ->
  stale_loaded chunk_state n
    (with_vector_qual_result (f (vector_qual_result s1)) s1)
    (with_vector_qual_result (f (vector_qual_result s2)) s2).
Proof.
  intros Hstale.
  apply (stale_loaded_modify (fun s =>
    with_vector_qual_result (f (vector_qual_result s)) s));
    [done| | | |done]; simpl.
  - by destruct Hstale as (_ & _ & _ & -> & _).
  - by destruct Hstale as (_ & _ & _ & _ & -> & _).
  - by rewrite (stale_loaded_bitmap _ _ Hstale).
Qed.

Lemma apply_vector_qual_stale bitmap_bytes oe s1 s2 :
  stale_loaded chunk_state n s1 s2 ->
  outcomes_agree (stale_loaded chunk_state n)
    (apply_vector_qual chunk_state bitmap_bytes oe s1)
    (apply_vector_qual chunk_state bitmap_bytes oe s2).
Proof using Hcount Hattno.
  intros Hstale. unfold apply_vector_qual.
  set (column_index := find_template_column _ _ _ _).
  apply outcomes_agree_Ensure. intros Hfound%bool_decide_eq_true.
  destruct (template_columns chunk_state !! column_index) as [d|] eqn:Hd;
    [|done].
  apply outcomes_agree_Ensure. intros Htype.
  assert (Hcompressed : type d = COMPRESSED_COLUMN)
    by (by destruct (type d)).
  apply outcomes_agree_column_at; [by apply stale_loaded_columns|].
  intros c Hc.
  apply outcomes_agree_Ensure. intros Hit.
  assert (Hiterator : iterator c = None) by (by destruct (iterator c)).
  apply (outcomes_agree_bind (stale_loaded chunk_state n)).
  - destruct (arrow c) as [vector|] eqn:Harrow; [by split|].
    apply outcomes_agree_Ensure. intros _.
    pose proof Hstale as (_ & _ & _ & _ & _ & _ & _ & _ & _
                          & slot1 & slot2 & Hs1 & Hs2 & _ & _ & Hdefaults).
    unfold bind, scan_slot. rewrite Hs1, Hs2. cbv zeta.
    pose proof (Hattno _ _ Hd Hcompressed) as Hpos.
    destruct (Hdefaults column_index d c
                (Z.to_nat (AttrNumberGetAttrOffset (template_output_attno d))))
      as [Hv Hn]; try done.
    { unfold AttrNumberGetAttrOffset. lia. }
    match goal with
    | |- outcomes_agree _ (make_single_value_arrow _ ?v1 ?b1 _)
                          (make_single_value_arrow _ ?v2 ?b2 _) =>
        replace v1 with v2 by (f_equal; symmetry; exact Hv);
        replace b1 with b2 by (f_equal; symmetry; exact Hn)
    end.
    by apply make_single_value_arrow_stale.
  - clear s1 s2 Hstale Hc. intros vector s1 s2 Hstale.
    destruct (get_vector_const_predicate _) as [predicate|]; [|done].
    apply outcomes_agree_Ensure. intros _.
    destruct (arrow c).
    + rewrite !bind_get_run. rewrite (stale_loaded_bitmap _ _ Hstale).
      destruct (vector_qual_result s2) as [predicate_result|] eqn:Hresult;
        [|done].
      apply (outcomes_agree_bind (stale_loaded chunk_state n));
        [by apply call_predicate_stale|].
      intros result t1 t2 Ht12. split; [done|].
      by apply (set_bitmap_stale (fun _ => Some result)).
    + apply (outcomes_agree_bind (stale_loaded chunk_state n));
        [by apply call_predicate_stale|].
      intros result t1 t2 Ht12.
      destruct (negb _); [|by split].
      apply (outcomes_agree_for_range (fun _ => stale_loaded chunk_state n)); [done|].
      intros i u1 u2 _ Hu12. split; [done|].
      by apply (set_bitmap_stale (fun v => <[i := 0]> <$> v)).
Qed.

Lemma outcomes_agree_foreach {A}
    (R : DecompressBatchState -> DecompressBatchState -> Prop)
    (l : list A) body : forall s1 s2,
  R s1 s2 ->
  (forall x t1 t2, R t1 t2 -> outcomes_agree R (body x t1) (body x t2)) ->
  outcomes_agree R (foreach l body s1) (foreach l body s2).
Proof.
  induction l as [|x l IH]; intros s1 s2 HR Hbody; [by split|].
  simpl. apply (outcomes_agree_bind R); [by apply Hbody|].
  intros _ t1 t2 Ht12. by apply IH.
Qed.

Lemma apply_vector_quals_stale s1 s2 :
  stale_from chunk_state (vectorized_quals chunk_state <> []) n
    (num_total_columns chunk_state) (num_total_columns chunk_state) s1 s2 ->
  outcomes_agree (stale_loaded chunk_state n)
    (apply_vector_quals chunk_state s1) (apply_vector_quals chunk_state s2).
Proof using Hcount Hattno.
  intros (Hc & Ht & Hn & Hp & Hl & Hq & Hlen1 & Hlen2 & Htake & Hslots).
  unfold apply_vector_quals.
  destruct (vectorized_quals chunk_state) as [|oe quals] eqn:Hquals.
  - split; [done|]. destruct Hq as [?|Hq]; [done|].
    unfold stale_loaded, stale_from. split_and!; try done. by right.
  - cbn [is_NIL]. rewrite !bind_get_run. rewrite Ht.
    unfold palloc_size. destruct (_ <=? MaxAllocSize); [|done].
    unfold palloc. rewrite !bind_modify. rewrite Hp.
    apply outcomes_agree_foreach; [|intros; by apply apply_vector_qual_stale].
    unfold stale_loaded, stale_from. split_and!; simpl; try done. by right.
Qed.
End StaleQuals.

Lemma slot_eq (slot1 slot2 : TupleTableSlot) :
  same_shape slot1 slot2 -> (forall a, agree_at a slot1 slot2) ->
  slot1 = slot2.
Proof.
  intros (He & Hd & _ & _) Hagree.
  assert (Hv : tts_values slot1 = tts_values slot2)
    by (apply list_eq; intros a; apply Hagree).
  assert (Hn : tts_isnull slot1 = tts_isnull slot2)
    by (apply list_eq; intros a; apply Hagree).
  destruct slot1, slot2; simpl in *; by subst.
Qed.

(** Writes that cover the offsets at which two slots differ make them
    equal. *)
Lemma foldl_apply_write_agree (w : list (Z * Datum * bool)) :
  forall slot1 slot2,
    same_shape slot1 slot2 ->
    (forall a, agree_at a slot1 slot2
               \/ exists x, x ∈ w /\ x.1.1 = Z.of_nat a) ->
    foldl apply_write slot1 w = foldl apply_write slot2 w.
Proof.
  induction w as [|[[attr v] b] w IH]; intros slot1 slot2 Hshape Hcover; simpl.
  - apply slot_eq; [done|]. intros a.
    destruct (Hcover a) as [?|(x & Hx & _)]; [done|]. by apply elem_of_nil in Hx.
  - apply IH; unfold apply_write; simpl.
    + by apply same_shape_slot_store.
    + intros a. destruct (Hcover a) as [Hagree|(x & Hx & Hattr)].
      * left. apply agree_at_slot_store; [done|by left].
      * apply elem_of_cons in Hx as [->|Hx].
        -- left. apply agree_at_slot_store; [done|]. right. by simpl in Hattr.
        -- right. by exists x.
Qed.

Lemma column_write_per_row r k c :
  per_row c ->
  exists v b,
    column_write r (pull_n k c)
    = Some (AttrNumberGetAttrOffset (output_attno c), v, b).
Proof.
  intros Hrow. unfold column_write, pull_n. simpl.
  destruct (iterator c) as [it|] eqn:Hit; simpl; [by eexists _, _|].
  destruct Hrow as [[? ?]|[src Hsrc]]; [congruence|].
  rewrite Hsrc. by eexists _, _.
Qed.

Lemma slots_stale_equiv chunk_state cols slot1 slot2 :
  slots_stale chunk_state (num_total_columns chunk_state) cols slot1 slot2 ->
  slot_equiv cols slot1 slot2.
Proof.
  intros (Hshape & Hpending & _) r k. f_equal. unfold materialize_row.
  apply foldl_apply_write_agree; [done|]. intros a.
  destruct (Hpending a) as [?|(j & d & Hd & [_ Hattr] & Hj)]; [by left|right].
  destruct Hj as [Hj|[_ (c & Hc & Hrow & Hattno)]]; [lia|].
  destruct (column_write_per_row r k c Hrow) as (v & b & Hw).
  exists (AttrNumberGetAttrOffset (output_attno c), v, b). split.
  - apply list_elem_of_omap. exists (pull_n k c). split; [|done].
    apply list_elem_of_fmap. exists c. split; [done|].
    by apply (list_elem_of_lookup_2 _ j).
  - simpl. by rewrite Hattno.
Qed.

Lemma outcomes_agree_impl {A}
    (R R' : DecompressBatchState -> DecompressBatchState -> Prop)
    (out1 out2 : outcome A) :
  (forall s1 s2, R s1 s2 -> R' s1 s2) ->
  outcomes_agree R out1 out2 -> outcomes_agree R' out1 out2.
Proof.
  intros HR. destruct out1, out2; simpl; try done.
  intros [-> ?]. split; [done|]. by apply HR.
Qed.

Lemma stale_loaded_same_rows chunk_state n s1 s2 :
  (n <= num_total_columns chunk_state)%nat ->
  stale_loaded chunk_state n s1 s2 -> same_rows s1 s2.
Proof.
  intros Hcount Hstale.
  pose proof (stale_loaded_columns _ _ Hcount _ _ Hstale) as Hcols.
  pose proof (stale_loaded_bitmap _ _ _ _ Hstale) as Hbitmap.
  destruct Hstale as (Hc & Ht & Hn & Hp & Hl & _ & _ & _ & _
                      & slot1 & slot2 & Hs1 & Hs2 & Hslots).
  split.
  - destruct s1, s2; simpl in *; by subst.
  - exists slot1, slot2. split_and!; [done..|].
    by apply (slots_stale_equiv chunk_state).
Qed.

Lemma same_rows_fields s1 s2 :
  same_rows s1 s2 ->
  total_batch_rows s1 = total_batch_rows s2
  /\ next_batch_row s1 = next_batch_row s2
  /\ vector_qual_result s1 = vector_qual_result s2
  /\ compressed_columns s1 = compressed_columns s2.
Proof.
  intros [Heq _].
  split_and!;
    [apply (f_equal total_batch_rows) in Heq
    |apply (f_equal next_batch_row) in Heq
    |apply (f_equal vector_qual_result) in Heq
    |apply (f_equal compressed_columns) in Heq]; done.
Qed.

Lemma same_rows_row_at chunk_state s1 s2 slot1 slot2 k :
  same_rows s1 s2 ->
  decompressed_scan_slot s1 = Some slot1 ->
  decompressed_scan_slot s2 = Some slot2 ->
  row_at chunk_state s1 k slot1 = row_at chunk_state s2 k slot2
  /\ row_passes chunk_state s1 slot1 k = row_passes chunk_state s2 slot2 k.
Proof.
  intros Hsame Hs1 Hs2.
  destruct (same_rows_fields _ _ Hsame) as (Ht & Hn & Hv & Hcols).
  destruct Hsame as (_ & t1 & t2 & Ht1 & Ht2 & Hequiv).
  assert (t1 = slot1) as -> by congruence.
  assert (t2 = slot2) as -> by congruence.
  assert (Hrow : row_at chunk_state s1 k slot1 = row_at chunk_state s2 k slot2).
  { unfold row_at, arrow_row_of. simpl. rewrite <- Ht, <- Hn, <- Hcols.
    apply Hequiv. }
  split; [done|].
  unfold row_passes. rewrite Hrow. f_equal.
  unfold compressed_batch_vector_qual, arrow_row_of. simpl.
  by rewrite Ht, Hn, Hv.
Qed.

Lemma same_rows_passing_rows chunk_state s1 s2 slot1 slot2 k count :
  same_rows s1 s2 ->
  decompressed_scan_slot s1 = Some slot1 ->
  decompressed_scan_slot s2 = Some slot2 ->
  passing_rows chunk_state s1 slot1 k count
  = passing_rows chunk_state s2 slot2 k count.
Proof.
  intros Hsame Hs1 Hs2. unfold passing_rows.
  rewrite (list_filter_iff _ (fun j => row_passes chunk_state s2 slot2 j)).
  - apply list_fmap_ext. intros _ j _.
    by apply same_rows_row_at.
  - intros j. by rewrite (proj2 (same_rows_row_at chunk_state _ _ _ _ j
                                   Hsame Hs1 Hs2)).
Qed.

Section ReuseStale.
Context `{Collaborators}.

Lemma loading_forgets_stale_values chunk_state subslot bs1 bs2 :
  left_behind chunk_state bs1 bs2 ->
  (length (compressed_columns bs1) <= num_total_columns chunk_state)%nat ->
  (forall i column_description,
      template_columns chunk_state !! i = Some column_description ->
      type column_description <> COMPRESSED_COLUMN ->
      (length (compressed_columns bs1) <= i)%nat) ->
  (forall i column_description,
      template_columns chunk_state !! i = Some column_description ->
      type column_description = COMPRESSED_COLUMN ->
      1 <= template_output_attno column_description) ->
  (forall algorithm header pgtype arrow_array,
      tsl_get_decompress_all_function algorithm header pgtype
      = Some arrow_array ->
      is_Some (buffers_1 arrow_array)) ->
  vectorized_quals chunk_state <> []
  \/ vector_qual_result bs1 = vector_qual_result bs2 ->
  outcomes_agree same_rows
    (compressed_batch_set_compressed_tuple chunk_state subslot bs1)
    (compressed_batch_set_compressed_tuple chunk_state subslot bs2).
Proof.
  intros ((c1 & c2 & Hc1 & Hc2 & Hdesc) & Hlen & Hcalls & Hused1 & Hused2
          & slot1 & slot2 & Hs1 & Hs2 & Hshape & Hpending)
         Hcount Hlayout Hattno Hvalues Hbitmap.
  unfold compressed_batch_set_compressed_tuple.
  rewrite (bind_Ok _ _ _ _ _
             (prepare_batch_state_used chunk_state subslot bs1 c1 Hused1 Hc1)).
  rewrite (bind_Ok _ _ _ _ _
             (prepare_batch_state_used chunk_state subslot bs2 c2 Hused2 Hc2)).
  apply (outcomes_agree_impl
           (stale_loaded chunk_state (length (compressed_columns bs1))));
    [intros s1 s2; by apply stale_loaded_same_rows|].
  apply (outcomes_agree_bind
           (stale_from chunk_state (vectorized_quals chunk_state <> [])
              (length (compressed_columns bs1))
              (0 + num_total_columns chunk_state)
              (0 + num_total_columns chunk_state))).
  - apply (outcomes_agree_for_range
             (fun i => stale_from chunk_state
                         (vectorized_quals chunk_state <> [])
                         (length (compressed_columns bs1)) i i)).
    + split_and!; simpl; try done.
      * unfold ExecCopySlot. by rewrite Hdesc.
      * exists slot1, slot2. split_and!; [done..|].
        split; [done|]. split; [done|]. intros j d c a Hj. lia.
    + intros i s1 s2 _ Hstale.
      apply set_column_from_tuple_stale; [done..|].
      intros d Hd Htype. by apply (Hlayout i d).
  - intros _ s1 s2 Hstale. by apply apply_vector_quals_stale.
Qed.
(** C9: loading a batch into a batch state that has been used before
    starts by setting the cursor and the row count to 0 and resetting the
    per-batch memory context, and every compressed column is set up anew.
    Whatever earlier batches left in two batch states (cursor, row count,
    content of the memory context, bitmap, compressed columns, values of the
    output slot), loading the same tuple into them ends with the same error,
    or in states that are equal but for values of the output slot that
    every row overwrites: each row of the new batch materializes to the
    same tuple and passes the same quals, and a scan returns the same rows.
    When the output slots hold the same values, the two states are equal.
    The cursor of the loaded batch is 0. *)
Theorem loading_resets_batch_state chunk_state subslot bs1 bs2 :
  left_behind chunk_state bs1 bs2 ->
  (length (compressed_columns bs1) <= num_total_columns chunk_state)%nat ->
  (forall i column_description,
      template_columns chunk_state !! i = Some column_description ->
      type column_description <> COMPRESSED_COLUMN ->
      (length (compressed_columns bs1) <= i)%nat) ->
  (forall i column_description,
      template_columns chunk_state !! i = Some column_description ->
      type column_description = COMPRESSED_COLUMN ->
      1 <= template_output_attno column_description) ->
  (forall algorithm header pgtype arrow_array,
      tsl_get_decompress_all_function algorithm header pgtype
      = Some arrow_array ->
      is_Some (buffers_1 arrow_array)) ->
  vectorized_quals chunk_state <> []
  \/ vector_qual_result bs1 = vector_qual_result bs2 ->
  (exists bs0,
      prepare_batch_state chunk_state subslot bs1 = Ok tt bs0
      /\ total_batch_rows bs0 = 0
      /\ next_batch_row bs0 = 0
      /\ per_batch_context bs0 = Some [])
  /\ outcomes_agree same_rows
       (compressed_batch_set_compressed_tuple chunk_state subslot bs1)
       (compressed_batch_set_compressed_tuple chunk_state subslot bs2)
  /\ (decompressed_scan_slot bs1 = decompressed_scan_slot bs2 ->
      outcomes_agree eq
        (compressed_batch_set_compressed_tuple chunk_state subslot bs1)
        (compressed_batch_set_compressed_tuple chunk_state subslot bs2))
  /\ (forall bs',
        compressed_batch_set_compressed_tuple chunk_state subslot bs1
        = Ok tt bs' ->
        next_batch_row bs' = 0)
  /\ (forall s1 s2 slot1 slot2,
        same_rows s1 s2 ->
        decompressed_scan_slot s1 = Some slot1 ->
        decompressed_scan_slot s2 = Some slot2 ->
        (forall k,
            row_at chunk_state s1 k slot1 = row_at chunk_state s2 k slot2
            /\ row_passes chunk_state s1 slot1 k
               = row_passes chunk_state s2 slot2 k)
        /\ (next_batch_row s1 <= total_batch_rows s1 ->
            length (compressed_columns s1)
            = num_compressed_columns chunk_state ->
            columns_in_sync s1 = true ->
            exists rows s1' s2',
              advance_to_exhaustion chunk_state s1 = Ok rows s1'
              /\ advance_to_exhaustion chunk_state s2 = Ok rows s2')).
Proof.
  intros Hleft Hcount Hlayout Hattno Hvalues Hbitmap.
  pose proof Hleft as ((c1 & c2 & Hc1 & Hc2 & Hdesc) & Hlen & Hcalls
                       & Hused1 & Hused2 & _).
  split_and!.
  - eexists. split; [by apply (prepare_batch_state_used _ _ _ c1)|]. done.
  - by apply loading_forgets_stale_values.
  - intros Hslot. apply loading_same_state; [|done..].
    split_and!; [done| |done..]. by exists c1, c2.
  - intros bs'. by apply (loading_resets_cursor _ _ _ c1).
  - intros s1 s2 slot1 slot2 Hsame Hs1 Hs2. split.
    + intros k. by apply same_rows_row_at.
    + intros Hle Hlen1 Hsync.
      destruct (same_rows_fields _ _ Hsame) as (Ht & Hn & Hv & Hcols).
      destruct (advance_to_exhaustion_spec chunk_state s1 slot1)
        as (slot1' & Hrun1); [done..|].
      destruct (advance_to_exhaustion_spec chunk_state s2 slot2)
        as (slot2' & Hrun2).
      { by rewrite <- Ht, <- Hn. }
      { by rewrite <- Hcols. }
      { done. }
      { unfold columns_in_sync, rows_left in *.
        by rewrite <- Ht, <- Hn, <- Hcols. }
      eexists _, _, _. split; [exact Hrun1|]. rewrite Hrun2.
      f_equal. unfold rows_left. rewrite <- Ht, <- Hn. symmetry.
      by apply same_rows_passing_rows.
Qed.
End ReuseStale.

(** ** The properties on the small batch *)

Lemma advance_stops_at_first_passing_row_witness :
  (0 < total_batch_rows (example_batch (Some [4]) example_values)
   /\ columns_in_sync (example_batch (Some [4]) example_values) = true)
  /\ exists bs',
       compressed_batch_advance (example_chunk [example_qual] None)
         (example_batch (Some [4]) example_values) = Ok tt bs'
       /\ next_batch_row bs' = 3
       /\ TupIsNull (decompressed_scan_slot bs') = false.
Proof.
  split; [split; [reflexivity|reflexivity]|].
  destruct (advance_stops_at_first_passing_row
              (example_chunk [example_qual] None)
              (example_batch (Some [4]) example_values) example_slot)
    as [(k & bs' & Hk & Hpass & _ & Hrun & Hnext & _ & Hnull & _)
       |(bs' & Hnone & _)];
    [reflexivity|discriminate|reflexivity|reflexivity|reflexivity| |].
  - exists bs'. split; [exact Hrun|]. split; [|exact Hnull].
    destruct k as [|[|[|k]]];
      [discriminate Hpass|discriminate Hpass|exact Hnext|].
    exfalso. revert Hk. unfold rows_left. simpl. lia.
  - exfalso.
    specialize (Hnone 2%nat ltac:(unfold rows_left; simpl; lia)).
    discriminate Hnone.
Defined.

Lemma iterator_pulled_once_per_row_witness :
  (0 < total_batch_rows (example_batch (Some [4]) example_values)
   /\ next_batch_row (example_batch (Some [4]) example_values) = 0
   /\ columns_in_sync (example_batch (Some [4]) example_values) = true)
  /\ exists rows bs' column_values it,
       advance_to_exhaustion (example_chunk [example_qual] None)
         (example_batch (Some [4]) example_values) = Ok rows bs'
       /\ compressed_columns bs' !! 1%nat = Some column_values
       /\ iterator column_values = Some it
       /\ Z.of_nat (pulls it) = 3 + 1
       /\ compressed_columns bs' !! 0%nat = Some example_bulk_column.
Proof.
  split; [split_and!; reflexivity|].
  destruct (iterator_pulled_once_per_row
              (example_chunk [example_qual] None)
              (example_batch (Some [4]) example_values) example_slot)
    as (rows & bs' & Hrun & Hiterated & Hbulk & _);
    [reflexivity..|].
  destruct (Hiterated 1%nat (example_iterator_column example_values)
              (iterator_of_list example_values) eq_refl eq_refl)
    as (column_values & it & Hcolumn & Hit & Hpulls).
  exists rows, bs', column_values, it.
  split_and!; [exact Hrun|exact Hcolumn|exact Hit|exact Hpulls|].
  exact (Hbulk 0%nat example_bulk_column eq_refl eq_refl).
Defined.

Lemma save_first_tuple_copies_row_0_witness :
  (0 < total_batch_rows (example_batch (Some [4]) example_values)
   /\ next_batch_row (example_batch (Some [4]) example_values) = 0
   /\ columns_in_sync (example_batch (Some [4]) example_values) = true)
  /\ exists bs',
       compressed_batch_save_first_tuple (example_chunk [example_qual] None)
         example_slot (example_batch (Some [4]) example_values)
       = Ok (ExecCopySlot example_slot
               (row_at (example_chunk [example_qual] None)
                  (example_batch (Some [4]) example_values) 0 example_slot))
            bs'
       /\ tts_values
            (row_at (example_chunk [example_qual] None)
               (example_batch (Some [4]) example_values) 0 example_slot)
          = [5; 10; 0]
       /\ compressed_batch_advance (example_chunk [example_qual] None)
            (state_at (example_batch (Some [4]) example_values) 1
               (row_at (example_chunk [example_qual] None)
                  (example_batch (Some [4]) example_values) 0 example_slot))
          = Ok tt bs'.
Proof.
  split; [split_and!; reflexivity|].
  destruct (save_first_tuple_copies_row_0
              (example_chunk [example_qual] None)
              (example_batch (Some [4]) example_values) example_slot
              example_slot)
    as (bs' & Hrun & _ & _ & Hfails & _);
    [reflexivity..|].
  exists bs'. split_and!; [exact Hrun|reflexivity|].
  exact (proj1 (Hfails eq_refl)).
Defined.

Lemma reverse_scan_returns_reversed_rows_witness :
  (0 < total_batch_rows (example_batch None example_values)
   /\ columns_in_sync (example_batch None example_values) = true
   /\ columns_in_sync (example_batch None (rev example_values)) = true)
  /\ exists rows forward' backward',
       advance_to_exhaustion
         (with_reverse false (example_chunk [] (Some example_row_filter)))
         (example_batch None example_values) = Ok rows forward'
       /\ advance_to_exhaustion
            (with_reverse true (example_chunk [] (Some example_row_filter)))
            (example_batch None (rev example_values))
          = Ok (rev rows) backward'.
Proof.
  split; [split_and!; reflexivity|].
  destruct (reverse_scan_returns_reversed_rows
              (example_chunk [] (Some example_row_filter))
              (example_batch None example_values)
              (example_batch None (rev example_values)) example_slot)
    as [Hrows _];
    [reflexivity..| | |reflexivity|reflexivity|exact Hrows].
  - reflexivity.
  - repeat constructor. intros k Hk.
    destruct k as [|[|[|k]]]; [reflexivity..|].
    exfalso. revert Hk. unfold rows_left. simpl. lia.
Defined.

Lemma bulk_column_read_at_row_offset_witness :
  (compressed_columns (example_batch None example_values) !! 0%nat
   = Some example_bulk_column
   /\ iterator example_bulk_column = None)
  /\ exists src,
       arrow_values example_bulk_column = Some src
       /\ make_next_column 2 0 (example_batch None example_values)
          = Ok tt (with_decompressed_scan_slot
                     (Some (slot_store 0 (read_le 8 src 8) false example_slot))
                     (example_batch None example_values))
       /\ read_le 8 src 8 mod 2 ^ (8 * 4) = 7.
Proof.
  split; [split; reflexivity|].
  eexists. split; [reflexivity|].
  destruct (bulk_column_read_at_row_offset 2 0
              (example_batch None example_values) example_bulk_column
              _ example_slot eq_refl eq_refl eq_refl eq_refl)
    as (Hrun & _ & _ & Hlow & _).
  split; [exact Hrun|].
  refine (Hlow _ _ _); [|lia|simpl; lia].
  unfold is_byte. apply (bool_decide_unpack _). vm_compute. exact I.
Defined.

Lemma default_value_qual_applies_to_whole_batch_witness :
  (compressed_columns example_default_batch !! 0%nat = Some (empty_column 1)
   /\ single_value_width INT4OID = Some 4
   /\ get_vector_const_predicate (get_opcode (opno example_qual))
      = Some example_int4_gt
   /\ vector_qual_result example_default_batch = Some [UINT64_MAX])
  /\ exists bs',
       apply_vector_qual (example_chunk [example_qual] None) 8 example_qual
         example_default_batch = Ok tt bs'
       /\ predicate_calls bs' = [(default_value_arrow 4 0 false, 5)]
       /\ vector_qual_result bs' = Some [0].
Proof.
  split; [split_and!; reflexivity|].
  destruct (default_value_qual_applies_to_whole_batch
              (example_chunk [example_qual] None) 8 example_qual
              example_default_batch
              {| type := COMPRESSED_COLUMN; typid := INT4OID;
                 template_output_attno := 1; compressed_scan_attno := 1;
                 bulk_decompression_supported := true |}
              (empty_column 1) (slot_store 0 0 false example_slot)
              4 example_int4_gt [UINT64_MAX])
    as (bs' & Hrun & _ & _ & _ & Hcalls & Hbitmap & _);
    [simpl; lia|reflexivity|reflexivity|reflexivity|reflexivity|reflexivity
    |reflexivity|right; reflexivity|reflexivity|reflexivity|reflexivity
    |reflexivity|].
  exists bs'. split_and!; [exact Hrun|exact Hcalls|exact Hbitmap].
Defined.

Lemma vector_qual_precondition_violations_witness :
  (find_template_column example_templates 2 0 4 = 1%nat
   /\ compressed_columns (example_batch (Some [UINT64_MAX]) example_values)
        !! 1%nat
      = Some (example_iterator_column example_values))
  /\ apply_vector_qual (example_chunk [] None) 8
       {| opno := 521;
          arg_var := {| varattno := 2; vartype := 25 |};
          arg_const := {| constvalue := 5; constisnull := false |} |}
       (example_batch (Some [UINT64_MAX]) example_values)
     = Raise only_arrow_columns_supported
             (example_batch (Some [UINT64_MAX]) example_values)
  /\ (exists bs',
        apply_vector_qual (example_chunk [] None) 8
          {| opno := 521;
             arg_var := {| varattno := 1; vartype := INT4OID |};
             arg_const := {| constvalue := 0; constisnull := true |} |}
          (example_batch (Some [UINT64_MAX]) example_values)
        = Raise vectorized_predicate_null_value bs'
        /\ vector_qual_result bs' = Some [UINT64_MAX]
        /\ predicate_calls bs' = []).
Proof.
  split; [split; reflexivity|]. split.
  - refine (proj1 (proj2 (vector_qual_precondition_violations
              (example_chunk [] None) 8 _
              (example_batch (Some [UINT64_MAX]) example_values)
              {| type := COMPRESSED_COLUMN; typid := 25;
                 template_output_attno := 2; compressed_scan_attno := 2;
                 bulk_decompression_supported := false |} _ _))
            (example_iterator_column example_values)
            (iterator_of_list example_values) _ _ _);
      [simpl; lia|reflexivity..].
  - refine (proj1 (proj2 (proj2 (proj2 (vector_qual_precondition_violations
              (example_chunk [] None) 8 _
              (example_batch (Some [UINT64_MAX]) example_values)
              {| type := COMPRESSED_COLUMN; typid := INT4OID;
                 template_output_attno := 1; compressed_scan_attno := 1;
                 bulk_decompression_supported := true |} _ _))))
            example_bulk_column example_int4_gt _ _ _ _ _);
      [simpl; lia|reflexivity..| |reflexivity|reflexivity].
    split; [reflexivity|]. left. by eexists.
Defined.

Lemma corruption_is_fatal_witness :
  (slot_getattr (example_subslot (1, false) (2, false) 0) 4 = (0, false)
   /\ DatumGetInt32 0 <= 0)
  /\ set_column_from_tuple (example_chunk [] None) 3
       (with_compressed_slot
          (Some (example_subslot (1, false) (2, false) 0))
          (example_batch None example_values))
     = Raise (corrupt_segment_length 0)
         (with_compressed_slot
            (Some (example_subslot (1, false) (2, false) 0))
            (example_batch None example_values))
  /\ (exists bs',
        compressed_batch_advance
          (example_chunk []
             (Some (fun slot =>
                      negb (default 0 (tts_values slot !! 1%nat) =? 12))))
          (seek 2 (example_batch None
                     [(10, false); (11, false); (12, false); (13, false)]))
        = Raise compressed_column_out_of_sync bs')
  /\ (exists bs',
        compressed_batch_advance (example_chunk [] None)
          (example_batch (Some [4]) [(10, false); (11, false)])
        = Raise compressed_column_out_of_sync bs').
Proof.
  split; [split; [reflexivity|discriminate]|]. split_and!.
  - refine (proj1 (proj2 (corruption_is_fatal (example_chunk [] None)))
            _ 3%nat
            {| type := COUNT_COLUMN; typid := INT4OID;
               template_output_attno := 0; compressed_scan_attno := 4;
               bulk_decompression_supported := false |}
            (example_subslot (1, false) (2, false) 0) 0 false _ _ _ _ _);
      [reflexivity..|discriminate].
  - (* the last row is rejected by the row filter, the iterator has one
       more value *)
    refine (proj1 (proj2 (proj2 (corruption_is_fatal _)))
            _ example_slot _ _ _ _); [reflexivity|reflexivity| |].
    + intros k Hk.
      change (rows_left _) with 1%nat in Hk.
      destruct k as [|k]; [|lia]. split; [by vm_compute|]. intros _.
      repeat constructor.
      * intros it Hit. discriminate Hit.
      * intros it [= <-]. reflexivity.
    + eexists _, _.
      split_and!;
        [apply list_elem_of_lookup; by exists 1%nat|reflexivity..].
  - (* the rows before the last one are skipped, the iterator has two
       values *)
    refine (proj1 (proj2 (proj2 (proj2 (corruption_is_fatal _))))
            _ example_slot 2%nat _ _ _ _ _ _);
      [reflexivity|reflexivity|vm_compute; lia| |reflexivity|].
    + intros [|[|i]] Hi; [..|lia];
        (split; [by vm_compute|]; intros Hvq; by vm_compute in Hvq).
    + eexists _, _.
      split_and!;
        [apply list_elem_of_lookup; by exists 1%nat|reflexivity..].
Defined.

Lemma loading_resets_batch_state_witness :
  (left_behind (example_chunk [example_qual] None)
     example_used_batch (example_batch (Some [4]) example_values)
   /\ decompressed_scan_slot example_used_batch
      <> decompressed_scan_slot (example_batch (Some [4]) example_values)
   /\ vectorized_quals (example_chunk [example_qual] None) <> []
   /\ total_batch_rows example_used_batch = 2
   /\ next_batch_row example_used_batch = 2)
  /\ exists bs1 bs2,
       compressed_batch_set_compressed_tuple
         (example_chunk [example_qual] None)
         (example_subslot (1, false) (2, false) 3) example_used_batch
       = Ok tt bs1
       /\ compressed_batch_set_compressed_tuple
            (example_chunk [example_qual] None)
            (example_subslot (1, false) (2, false) 3)
            (example_batch (Some [4]) example_values)
          = Ok tt bs2
       /\ same_rows bs1 bs2
       /\ next_batch_row bs1 = 0
       /\ total_batch_rows bs1 = 3
       /\ vector_qual_result bs1 = Some [4]
       /\ exists rows s1 s2,
            advance_to_exhaustion (example_chunk [example_qual] None) bs1
            = Ok rows s1
            /\ advance_to_exhaustion (example_chunk [example_qual] None) bs2
               = Ok rows s2.
Proof.
  assert (Hleft : left_behind (example_chunk [example_qual] None)
                    example_used_batch
                    (example_batch (Some [4]) example_values)).
  { split_and!; try reflexivity; try (by eexists).
    - eexists _, _. split_and!; reflexivity.
    - eexists _, _. split_and!; [reflexivity|reflexivity| |].
      + split_and!; reflexivity.
      + intros [|[|[|a]]].
        * right. eexists 0%nat, _. split; [reflexivity|].
          split; [split; [by left|reflexivity]|left; simpl; lia].
        * right. eexists 1%nat, _. split; [reflexivity|].
          split; [split; [by left|reflexivity]|left; simpl; lia].
        * right. eexists 2%nat, _. split; [reflexivity|].
          split; [split; [by right|reflexivity]|left; simpl; lia].
        * left. split; reflexivity. }
  split; [split_and!;
            [exact Hleft|discriminate|discriminate|reflexivity|reflexivity]|].
  destruct (loading_resets_batch_state
              (example_chunk [example_qual] None)
              (example_subslot (1, false) (2, false) 3)
              example_used_batch (example_batch (Some [4]) example_values)
              Hleft)
    as (_ & Hagree & _ & Hnext & Hrows).
  - simpl. lia.
  - intros i d. destruct i as [|[|i]]; simpl.
    + intros [= <-] Hne. contradiction Hne. reflexivity.
    + intros [= <-] Hne. contradiction Hne. reflexivity.
    + intros _ _. lia.
  - intros i d. destruct i as [|[|[|[|i]]]]; simpl; try discriminate;
      intros [= <-]; simpl; first [lia|discriminate].
  - intros algorithm header pgtype arrow_array. simpl.
    destruct (algorithm =? 1); [|discriminate].
    intros [= <-]. by eexists.
  - left. discriminate.
  - destruct (compressed_batch_set_compressed_tuple
                (example_chunk [example_qual] None)
                (example_subslot (1, false) (2, false) 3) example_used_batch)
      as [[] bs1|e1 bs1] eqn:Hrun1; [|by vm_compute in Hrun1].
    destruct (compressed_batch_set_compressed_tuple
                (example_chunk [example_qual] None)
                (example_subslot (1, false) (2, false) 3)
                (example_batch (Some [4]) example_values))
      as [[] bs2|e2 bs2] eqn:Hrun2; [|contradiction Hagree].
    destruct Hagree as [_ Hsame].
    exists bs1, bs2.
    split_and!; [reflexivity|reflexivity|exact Hsame|by apply Hnext| | |].
    + vm_compute in Hrun1. by injection Hrun1 as <-.
    + vm_compute in Hrun1. by injection Hrun1 as <-.
    + pose proof Hsame as (_ & slot1 & slot2 & Hs1 & Hs2 & _).
      destruct (Hrows bs1 bs2 slot1 slot2 Hsame Hs1 Hs2) as [_ Hscan].
      apply Hscan; vm_compute in Hrun1; injection Hrun1 as <-;
        [vm_compute; discriminate|reflexivity..].
Defined.

Lemma skipped_row_drops_iterator_results_witness :
  (length (compressed_columns
             (seek 1 (example_batch (Some [1]) [(10, false)]))) = 2%nat
   /\ compressed_batch_vector_qual (example_chunk [] None)
        (seek 1 (example_batch (Some [1]) [(10, false)])) = false
   /\ Forall (reports_done true)
        (compressed_columns (seek 1 (example_batch (Some [1]) [(10, false)]))))
  /\ for_range 0 2 skip_column
       (seek 1 (example_batch (Some [1]) [(10, false)]))
     = Ok tt (with_progress 1
                (pull_n 2 <$> compressed_columns
                                (example_batch (Some [1]) [(10, false)]))
                example_slot (example_batch (Some [1]) [(10, false)]))
  /\ compressed_batch_advance (example_chunk [] None)
       (seek 1 (example_batch (Some [1]) [(10, false)]))
     = compressed_batch_advance (example_chunk [] None)
         (with_progress 2
            (pull_n 2 <$> compressed_columns
                            (example_batch (Some [1]) [(10, false)]))
            example_slot (example_batch (Some [1]) [(10, false)])).
Proof.
  split.
  { split_and!; [reflexivity|reflexivity|].
    repeat constructor.
    - intros it Hit. discriminate Hit.
    - intros it [= <-]. reflexivity. }
  destruct (skipped_row_drops_iterator_results (example_chunk [] None)
              (seek 1 (example_batch (Some [1]) [(10, false)])) example_slot
              eq_refl eq_refl) as (Hskip & Hnext & _).
  split; [exact Hskip|].
  refine (Hnext _ _); [simpl; lia|reflexivity].
Defined.

(** ** What loading a batch establishes *)

Lemma to_int_range value : - 2 ^ 31 <= to_int value <= INT_MAX.
Proof.
  unfold to_int, INT_MAX.
  pose proof (Z.mod_pos_bound (value + 2 ^ 31) (2 ^ 32) ltac:(lia)). lia.
Qed.

Lemma to_int_id value :
  - 2 ^ 31 <= value <= INT_MAX -> to_int value = value.
Proof.
  unfold to_int, INT_MAX. intros Hvalue.
  rewrite Z.mod_small by lia. lia.
Qed.

Lemma DatumGetInt32_range value :
  - 2 ^ 31 <= DatumGetInt32 value <= INT_MAX.
Proof.
  unfold DatumGetInt32, INT_MAX. cbv zeta.
  pose proof (Z.mod_pos_bound value (2 ^ 32) ltac:(lia)).
  destruct (_ <? 2 ^ 31) eqn:Hlow; [apply Z.ltb_lt in Hlow|apply Z.ltb_ge in Hlow];
    lia.
Qed.

Lemma for_range_Ok_invariant (Inv : nat -> DecompressBatchState -> Prop)
    count : forall first body bs bs',
  Inv first bs ->
  (forall i s s', (first <= i < first + count)%nat -> Inv i s ->
     body i s = Ok tt s' -> Inv (S i) s') ->
  for_range first count body bs = Ok tt bs' ->
  Inv (first + count)%nat bs'.
Proof.
  induction count as [|count IH]; intros first body bs bs' H0 Hstep; simpl.
  - intros [= <-]. by rewrite Nat.add_0_r.
  - intros ([] & s1 & Hb & Hl)%bind_Ok_inv.
    replace (first + S count)%nat with (S first + count)%nat by lia.
    apply (IH (S first) body s1 bs'); [|intros i s s' Hi; apply Hstep; lia|done].
    apply (Hstep first bs s1); [lia|done..].
Qed.

Section Load.
Context `{Collaborators}.

Lemma set_column_from_tuple_Ok chunk_state i s s' :
  set_column_from_tuple chunk_state i s = Ok tt s' ->
  exists d, template_columns chunk_state !! i = Some d
            /\ column_step_effect chunk_state i d s s'.
Proof.
  unfold set_column_from_tuple.
  destruct (template_columns chunk_state !! i) as [d|] eqn:Hd; [|done].
  intros Hrun. exists d. split; [done|]. unfold column_step_effect.
  destruct (type d) eqn:Htype.
  - rewrite bind_get_run in Hrun.
    destruct (compressed_slot s) as [compressed|] eqn:Hc; [|done].
    destruct (slot_getattr compressed _) as [value isnull] eqn:Hattr.
    apply update_scan_slot_Ok in Hrun as (slot & Hslot & ->).
    exists compressed, slot. by rewrite Hattr.
  - unfold set_compressed_column in Hrun.
    apply bind_Ok_inv in Hrun as (c0 & s0 & Hcol & Hrun).
    unfold column_at in Hcol.
    destruct (compressed_columns s !! i) as [c|] eqn:Hc0; [|done].
    injection Hcol as <- <-.
    unfold set_column in Hrun. rewrite bind_modify, bind_get_run in Hrun.
    cbn [compressed_slot with_compressed_columns] in Hrun.
    destruct (compressed_slot s) as [compressed|] eqn:Hc; [|done].
    exists compressed, c. split; [done|]. split; [done|]. cbv zeta.
    destruct (slot_getattr compressed _) as [value isnull] eqn:Hattr.
    cbn [fst snd]. destruct isnull.
    + apply update_scan_slot_Ok in Hrun as (slot & Hslot & ->).
      exists slot. split; [done|]. simpl.
      by destruct (getmissingattr _ _).
    + destruct (if _ && _ then _ else None) as [arrow_array|].
      * apply bind_Ok_inv in Hrun as ([] & s1 & Htotal & Hrun).
        cbn [total_batch_rows with_compressed_columns] in Htotal.
        injection Hrun as <-.
        destruct (total_batch_rows s =? 0) eqn:Hzero.
        -- injection Htotal as <-. apply Z.eqb_eq in Hzero. split; [by left|].
           unfold with_compressed_columns, with_total_batch_rows. simpl.
           by rewrite list_insert_insert_eq.
        -- destruct (total_batch_rows s =? arrow_length arrow_array) eqn:Heq;
             [|done].
           injection Htotal as <-. apply Z.eqb_eq in Heq.
           split; [by right|].
           unfold with_compressed_columns, with_total_batch_rows. simpl.
           by rewrite list_insert_insert_eq.
      * injection Hrun as <-.
        unfold with_compressed_columns. simpl.
        by rewrite list_insert_insert_eq.
  - rewrite bind_get_run in Hrun.
    destruct (compressed_slot s) as [compressed|] eqn:Hc; [|done].
    exists compressed. split; [done|]. cbv zeta.
    destruct (slot_getattr compressed _) as [value isnull] eqn:Hattr.
    cbn [fst]. destruct (_ <=? 0) eqn:Hpos; [done|]. apply Z.leb_gt in Hpos.
    split; [done|].
    destruct (total_batch_rows s =? 0) eqn:Hzero.
    + injection Hrun as <-. apply Z.eqb_eq in Hzero. split; [by left|done].
    + destruct (total_batch_rows s =? DatumGetInt32 value) eqn:Heq; [|done].
      injection Hrun as <-. apply Z.eqb_eq in Heq.
      split; [by right|]. rewrite <- Heq. by destruct s.
  - by injection Hrun as <-.
Qed.

Lemma column_step_effect_frame chunk_state i d s s' :
  column_step_effect chunk_state i d s s' ->
  compressed_slot s' = compressed_slot s
  /\ next_batch_row s' = next_batch_row s
  /\ per_batch_context s' = per_batch_context s
  /\ vector_qual_result s' = vector_qual_result s
  /\ predicate_calls s' = predicate_calls s
  /\ (total_batch_rows s' = total_batch_rows s \/ total_batch_rows s = 0)
  /\ length (compressed_columns s') = length (compressed_columns s)
  /\ (forall j, j <> i ->
        compressed_columns s' !! j = compressed_columns s !! j)
  /\ (type d <> COMPRESSED_COLUMN ->
      compressed_columns s' = compressed_columns s).
Proof.
  unfold column_step_effect. destruct (type d).
  - intros (compressed & slot & _ & _ & ->). simpl.
    split_and!; try done. by left.
  - intros (compressed & c0 & _ & _ & Heffect). cbv zeta in Heffect.
    destruct (slot_getattr compressed _).2.
    + destruct Heffect as (slot & _ & ->). simpl.
      split_and!; try done.
      * by left.
      * by rewrite length_insert.
      * intros j Hj. by rewrite list_lookup_insert_ne.
    + destruct (if _ && _ then _ else None) as [arrow_array|].
      * destruct Heffect as [Htotal ->]. simpl.
        split_and!; try done.
        -- destruct (total_batch_rows s =? 0) eqn:Hzero;
             [right; by apply Z.eqb_eq|by left].
        -- by rewrite length_insert.
        -- intros j Hj. by rewrite list_lookup_insert_ne.
      * subst s'. simpl. split_and!; try done.
        -- by left.
        -- by rewrite length_insert.
        -- intros j Hj. by rewrite list_lookup_insert_ne.
  - intros (compressed & _ & _ & Htotal & ->). simpl.
    split_and!; try done. destruct Htotal as [?|?]; [by right|by left].
  - intros ->. split_and!; try done. by left.
Qed.

(** The parts of [compressed_batch_set_compressed_tuple]. *)
Lemma compressed_batch_set_compressed_tuple_Ok chunk_state subslot bs bs' :
  compressed_batch_set_compressed_tuple chunk_state subslot bs = Ok tt bs' ->
  exists r0 r1,
    prepare_batch_state chunk_state subslot bs = Ok tt r0
    /\ for_range 0 (num_total_columns chunk_state)
         (set_column_from_tuple chunk_state) r0 = Ok tt r1
    /\ apply_vector_quals chunk_state r1 = Ok tt bs'.
Proof.
  unfold compressed_batch_set_compressed_tuple.
  intros ([] & r0 & Hprepare & Hrun)%bind_Ok_inv.
  apply bind_Ok_inv in Hrun as ([] & r1 & Hloop & Hquals).
  by exists r0, r1.
Qed.

Lemma prepare_batch_state_Ok chunk_state subslot bs r0 :
  prepare_batch_state chunk_state subslot bs = Ok tt r0 ->
  total_batch_rows r0 = 0
  /\ next_batch_row r0 = 0
  /\ per_batch_context r0 = Some []
  /\ vector_qual_result r0 = vector_qual_result bs
  /\ compressed_columns r0 = compressed_columns bs
  /\ predicate_calls r0 = predicate_calls bs
  /\ (exists compressed,
        compressed_slot r0 = Some (ExecCopySlot compressed subslot)
        /\ if is_NULL (per_batch_context bs)
           then compressed
                = MakeSingleTupleTableSlot (tts_tupleDescriptor subslot)
           else compressed_slot bs = Some compressed)
  /\ decompressed_scan_slot r0
     = if is_NULL (per_batch_context bs)
       then Some (ExecClearTuple (ExecStoreAllNullTuple
              (MakeSingleTupleTableSlot
                 (tts_tupleDescriptor (ss_ScanTupleSlot chunk_state)))))
       else decompressed_scan_slot bs.
Proof.
  unfold prepare_batch_state. rewrite bind_get_run.
  destruct (per_batch_context bs) as [context|]; cbn [is_NULL].
  - unfold bind at 1, ret at 1. rewrite bind_get_run.
    destruct (compressed_slot bs) as [compressed|] eqn:Hc; [|done].
    intros [= <-]. simpl. split_and!; try done. by exists compressed.
  - intros [= <-]. simpl. split_and!; try done. by eexists.
Qed.

Lemma preserves_apply_vector_quals {X} (part : DecompressBatchState -> X)
    chunk_state :
  (forall v s, part (with_vector_qual_result v s) = part s) ->
  (forall v s, part (with_per_batch_context v s) = part s) ->
  (forall v s, part (with_predicate_calls v s) = part s) ->
  preserves part (apply_vector_quals chunk_state).
Proof.
  intros Hv Hp Hc.
  unfold apply_vector_quals, apply_vector_qual, make_single_value_arrow,
    call_predicate, palloc_size, palloc.
  repeat match goal with
  | |- preserves _ (bind _ _) => apply preserves_bind; [|intros ?]
  | |- preserves _ (for_range _ _ _) => apply preserves_for_range; intros ?
  | |- preserves _ (foreach _ _) => apply preserves_foreach; intros ?
  | |- preserves _ (modify _) =>
      apply preserves_modify; intros ?; first [apply Hv|apply Hp|apply Hc]
  | |- preserves _ (match ?x with _ => _ end) => destruct x
  | |- preserves _ _ => solve [auto with preserves]
  end.
Qed.

Lemma apply_vector_quals_frame chunk_state r1 bs' :
  apply_vector_quals chunk_state r1 = Ok tt bs' ->
  compressed_slot bs' = compressed_slot r1
  /\ decompressed_scan_slot bs' = decompressed_scan_slot r1
  /\ total_batch_rows bs' = total_batch_rows r1
  /\ next_batch_row bs' = next_batch_row r1
  /\ compressed_columns bs' = compressed_columns r1.
Proof.
  intros Hrun.
  pose proof (preserves_apply_vector_quals
                (fun s => (compressed_slot s, decompressed_scan_slot s,
                           total_batch_rows s, next_batch_row s,
                           compressed_columns s))
                chunk_state ltac:(done) ltac:(done) ltac:(done) r1) as Hsame.
  rewrite Hrun in Hsame. simpl in Hsame. by injection Hsame as -> -> -> -> ->.
Qed.

(** X1: the row count of a loaded batch is the value of the count column,
    which is positive. *)
Theorem loaded_row_count_is_count_column chunk_state subslot bs bs' j d :
  compressed_batch_set_compressed_tuple chunk_state subslot bs = Ok tt bs' ->
  (j < num_total_columns chunk_state)%nat ->
  template_columns chunk_state !! j = Some d ->
  type d = COUNT_COLUMN ->
  exists compressed,
    compressed_slot bs' = Some compressed
    /\ tts_values compressed = tts_values subslot
    /\ tts_isnull compressed = tts_isnull subslot
    /\ total_batch_rows bs'
       = DatumGetInt32 (slot_getattr compressed (compressed_scan_attno d)).1
    /\ 0 < total_batch_rows bs'.
Proof.
  intros (r0 & r1 & Hprepare & Hloop & Hquals)%compressed_batch_set_compressed_tuple_Ok
         Hj Hd Htype.
  apply prepare_batch_state_Ok in Hprepare
    as (_ & _ & _ & _ & _ & _ & (c & Hc & _) & _).
  apply apply_vector_quals_frame in Hquals as (-> & _ & -> & _).
  set (count := DatumGetInt32
                  (slot_getattr (ExecCopySlot c subslot)
                     (compressed_scan_attno d)).1).
  apply (for_range_Ok_invariant
           (fun i s => compressed_slot s = Some (ExecCopySlot c subslot)
                       /\ ((j < i)%nat ->
                           total_batch_rows s = count /\ 0 < count)))
    in Hloop.
  - destruct Hloop as [Hslot [Htotal Hpos]]; [done|].
    exists (ExecCopySlot c subslot). split_and!; try done. by rewrite Htotal.
  - split; [done|lia].
  - intros i s s' _ [Hslot Hcount] (d' & Hd' & Heffect)%set_column_from_tuple_Ok.
    pose proof (column_step_effect_frame _ _ _ _ _ Heffect)
      as (Hslot' & _ & _ & _ & _ & Htotal & _).
    split; [congruence|]. intros Hi.
    destruct (decide (i = j)) as [->|Hne].
    + rewrite Hd in Hd'. injection Hd' as <-.
      unfold column_step_effect in Heffect. rewrite Htype in Heffect.
      destruct Heffect as (compressed & Hcompressed & Hpos & _ & ->).
      rewrite Hslot in Hcompressed. injection Hcompressed as <-. done.
    + destruct Hcount as [Hcount Hpos]; [lia|].
      split; [|done]. destruct Htotal as [?|?]; lia.
Qed.

(** The row count is a C [int] while a batch is loaded. *)
Lemma column_step_effect_int chunk_state i d s s' :
  column_step_effect chunk_state i d s s' ->
  - 2 ^ 31 <= total_batch_rows s <= INT_MAX ->
  - 2 ^ 31 <= total_batch_rows s' <= INT_MAX.
Proof.
  unfold column_step_effect. destruct (type d).
  - by intros (compressed & slot & _ & _ & ->).
  - intros (compressed & c0 & _ & _ & Heffect). cbv zeta in Heffect.
    destruct (slot_getattr compressed _).2.
    + by destruct Heffect as (slot & _ & ->).
    + destruct (if _ && _ then _ else None) as [arrow_array|].
      * destruct Heffect as [_ ->]. simpl.
        destruct (total_batch_rows s =? 0); [|done].
        intros _. apply to_int_range.
      * by subst s'.
  - intros (compressed & _ & _ & _ & ->). simpl. intros _.
    apply DatumGetInt32_range.
  - by intros ->.
Qed.

(** X2: every column of a loaded batch that is in bulk form has as many
    rows as the batch, or none, the 64-bit length that the decoder reports
    being narrowed to the [int] of the row count; so has the length itself
    when it is in the range of [int]. *)
Theorem loaded_bulk_columns_have_batch_length
    chunk_state subslot bs bs' j d c arrow_array :
  compressed_batch_set_compressed_tuple chunk_state subslot bs = Ok tt bs' ->
  (j < num_total_columns chunk_state)%nat ->
  template_columns chunk_state !! j = Some d ->
  type d = COMPRESSED_COLUMN ->
  compressed_columns bs' !! j = Some c ->
  arrow c = Some arrow_array ->
  (to_int (arrow_length arrow_array) = total_batch_rows bs'
   \/ to_int (arrow_length arrow_array) = 0)
  /\ (- 2 ^ 31 <= arrow_length arrow_array <= INT_MAX ->
      arrow_length arrow_array = total_batch_rows bs'
      \/ arrow_length arrow_array = 0).
Proof.
  intros (r0 & r1 & Hprepare & Hloop & Hquals)%compressed_batch_set_compressed_tuple_Ok
         Hj Hd Htype.
  apply prepare_batch_state_Ok in Hprepare as (Hzero & _).
  apply apply_vector_quals_frame in Hquals as (_ & _ & -> & _ & ->).
  intros Hc Harrow.
  enough (Hnarrow : to_int (arrow_length arrow_array) = total_batch_rows r1
                    \/ to_int (arrow_length arrow_array) = 0).
  { split; [done|]. intros Hint. by rewrite (to_int_id _ Hint) in Hnarrow. }
  pose (Inv := fun (i : nat) s =>
    - 2 ^ 31 <= total_batch_rows s <= INT_MAX
    /\ ((j < i)%nat ->
        forall c arrow_array,
          compressed_columns s !! j = Some c ->
          arrow c = Some arrow_array ->
          to_int (arrow_length arrow_array) = total_batch_rows s
          \/ to_int (arrow_length arrow_array) = 0)).
  enough (Hinv : Inv (0 + num_total_columns chunk_state)%nat r1)
    by (by apply (proj2 Hinv ltac:(simpl; lia) c arrow_array)).
  apply (for_range_Ok_invariant Inv (num_total_columns chunk_state) 0
           (set_column_from_tuple chunk_state) r0 r1);
    [unfold Inv, INT_MAX; split; lia| |done].
  clear c arrow_array Hc Harrow. unfold Inv.
  intros i s s' _ [Hint Hinv] (d' & Hd' & Heffect)%set_column_from_tuple_Ok.
  split; [by apply (column_step_effect_int _ _ _ _ _ Heffect)|].
  intros Hi c arrow_array Hc Harrow.
  pose proof (column_step_effect_frame _ _ _ _ _ Heffect)
    as (_ & _ & _ & _ & _ & Htotal & _ & Hother & _).
  destruct (decide (i = j)) as [->|Hne].
  - rewrite Hd in Hd'. injection Hd' as <-.
    unfold column_step_effect in Heffect. rewrite Htype in Heffect.
    destruct Heffect as (compressed & c0 & _ & Hc0 & Heffect).
    apply lookup_lt_Some in Hc0. cbv zeta in Heffect.
    destruct (slot_getattr compressed _).2.
    + destruct Heffect as (slot & _ & ->). simpl in Hc.
      rewrite list_lookup_insert_eq in Hc by done.
      injection Hc as <-. done.
    + destruct (if _ && _ then _ else None) as [array|].
      * destruct Heffect as [Hequal ->]. simpl in *.
        rewrite list_lookup_insert_eq in Hc by done.
        injection Hc as <-. simpl in Harrow. injection Harrow as <-.
        left. destruct (total_batch_rows s =? 0) eqn:Hz; [done|].
        apply Z.eqb_neq in Hz. destruct Hequal as [?|Hequal]; [done|].
        rewrite <- Hequal. by apply to_int_id.
      * subst s'. simpl in Hc.
        rewrite list_lookup_insert_eq in Hc by done.
        injection Hc as <-. done.
  - rewrite Hother in Hc by done.
    destruct (Hinv ltac:(lia) c arrow_array Hc Harrow) as [Hlen|Hlen];
      [|by right].
    destruct Htotal as [Htotal|Htotal]; [left|right]; lia.
Qed.
End Load.

(** ** Attributes that the materializer leaves alone *)

Lemma keeps_bind {A B} Inv (m : Exec A) (k : A -> Exec B) :
  keeps Inv m -> (forall a, keeps Inv (k a)) -> keeps Inv (bind m k).
Proof.
  intros Hm Hk bs Hinv. unfold bind. specialize (Hm bs Hinv).
  destruct (m bs) as [a bs1|e bs1]; [|done]. by apply Hk.
Qed.

Lemma keeps_for_range Inv count : forall first body,
  (forall i, keeps Inv (body i)) -> keeps Inv (for_range first count body).
Proof.
  induction count as [|count IH]; intros first body Hbody; [by intros bs|].
  apply keeps_bind; [apply Hbody|]. intros _. by apply IH.
Qed.

Lemma keeps_ret {A} Inv (a : A) : keeps Inv (ret a).
Proof. by intros bs. Qed.

Lemma keeps_modify Inv f :
  (forall bs, Inv bs -> Inv (f bs)) -> keeps Inv (modify f).
Proof. intros Hf bs. apply Hf. Qed.

Lemma slot_attribute_store a attr v b slot :
  attr <> Z.of_nat a ->
  tts_values (slot_store attr v b slot) !! a = tts_values slot !! a
  /\ tts_isnull (slot_store attr v b slot) !! a = tts_isnull slot !! a.
Proof.
  intros Hne. unfold slot_store. destruct (attr <? 0) eqn:Hneg; [done|].
  apply Z.ltb_ge in Hneg. simpl.
  rewrite !list_lookup_insert_ne by lia. done.
Qed.

Lemma attribute_kept_update_slot a v f :
  (forall slot, tts_values (f slot) !! a = tts_values slot !! a
                /\ tts_isnull (f slot) !! a = tts_isnull slot !! a) ->
  keeps (attribute_kept a v) (update_scan_slot f).
Proof.
  intros Hf bs [Hslot Hcols]. unfold update_scan_slot, scan_slot, bind, modify.
  destruct (decompressed_scan_slot bs) as [slot|] eqn:Hs; simpl; [|done].
  split; [|done]. unfold slot_attribute in *. rewrite Hs in Hslot. simpl in *.
  destruct (Hf slot) as [-> ->]. done.
Qed.

(** Pulling a value keeps the columns as they are, up to the position of
    the iterator. *)
Lemma attribute_kept_try_next a v i c it bs :
  compressed_columns bs !! i = Some c -> iterator c = Some it ->
  attribute_kept a v bs ->
  attribute_kept a v
    (with_compressed_columns
       (<[i := with_iterator (Some (try_next it).2) c]> (compressed_columns bs))
       bs).
Proof.
  intros Hc Hit [Hslot Hcols]. split; [done|]. simpl.
  intros c' [j Hj]%list_elem_of_lookup.
  destruct (decide (j = i)) as [->|Hne].
  - rewrite list_lookup_insert_eq in Hj by (by eapply lookup_lt_Some).
    injection Hj as <-. intros [_ Hattr].
    apply (Hcols c); [by eapply list_elem_of_lookup_2|].
    split; [left; by eexists|done].
  - rewrite list_lookup_insert_ne in Hj by done.
    apply Hcols. by eapply list_elem_of_lookup_2.
Qed.

Lemma keeps_skip_column a v i : keeps (attribute_kept a v) (skip_column i).
Proof.
  intros bs Hinv. unfold skip_column, column_at, bind.
  destruct (compressed_columns bs !! i) as [c|] eqn:Hc; [|done].
  destruct (iterator c) as [it|] eqn:Hit; [|done].
  unfold iterator_try_next, set_column, bind, modify, ret.
  destruct (try_next it) as [result it'] eqn:Hnext. simpl.
  replace it' with (try_next it).2 by (by rewrite Hnext).
  by apply attribute_kept_try_next.
Qed.

Lemma keeps_check_column_done a v i :
  keeps (attribute_kept a v) (check_column_done i).
Proof.
  intros bs Hinv. unfold check_column_done, column_at, bind.
  destruct (compressed_columns bs !! i) as [c|] eqn:Hc; [|done].
  destruct (iterator c) as [it|] eqn:Hit; [|done].
  unfold iterator_try_next, set_column, bind, modify, ret.
  destruct (try_next it) as [result it'] eqn:Hnext. simpl.
  replace it' with (try_next it).2 by (by rewrite Hnext).
  destruct (negb (is_done result)); simpl; by apply attribute_kept_try_next.
Qed.

Lemma keeps_make_next_column a v arrow_row i :
  keeps (attribute_kept a v) (make_next_column arrow_row i).
Proof.
  intros bs Hinv. unfold make_next_column, column_at, bind.
  destruct (compressed_columns bs !! i) as [c|] eqn:Hc; [|done].
  assert (Hattr : per_row c ->
            AttrNumberGetAttrOffset (output_attno c) <> Z.of_nat a).
  { intros Hrow Heq. destruct Hinv as [_ Hcols].
    apply (Hcols c); [by eapply list_elem_of_lookup_2|done]. }
  destruct (iterator c) as [it|] eqn:Hit.
  - unfold iterator_try_next, set_column, bind, modify, ret.
    destruct (try_next it) as [result it'] eqn:Hnext. simpl.
    pose proof (attribute_kept_try_next a v i c it bs Hc Hit Hinv) as Hkept.
    rewrite Hnext in Hkept. simpl in Hkept.
    destruct (is_done result); [done|].
    apply (attribute_kept_update_slot a v); [|done].
    intros slot. apply slot_attribute_store, Hattr. left. by eexists.
  - destruct (arrow_values c) as [src|] eqn:Hsrc; [|done].
    apply (attribute_kept_update_slot a v); [|done].
    intros slot. apply slot_attribute_store, Hattr. right. by eexists.
Qed.

Lemma keeps_scan_slot Inv : keeps Inv scan_slot.
Proof.
  intros bs Hinv. unfold scan_slot. by destruct (decompressed_scan_slot bs).
Qed.

Lemma keeps_make_next_tuple a v chunk_state :
  keeps (attribute_kept a v) (compressed_batch_make_next_tuple chunk_state).
Proof.
  unfold compressed_batch_make_next_tuple.
  apply keeps_bind; [by intros bs|]. intros batch_state.
  apply keeps_bind; [apply keeps_for_range, keeps_make_next_column|].
  intros _. apply keeps_bind; [apply keeps_scan_slot|]. intros slot.
  destruct (tts_empty slot); [|apply keeps_ret].
  by apply attribute_kept_update_slot.
Qed.

Lemma keeps_postgres_qual Inv chunk_state :
  keeps Inv (compressed_batch_postgres_qual chunk_state).
Proof.
  unfold compressed_batch_postgres_qual.
  destruct (qual chunk_state); [|apply keeps_ret].
  apply keeps_bind; [apply keeps_scan_slot|]. intros slot. apply keeps_ret.
Qed.

Lemma keeps_next_batch_row_incr a v :
  keeps (attribute_kept a v) next_batch_row_incr.
Proof. by apply keeps_modify. Qed.

Lemma keeps_advance_loop a v chunk_state fuel :
  keeps (attribute_kept a v) (advance_loop fuel chunk_state).
Proof.
  induction fuel as [|fuel IH]; intros bs Hinv.
  - destruct (next_batch_row bs <? total_batch_rows bs) eqn:Hcur.
    + simpl. unfold bind, get. by rewrite Hcur.
    + rewrite advance_loop_end by done. clear Hcur; revert bs Hinv.
      apply keeps_bind; [apply keeps_for_range, keeps_check_column_done|].
      intros _. by apply attribute_kept_update_slot.
  - destruct (next_batch_row bs <? total_batch_rows bs) eqn:Hcur.
    + rewrite advance_loop_step by done.
      destruct (compressed_batch_vector_qual chunk_state bs);
        clear Hcur; revert bs Hinv.
      * apply keeps_bind; [apply keeps_make_next_tuple|]. intros _.
        apply keeps_bind; [apply keeps_postgres_qual|]. intros passed.
        destruct passed; [apply keeps_next_batch_row_incr|].
        apply keeps_bind; [apply keeps_next_batch_row_incr|]. by intros _.
      * apply keeps_bind; [apply keeps_for_range, keeps_skip_column|].
        intros _.
        apply keeps_bind; [apply keeps_next_batch_row_incr|]. by intros _.
    + rewrite advance_loop_end by done. clear Hcur; revert bs Hinv.
      apply keeps_bind; [apply keeps_for_range, keeps_check_column_done|].
      intros _. by apply attribute_kept_update_slot.
Qed.

Lemma keeps_compressed_batch_advance a v chunk_state :
  keeps (attribute_kept a v) (compressed_batch_advance chunk_state).
Proof.
  intros bs Hinv. unfold compressed_batch_advance. rewrite bind_get_run.
  by apply keeps_advance_loop.
Qed.

Lemma keeps_compressed_batch_save_first_tuple a v chunk_state first_tuple_slot :
  keeps (attribute_kept a v)
    (compressed_batch_save_first_tuple chunk_state first_tuple_slot).
Proof.
  unfold compressed_batch_save_first_tuple.
  apply keeps_bind; [apply keeps_make_next_tuple|]. intros _.
  apply keeps_bind; [apply keeps_scan_slot|]. intros slot.
  apply keeps_bind; [by intros bs|]. intros batch_state.
  apply keeps_bind.
  { destruct (compressed_batch_vector_qual _ _);
      [apply keeps_postgres_qual|apply keeps_ret]. }
  intros passed.
  apply keeps_bind; [apply keeps_next_batch_row_incr|]. intros _.
  apply keeps_bind; [|intros _; apply keeps_ret].
  destruct (negb passed); [apply keeps_compressed_batch_advance|apply keeps_ret].
Qed.

(** X3: [compressed_batch_advance] and [compressed_batch_save_first_tuple]
    change the output slot only at the attributes of the columns that are
    decoded row by row or in bulk form: any other attribute, such as a
    segment-by value or a default value stored when the batch was loaded, is
    left as it is, whether the call returns or raises an error. *)
Theorem advance_leaves_other_attributes chunk_state first_tuple_slot bs a :
  (forall c, c ∈ compressed_columns bs -> ~ owns a c) ->
  slot_attribute a (outcome_state (compressed_batch_advance chunk_state bs))
  = slot_attribute a bs
  /\ slot_attribute a
       (outcome_state
          (compressed_batch_save_first_tuple chunk_state first_tuple_slot bs))
     = slot_attribute a bs.
Proof.
  intros Hcols. split.
  - by apply (keeps_compressed_batch_advance a (slot_attribute a bs)).
  - by apply (keeps_compressed_batch_save_first_tuple a (slot_attribute a bs)).
Qed.

(** ** Values stored once for the batch *)

Section Stored.
Context `{Collaborators}.

Lemma column_step_effect_shape chunk_state i d s s' :
  column_step_effect chunk_state i d s s' -> slot_shape s' = slot_shape s.
Proof.
  assert (Hstore : forall attr v b slot,
    (tts_tupleDescriptor (slot_store attr v b slot),
     length (tts_values (slot_store attr v b slot)),
     length (tts_isnull (slot_store attr v b slot)))
    = (tts_tupleDescriptor slot, length (tts_values slot),
       length (tts_isnull slot))).
  { intros attr v b slot. unfold slot_store.
    destruct (attr <? 0); [done|]. simpl. by rewrite !length_insert. }
  unfold column_step_effect, slot_shape. destruct (type d).
  - intros (compressed & slot & _ & Hslot & ->). simpl.
    by rewrite Hslot, Hstore.
  - intros (compressed & c0 & _ & _ & Heffect). cbv zeta in Heffect.
    destruct (slot_getattr compressed _).2.
    + destruct Heffect as (slot & Hslot & ->). simpl.
      by rewrite Hslot, Hstore.
    + destruct (if _ && _ then _ else None) as [arrow_array|].
      * by destruct Heffect as [_ ->].
      * by subst s'.
  - by intros (compressed & _ & _ & _ & ->).
  - by intros ->.
Qed.

(** A step whose template does not store at offset [a] leaves the
    attribute alone. *)
Lemma column_step_effect_attribute chunk_state i d s s' a :
  column_step_effect chunk_state i d s s' -> ~ stores_at d a ->
  slot_attribute a s' = slot_attribute a s.
Proof.
  unfold column_step_effect, slot_attribute, stores_at.
  destruct (type d) eqn:Htype.
  - intros (compressed & slot & _ & Hslot & ->) Hne. simpl. rewrite Hslot.
    simpl. f_equal.
    destruct (slot_attribute_store a
                (AttrNumberGetAttrOffset (template_output_attno d))
                (slot_getattr compressed (compressed_scan_attno d)).1
                (slot_getattr compressed (compressed_scan_attno d)).2 slot)
      as [-> ->]; [|done].
    intros Heq. apply Hne. split; [by right|done].
  - intros (compressed & c0 & _ & _ & Heffect) Hne. cbv zeta in Heffect.
    destruct (slot_getattr compressed _).2.
    + destruct Heffect as (slot & Hslot & ->). simpl. rewrite Hslot.
      simpl. f_equal.
      match goal with
      | |- context [slot_store ?attr ?v ?b slot] =>
          destruct (slot_attribute_store a attr v b slot) as [-> ->]; [|done]
      end.
      intros Heq. apply Hne. split; [by left|done].
    + destruct (if _ && _ then _ else None) as [arrow_array|].
      * by destruct Heffect as [_ ->].
      * by subst s'.
  - by intros (compressed & _ & _ & _ & ->) _.
  - by intros -> _.
Qed.

Lemma slot_attribute_stored a v b slot :
  (a < length (tts_values slot))%nat -> (a < length (tts_isnull slot))%nat ->
  tts_values (slot_store (Z.of_nat a) v b slot) !! a = Some v
  /\ tts_isnull (slot_store (Z.of_nat a) v b slot) !! a = Some b.
Proof.
  intros Hv Hn. unfold slot_store.
  rewrite (proj2 (Z.ltb_ge (Z.of_nat a) 0)) by lia. simpl.
  rewrite Nat2Z.id. by rewrite !list_lookup_insert_eq by done.
Qed.

(** The loop over the templates keeps the shape of the output slot and the
    compressed tuple. *)
Lemma load_loop_shape chunk_state r0 r1 :
  for_range 0 (num_total_columns chunk_state)
    (set_column_from_tuple chunk_state) r0 = Ok tt r1 ->
  slot_shape r1 = slot_shape r0
  /\ compressed_slot r1 = compressed_slot r0
  /\ length (compressed_columns r1) = length (compressed_columns r0).
Proof.
  intros Hloop.
  apply (for_range_Ok_invariant
           (fun _ s => slot_shape s = slot_shape r0
                       /\ compressed_slot s = compressed_slot r0
                       /\ length (compressed_columns s)
                          = length (compressed_columns r0))
           (num_total_columns chunk_state) 0
           (set_column_from_tuple chunk_state) r0 r1); [done| |done].
  intros i s s' _ (Hshape & Hslot & Hlen)
         (d & _ & Heffect)%set_column_from_tuple_Ok.
  pose proof (column_step_effect_frame _ _ _ _ _ Heffect)
    as (Hslot' & _ & _ & _ & _ & _ & Hlen' & _).
  pose proof (column_step_effect_shape _ _ _ _ _ Heffect) as Hshape'.
  split_and!; congruence.
Qed.

(** What step [j] of the loop establishes and the later steps keep holds
    after the loop. *)
Lemma load_loop_established chunk_state
    (P Q : DecompressBatchState -> Prop) r0 r1 j :
  (j < num_total_columns chunk_state)%nat ->
  P r0 ->
  (forall i s s', P s -> set_column_from_tuple chunk_state i s = Ok tt s' ->
                  P s') ->
  (forall s s', P s -> set_column_from_tuple chunk_state j s = Ok tt s' ->
                Q s') ->
  (forall i s s', (j < i < num_total_columns chunk_state)%nat -> P s -> Q s ->
                  set_column_from_tuple chunk_state i s = Ok tt s' -> Q s') ->
  for_range 0 (num_total_columns chunk_state)
    (set_column_from_tuple chunk_state) r0 = Ok tt r1 ->
  P r1 /\ Q r1.
Proof.
  intros Hj HP0 HP Hstored Hlater Hloop.
  pose (Inv := fun (i : nat) s => P s /\ ((j < i)%nat -> Q s)).
  enough (Hinv : Inv (0 + num_total_columns chunk_state)%nat r1)
    by (split; apply Hinv; simpl; lia).
  apply (for_range_Ok_invariant Inv (num_total_columns chunk_state) 0
           (set_column_from_tuple chunk_state) r0 r1);
    [split; [done|lia]| |done].
  intros i s s' Hi [HPs HQ] Hstep. split; [by eapply HP|]. intros Hji.
  destruct (decide (i = j)) as [->|Hne]; [by eapply Hstored|].
  apply (Hlater i s s'); [lia|done| |done]. apply HQ. lia.
Qed.

(** After the loop, every compressed column has the attribute number of
    its template. *)
Lemma load_loop_attno chunk_state r0 r1 :
  columns_first chunk_state r0 ->
  for_range 0 (num_total_columns chunk_state)
    (set_column_from_tuple chunk_state) r0 = Ok tt r1 ->
  forall k c, compressed_columns r1 !! k = Some c ->
    exists d, template_columns chunk_state !! k = Some d
              /\ type d = COMPRESSED_COLUMN
              /\ output_attno c = template_output_attno d.
Proof.
  intros [Hcount Hlayout] Hloop.
  pose (Inv := fun (i : nat) s =>
    length (compressed_columns s) = length (compressed_columns r0)
    /\ forall k c, (k < i)%nat -> compressed_columns s !! k = Some c ->
         exists d, template_columns chunk_state !! k = Some d
                   /\ type d = COMPRESSED_COLUMN
                   /\ output_attno c = template_output_attno d).
  enough (Hinv : Inv (0 + num_total_columns chunk_state)%nat r1).
  { intros k c Hc. destruct Hinv as [Hlen Hinv].
    apply (Hinv k c); [|done].
    apply lookup_lt_Some in Hc. simpl. lia. }
  apply (for_range_Ok_invariant Inv (num_total_columns chunk_state) 0
           (set_column_from_tuple chunk_state) r0 r1);
    [split; [done|lia]| |done].
  intros i s s' _ [Hlen Hinv] (d & Hd & Heffect)%set_column_from_tuple_Ok.
  pose proof (column_step_effect_frame _ _ _ _ _ Heffect)
    as (_ & _ & _ & _ & _ & _ & Hlen' & Hother & _).
  split; [congruence|]. intros k c Hk Hc.
  destruct (decide (k = i)) as [->|Hne].
  2:{ rewrite Hother in Hc by done. apply (Hinv k c); [lia|done]. }
  exists d. split; [done|].
  assert (Htype : type d = COMPRESSED_COLUMN).
  { destruct (type d) eqn:Htype; [|done|..];
      apply lookup_lt_Some in Hc;
      (assert (Hnot : type d <> COMPRESSED_COLUMN) by (by rewrite Htype));
      specialize (Hlayout i d Hd Hnot); lia. }
  split; [done|].
  apply lookup_lt_Some in Hc as Hin. rewrite Hlen' in Hin.
  unfold column_step_effect in Heffect. rewrite Htype in Heffect.
  destruct Heffect as (compressed & c0 & _ & _ & Heffect).
  cbv zeta in Heffect.
  destruct (slot_getattr compressed _).2.
  - destruct Heffect as (slot & _ & ->). simpl in Hc.
    rewrite list_lookup_insert_eq in Hc by done. by injection Hc as <-.
  - destruct (if _ && _ then _ else None) as [arrow_array|].
    + destruct Heffect as [_ ->]. simpl in Hc.
      rewrite list_lookup_insert_eq in Hc by done. by injection Hc as <-.
    + subst s'. simpl in Hc.
      rewrite list_lookup_insert_eq in Hc by done. by injection Hc as <-.
Qed.
Lemma load_loop_no_owner chunk_state r0 r1 a :
  columns_first chunk_state r0 ->
  for_range 0 (num_total_columns chunk_state)
    (set_column_from_tuple chunk_state) r0 = Ok tt r1 ->
  (forall k d c,
      template_columns chunk_state !! k = Some d ->
      type d = COMPRESSED_COLUMN ->
      AttrNumberGetAttrOffset (template_output_attno d) = Z.of_nat a ->
      compressed_columns r1 !! k = Some c -> ~ per_row c) ->
  forall c, c ∈ compressed_columns r1 -> ~ owns a c.
Proof.
  intros Hfirst Hloop Hdefault c [k Hc]%list_elem_of_lookup [Hrow Hattr].
  destruct (load_loop_attno _ _ _ Hfirst Hloop k c Hc)
    as (d & Hd & Htype & Hattno).
  apply (Hdefault k d c); try done. by rewrite <- Hattno.
Qed.

(** The rows that a scan returns hold, at an attribute that is kept, the
    value that it has before the scan. *)
Lemma advance_until_empty_rows chunk_state a v fuel : forall bs rows bs',
  attribute_kept a (Some v) bs ->
  advance_until_empty fuel chunk_state bs = Ok rows bs' ->
  forall row, row ∈ rows -> (tts_values row !! a, tts_isnull row !! a) = v.
Proof.
  induction fuel as [|fuel IH]; intros bs rows bs' Hkept; simpl;
    intros ([] & bs1 & Hrun & Hrest)%bind_Ok_inv;
    rewrite bind_get_run in Hrest;
    (destruct (decompressed_scan_slot bs1) as [slot|] eqn:Hslot; [|done]);
    (destruct (tts_empty slot);
       [injection Hrest as <- _; by intros row ?%elem_of_nil|]);
    [done|].
  apply bind_Ok_inv in Hrest as (rows' & bs2 & Hrec & Hret).
  injection Hret as <- _.
  pose proof (keeps_compressed_batch_advance a (Some v) chunk_state bs Hkept)
    as Hkept1.
  rewrite Hrun in Hkept1. simpl in Hkept1.
  intros row [->|Hrow]%elem_of_cons.
  - destruct Hkept1 as [Hattr _]. unfold slot_attribute in Hattr.
    rewrite Hslot in Hattr. simpl in Hattr. by injection Hattr.
  - by apply (IH bs1 rows' bs2).
Qed.

Lemma advance_to_exhaustion_rows chunk_state a v bs rows bs' :
  attribute_kept a (Some v) bs ->
  advance_to_exhaustion chunk_state bs = Ok rows bs' ->
  forall row, row ∈ rows -> (tts_values row !! a, tts_isnull row !! a) = v.
Proof.
  intros Hkept Hrun. unfold advance_to_exhaustion in Hrun.
  rewrite bind_get_run in Hrun. by eapply advance_until_empty_rows.
Qed.

(** X4: the value of a segment-by column is stored into the output slot
    once, when the batch is loaded, and is in every row that a scan of the
    batch returns. *)
Theorem segmentby_value_in_every_row
    chunk_state subslot bs bs' j d a slot' :
  compressed_batch_set_compressed_tuple chunk_state subslot bs = Ok tt bs' ->
  columns_first chunk_state bs ->
  (j < num_total_columns chunk_state)%nat ->
  template_columns chunk_state !! j = Some d ->
  type d = SEGMENTBY_COLUMN ->
  AttrNumberGetAttrOffset (template_output_attno d) = Z.of_nat a ->
  (forall i d', i <> j -> (i < num_total_columns chunk_state)%nat ->
     template_columns chunk_state !! i = Some d' -> ~ stores_at d' a) ->
  decompressed_scan_slot bs' = Some slot' ->
  (a < length (tts_values slot'))%nat ->
  (a < length (tts_isnull slot'))%nat ->
  exists compressed,
    compressed_slot bs' = Some compressed
    /\ tts_values compressed = tts_values subslot
    /\ tts_isnull compressed = tts_isnull subslot
    /\ tts_values slot' !! a
       = Some (slot_getattr compressed (compressed_scan_attno d)).1
    /\ tts_isnull slot' !! a
       = Some (slot_getattr compressed (compressed_scan_attno d)).2
    /\ forall rows s',
         advance_to_exhaustion chunk_state bs' = Ok rows s' ->
         forall row, row ∈ rows ->
           tts_values row !! a
           = Some (slot_getattr compressed (compressed_scan_attno d)).1
           /\ tts_isnull row !! a
              = Some (slot_getattr compressed (compressed_scan_attno d)).2.
Proof.
  intros (r0 & r1 & Hprepare & Hloop & Hquals)%compressed_batch_set_compressed_tuple_Ok
         Hfirst Hj Hd Htype Hattr Hdistinct Hslot' Hlv Hln.
  apply prepare_batch_state_Ok in Hprepare
    as (_ & _ & _ & _ & Hcols0 & _ & (c & Hc & _) & _).
  apply apply_vector_quals_frame in Hquals as (Hcq & Hsq & _ & _ & Hcolsq).
  destruct (load_loop_shape _ _ _ Hloop) as (Hshape & Hcompressed & _).
  assert (Hshape0 : slot_shape r0
                    = Some (tts_tupleDescriptor slot',
                            length (tts_values slot'),
                            length (tts_isnull slot'))).
  { rewrite <- Hshape. unfold slot_shape. by rewrite <- Hsq, Hslot'. }
  set (v := slot_getattr (ExecCopySlot c subslot) (compressed_scan_attno d)).
  destruct (load_loop_established chunk_state
              (fun s => compressed_slot s = compressed_slot r0
                        /\ slot_shape s = slot_shape r0)
              (fun s => slot_attribute a s = Some (Some v.1, Some v.2))
              r0 r1 j) as [_ Hstored]; try done.
  { intros i s s' [Hcs Hss] (d' & _ & Heffect)%set_column_from_tuple_Ok.
    pose proof (column_step_effect_frame _ _ _ _ _ Heffect) as (Hcs' & _).
    pose proof (column_step_effect_shape _ _ _ _ _ Heffect) as Hss'.
    split; congruence. }
  { intros s s' [Hcs Hss] (d' & Hd' & Heffect)%set_column_from_tuple_Ok.
    rewrite Hd in Hd'. injection Hd' as <-.
    unfold column_step_effect in Heffect. rewrite Htype, Hattr in Heffect.
    destruct Heffect as (compressed & slot & Hcompressed' & Hslot & ->).
    rewrite Hcs, Hc in Hcompressed'. injection Hcompressed' as <-.
    rewrite Hshape0 in Hss. unfold slot_shape in Hss. rewrite Hslot in Hss.
    injection Hss as _ Hlv' Hln'.
    unfold slot_attribute. simpl.
    destruct (slot_attribute_stored a v.1 v.2 slot) as [E1 E2]; [lia..|].
    f_equal. f_equal; [exact E1|exact E2]. }
  { intros i s s' Hi _ Hattribute (d' & Hd' & Heffect)%set_column_from_tuple_Ok.
    rewrite (column_step_effect_attribute _ _ _ _ _ a Heffect); [done|].
    apply (Hdistinct i d'); [lia|lia|done]. }
  exists (ExecCopySlot c subslot).
  assert (Hvalue : tts_values slot' !! a = Some v.1
                   /\ tts_isnull slot' !! a = Some v.2).
  { unfold slot_attribute in Hstored. rewrite <- Hsq, Hslot' in Hstored.
    simpl in Hstored. by injection Hstored as -> ->. }
  split_and!; try done; try apply Hvalue.
  { congruence. }
  intros rows s' Hscan row Hrow.
  assert (Hkept : attribute_kept a (Some (Some v.1, Some v.2)) bs').
  { split.
    - unfold slot_attribute. rewrite Hslot'. simpl.
      by destruct Hvalue as [-> ->].
    - rewrite Hcolsq.
      apply (load_loop_no_owner chunk_state r0 r1 a);
        [by unfold columns_first; rewrite Hcols0|done|].
      intros k d' c' Hd' Htype' Hattr' Hc' _.
      destruct (decide (k = j)) as [->|Hne]; [congruence|].
      assert (k < num_total_columns chunk_state)%nat as Hk.
      { apply lookup_lt_Some in Hc'. destruct Hfirst as [Hcount _].
        destruct (load_loop_shape _ _ _ Hloop) as (_ & _ & Hlen).
        rewrite Hlen, Hcols0 in Hc'. lia. }
      apply (Hdistinct k d'); try done. split; [by left|done]. }
  pose proof (advance_to_exhaustion_rows _ _ _ _ _ _ Hkept Hscan row Hrow)
    as Heq.
  by injection Heq as -> ->.
Qed.
(** X5: a compressed column with no stored value gets its default value
    for the whole batch when the batch is loaded: the column is neither
    iterated nor in bulk form, and the default value is in every row that a
    scan of the batch returns. *)
Theorem default_value_in_every_row
    chunk_state subslot bs bs' j d a slot' compressed :
  compressed_batch_set_compressed_tuple chunk_state subslot bs = Ok tt bs' ->
  columns_first chunk_state bs ->
  (j < num_total_columns chunk_state)%nat ->
  template_columns chunk_state !! j = Some d ->
  type d = COMPRESSED_COLUMN ->
  AttrNumberGetAttrOffset (template_output_attno d) = Z.of_nat a ->
  (forall i d', i <> j -> (i < num_total_columns chunk_state)%nat ->
     template_columns chunk_state !! i = Some d' -> ~ stores_at d' a) ->
  decompressed_scan_slot bs' = Some slot' ->
  (a < length (tts_values slot'))%nat ->
  (a < length (tts_isnull slot'))%nat ->
  compressed_slot bs' = Some compressed ->
  (slot_getattr compressed (compressed_scan_attno d)).2 = true ->
  let missing :=
    getmissingattr (tts_tupleDescriptor slot') (Z.of_nat a + 1) in
  compressed_columns bs' !! j = Some (empty_column (template_output_attno d))
  /\ tts_values slot' !! a = Some missing.1
  /\ tts_isnull slot' !! a = Some missing.2
  /\ forall rows s',
       advance_to_exhaustion chunk_state bs' = Ok rows s' ->
       forall row, row ∈ rows ->
         tts_values row !! a = Some missing.1
         /\ tts_isnull row !! a = Some missing.2.
Proof.
  intros (r0 & r1 & Hprepare & Hloop & Hquals)%compressed_batch_set_compressed_tuple_Ok
         Hfirst Hj Hd Htype Hattr Hdistinct Hslot' Hlv Hln Hcompressed Hnull
         missing.
  apply prepare_batch_state_Ok in Hprepare
    as (_ & _ & _ & _ & Hcols0 & _ & _).
  apply apply_vector_quals_frame in Hquals as (Hcq & Hsq & _ & _ & Hcolsq).
  destruct (load_loop_shape _ _ _ Hloop) as (Hshape & Hcompressed1 & Hlen).
  assert (Hshape0 : slot_shape r0
                    = Some (tts_tupleDescriptor slot',
                            length (tts_values slot'),
                            length (tts_isnull slot'))).
  { rewrite <- Hshape. unfold slot_shape. by rewrite <- Hsq, Hslot'. }
  assert (Hcompressed0 : compressed_slot r0 = Some compressed) by congruence.
  destruct (load_loop_established chunk_state
              (fun s => compressed_slot s = compressed_slot r0
                        /\ slot_shape s = slot_shape r0)
              (fun s => slot_attribute a s = Some (Some missing.1, Some missing.2)
                        /\ compressed_columns s !! j
                           = Some (empty_column (template_output_attno d)))
              r0 r1 j) as [_ [Hstored Hcolumn]]; try done.
  { intros i s s' [Hcs Hss] (d' & _ & Heffect)%set_column_from_tuple_Ok.
    pose proof (column_step_effect_frame _ _ _ _ _ Heffect) as (Hcs' & _).
    pose proof (column_step_effect_shape _ _ _ _ _ Heffect) as Hss'.
    split; congruence. }
  { intros s s' [Hcs Hss] (d' & Hd' & Heffect)%set_column_from_tuple_Ok.
    rewrite Hd in Hd'. injection Hd' as <-.
    unfold column_step_effect in Heffect. rewrite Htype, Hattr in Heffect.
    destruct Heffect as (compressed' & c0 & Hcompressed' & Hc0 & Heffect).
    rewrite Hcs, Hcompressed0 in Hcompressed'. injection Hcompressed' as <-.
    cbv zeta in Heffect. rewrite Hnull in Heffect.
    destruct Heffect as (slot & Hslot & ->).
    rewrite Hshape0 in Hss. unfold slot_shape in Hss. rewrite Hslot in Hss.
    injection Hss as Hdesc Hlv' Hln'. rewrite Hdesc.
    split.
    - unfold slot_attribute. simpl.
      destruct (slot_attribute_stored a missing.1 missing.2 slot) as [E1 E2];
        [lia..|].
      f_equal. f_equal; [exact E1|exact E2].
    - simpl. apply list_lookup_insert_eq. by eapply lookup_lt_Some. }
  { intros i s s' Hi _ [Hattribute Hcolumn]
           (d' & Hd' & Heffect)%set_column_from_tuple_Ok.
    pose proof (column_step_effect_frame _ _ _ _ _ Heffect)
      as (_ & _ & _ & _ & _ & _ & _ & Hother & _).
    split.
    - rewrite (column_step_effect_attribute _ _ _ _ _ a Heffect); [done|].
      apply (Hdistinct i d'); [lia|lia|done].
    - rewrite Hother by lia. done. }
  assert (Hvalue : tts_values slot' !! a = Some missing.1
                   /\ tts_isnull slot' !! a = Some missing.2).
  { unfold slot_attribute in Hstored. rewrite <- Hsq, Hslot' in Hstored.
    simpl in Hstored. by injection Hstored as -> ->. }
  split_and!; try apply Hvalue.
  { by rewrite Hcolsq. }
  intros rows s' Hscan row Hrow.
  assert (Hkept : attribute_kept a (Some (Some missing.1, Some missing.2)) bs').
  { split.
    - unfold slot_attribute. rewrite Hslot'. simpl.
      by destruct Hvalue as [-> ->].
    - rewrite Hcolsq.
      apply (load_loop_no_owner chunk_state r0 r1 a);
        [by unfold columns_first; rewrite Hcols0|done|].
      intros k d' c' Hd' Htype' Hattr' Hc'.
      destruct (decide (k = j)) as [->|Hne].
      + rewrite Hcolumn in Hc'. injection Hc' as <-.
        by intros [[? ?]|[? ?]].
      + intros _.
        assert (k < num_total_columns chunk_state)%nat as Hk.
        { apply lookup_lt_Some in Hc'. destruct Hfirst as [Hcount _].
          rewrite Hlen, Hcols0 in Hc'. lia. }
        apply (Hdistinct k d'); try done. split; [by left|done]. }
  pose proof (advance_to_exhaustion_rows _ _ _ _ _ _ Hkept Hscan row Hrow)
    as Heq.
  by injection Heq as -> ->.
Qed.

(** X6: the first time a batch state is used, its output slot is created
    with every attribute null, and an attribute that no column of the scan
    stores into, such as a dropped column, is null in every row that a scan
    of the batch returns. *)
Theorem unpopulated_attributes_are_null chunk_state subslot bs bs' a :
  per_batch_context bs = None ->
  compressed_batch_set_compressed_tuple chunk_state subslot bs = Ok tt bs' ->
  columns_first chunk_state bs ->
  (a < natts (tts_tupleDescriptor (ss_ScanTupleSlot chunk_state)))%nat ->
  (forall i d, (i < num_total_columns chunk_state)%nat ->
     template_columns chunk_state !! i = Some d -> ~ stores_at d a) ->
  exists slot',
    decompressed_scan_slot bs' = Some slot'
    /\ tts_tupleDescriptor slot'
       = tts_tupleDescriptor (ss_ScanTupleSlot chunk_state)
    /\ tts_isnull slot' !! a = Some true
    /\ forall rows s',
         advance_to_exhaustion chunk_state bs' = Ok rows s' ->
         forall row, row ∈ rows -> tts_isnull row !! a = Some true.
Proof.
  intros Hfresh
         (r0 & r1 & Hprepare & Hloop & Hquals)%compressed_batch_set_compressed_tuple_Ok
         Hfirst Ha Hnone.
  apply prepare_batch_state_Ok in Hprepare
    as (_ & _ & _ & _ & Hcols0 & _ & _ & Hslot0).
  rewrite Hfresh in Hslot0. cbn [is_NULL] in Hslot0.
  apply apply_vector_quals_frame in Hquals as (_ & Hsq & _ & _ & Hcolsq).
  destruct (load_loop_shape _ _ _ Hloop) as (Hshape & _ & Hlen).
  assert (Hattribute : slot_attribute a r1 = slot_attribute a r0).
  { apply (for_range_Ok_invariant
             (fun _ s => slot_attribute a s = slot_attribute a r0)
             (num_total_columns chunk_state) 0
             (set_column_from_tuple chunk_state) r0 r1); [done| |done].
    intros i s s' Hi Hinv (d & Hd & Heffect)%set_column_from_tuple_Ok.
    rewrite (column_step_effect_attribute _ _ _ _ _ a Heffect); [done|].
    apply (Hnone i d); [lia|done]. }
  unfold slot_attribute, slot_shape in Hattribute, Hshape.
  rewrite Hslot0, <- Hsq in Hattribute, Hshape. simpl in Hattribute, Hshape.
  destruct (decompressed_scan_slot bs') as [slot'|] eqn:Hslot'; [|done].
  simpl in Hattribute, Hshape. injection Hshape as Hdesc _ _.
  injection Hattribute as Hv Hn.
  rewrite lookup_replicate_2 in Hv by done.
  rewrite lookup_replicate_2 in Hn by done.
  exists slot'. split_and!; try done.
  intros rows s' Hscan row Hrow.
  assert (Hkept : attribute_kept a (Some (Some 0, Some true)) bs').
  { split.
    - unfold slot_attribute. rewrite Hslot'. simpl. by rewrite Hv, Hn.
    - rewrite Hcolsq.
      apply (load_loop_no_owner chunk_state r0 r1 a);
        [by unfold columns_first; rewrite Hcols0|done|].
      intros k d c Hd Htype Hattr Hc _.
      assert (k < num_total_columns chunk_state)%nat as Hk.
      { apply lookup_lt_Some in Hc. destruct Hfirst as [Hcount _].
        rewrite Hlen, Hcols0 in Hc. lia. }
      apply (Hnone k d); try done. split; [by left|done]. }
  pose proof (advance_to_exhaustion_rows _ _ _ _ _ _ Hkept Hscan row Hrow)
    as Heq.
  by injection Heq as _ ->.
Qed.
End Stored.

(** ** The cursor and the bitmap *)

Lemma preserves_advance_loop {X} (part : DecompressBatchState -> X)
    chunk_state fuel :
  (forall v s, part (with_compressed_columns v s) = part s) ->
  (forall v s, part (with_decompressed_scan_slot v s) = part s) ->
  (forall v s, part (with_next_batch_row v s) = part s) ->
  preserves part (advance_loop fuel chunk_state).
Proof.
  intros Hc Hs Hn.
  induction fuel as [|fuel IH]; simpl;
    unfold compressed_batch_make_next_tuple, make_next_column,
      compressed_batch_postgres_qual, skip_column, check_column_done,
      iterator_try_next, set_column, update_scan_slot, next_batch_row_incr;
    repeat match goal with
    | |- preserves _ (advance_loop _ _) => exact IH
    | |- preserves _ (bind _ _) => apply preserves_bind; [|intros ?]
    | |- preserves _ (for_range _ _ _) => apply preserves_for_range; intros ?
    | |- preserves _ (modify _) =>
        apply preserves_modify; intros ?; first [apply Hc|apply Hs|apply Hn]
    | |- preserves _ (match ?x with _ => _ end) => destruct x
    | |- preserves _ (let '(_, _) := ?x in _) => destruct x
    | |- preserves _ _ => solve [auto with preserves]
    end.
Qed.

Lemma advance_loop_cursor chunk_state fuel : forall bs,
  cursor_within bs (outcome_state (advance_loop fuel chunk_state bs)).
Proof.
  assert (Hend : forall fuel bs,
    (next_batch_row bs <? total_batch_rows bs) = false ->
    cursor_within bs (outcome_state (advance_loop fuel chunk_state bs))).
  { intros fuel' bs Hcur. rewrite advance_loop_end by done.
    pose proof (preserves_bind cursor_of
      (for_range 0 (num_compressed_columns chunk_state) check_column_done)
      (fun _ => update_scan_slot ExecClearTuple)
      (preserves_for_range cursor_of _ 0 _ preserves_cursor_check_column_done)
      (fun _ => preserves_cursor_update_scan_slot ExecClearTuple) bs) as Hsame.
    injection Hsame as Hn _ _. unfold cursor_within. lia. }
  induction fuel as [|fuel IH]; intros bs.
  - destruct (next_batch_row bs <? total_batch_rows bs) eqn:Hcur;
      [|by apply Hend].
    simpl. unfold bind, get. rewrite Hcur. unfold cursor_within. simpl. lia.
  - destruct (next_batch_row bs <? total_batch_rows bs) eqn:Hcur;
      [|by apply Hend].
    rewrite advance_loop_step by done. apply Z.ltb_lt in Hcur.
    assert (Hincr : forall s,
      cursor_of s = cursor_of bs ->
      cursor_within bs
        (outcome_state
           (bind next_batch_row_incr
              (fun _ => advance_loop fuel chunk_state) s))).
    { intros s [= Hn Ht _]. unfold bind, next_batch_row_incr, modify.
      specialize (IH (with_next_batch_row (next_batch_row s + 1) s)).
      unfold cursor_within in *. simpl in IH. lia. }
    destruct (compressed_batch_vector_qual chunk_state bs).
    + unfold bind at 1.
      pose proof (preserves_cursor_make_next_tuple chunk_state bs) as Hsame1.
      destruct (compressed_batch_make_next_tuple chunk_state bs)
        as [[] s1|e s1]; simpl in Hsame1.
      2:{ injection Hsame1 as Hn _ _. unfold cursor_within. simpl. lia. }
      unfold bind at 1.
      pose proof (preserves_cursor_postgres_qual chunk_state s1) as Hsame2.
      destruct (compressed_batch_postgres_qual chunk_state s1)
        as [passed s2|e s2]; simpl in Hsame2.
      2:{ rewrite Hsame1 in Hsame2. injection Hsame2 as Hn _ _.
          unfold cursor_within. simpl. lia. }
      rewrite Hsame1 in Hsame2.
      destruct passed; [|by apply Hincr].
      injection Hsame2 as Hn Ht _. unfold cursor_within. simpl. lia.
    + unfold bind at 1.
      pose proof (preserves_for_range cursor_of
                    (num_compressed_columns chunk_state) 0 _
                    preserves_cursor_skip_column bs) as Hsame1.
      destruct (for_range 0 (num_compressed_columns chunk_state) skip_column bs)
        as [[] s1|e s1]; simpl in Hsame1.
      2:{ injection Hsame1 as Hn _ _. unfold cursor_within. simpl. lia. }
      by apply Hincr.
Qed.

(** X7: [compressed_batch_advance] never moves the cursor back and never
    moves it past the end of the batch, and it leaves the row count, the
    bitmap of the vectorized quals, the compressed tuple and the memory
    context of the batch as they are, whether it returns or raises an
    error. *)
Theorem advance_keeps_cursor_in_batch chunk_state bs :
  let bs' := outcome_state (compressed_batch_advance chunk_state bs) in
  next_batch_row bs <= next_batch_row bs'
  /\ next_batch_row bs' <= Z.max (next_batch_row bs) (total_batch_rows bs)
  /\ total_batch_rows bs' = total_batch_rows bs
  /\ vector_qual_result bs' = vector_qual_result bs
  /\ compressed_slot bs' = compressed_slot bs
  /\ per_batch_context bs' = per_batch_context bs.
Proof.
  unfold compressed_batch_advance. rewrite bind_get_run.
  pose proof (advance_loop_cursor chunk_state
                (Z.to_nat (total_batch_rows bs - next_batch_row bs)) bs)
    as [Hlow Hhigh].
  pose proof (preserves_advance_loop
                (fun s => (total_batch_rows s, vector_qual_result s,
                           compressed_slot s, per_batch_context s))
                chunk_state
                (Z.to_nat (total_batch_rows bs - next_batch_row bs))
                ltac:(done) ltac:(done) ltac:(done) bs) as Hsame.
  simpl in Hsame. injection Hsame as Ht Hv Hc Hp. by split_and!.
Qed.

Lemma narrows_refl b : narrows b b.
Proof. by split. Qed.

Lemma narrows_trans b1 b2 b3 : narrows b1 b2 -> narrows b2 b3 -> narrows b1 b3.
Proof.
  intros [Hl1 H1] [Hl2 H2]. split; [congruence|]. intros row Hrow.
  by apply H1, H2.
Qed.

Lemma narrows_zero i b : narrows b (<[i := 0]> b).
Proof.
  split; [by rewrite length_insert|]. intros row. unfold arrow_row_is_valid.
  destruct (decide (Z.to_nat (row / 64) = i)) as [<-|Hne].
  - destruct (decide (Z.to_nat (row / 64) < length b)%nat).
    + rewrite list_lookup_insert_eq by done. simpl.
      by rewrite Z.testbit_0_l.
    + by rewrite list_insert_ge by lia.
  - by rewrite list_lookup_insert_ne by done.
Qed.

Lemma keeps_foreach {A} Inv (l : list A) body :
  (forall x, keeps Inv (body x)) -> keeps Inv (foreach l body).
Proof.
  intros Hbody. induction l as [|x l IH]; [by intros bs|].
  apply keeps_bind; [apply Hbody|]. by intros _.
Qed.

Lemma keeps_Ensure Inv cond e : keeps Inv (Ensure cond e).
Proof. intros bs Hinv. by destruct cond. Qed.

Lemma keeps_column_at Inv i : keeps Inv (column_at i).
Proof.
  intros bs Hinv. unfold column_at. by destruct (compressed_columns bs !! i).
Qed.

Lemma keeps_elog {A} Inv e : keeps Inv (@elog_ERROR A e).
Proof. by intros bs. Qed.

(** The size of the bitmap, as it is computed on [int] and [Size]. *)
Lemma bitmap_bytes_in_range total :
  0 <= total <= INT_MAX - 63 ->
  to_int (8 * (to_int (total + 63) `quot` 64)) = 8 * ((total + 63) / 64)
  /\ 0 <= 8 * ((total + 63) / 64) <= MaxAllocSize.
Proof.
  unfold INT_MAX, MaxAllocSize. intros Htotal.
  rewrite (to_int_id (total + 63)) by (unfold INT_MAX; lia).
  rewrite Z.quot_div_nonneg by lia.
  assert (0 <= (total + 63) / 64 <= 2 ^ 25) as Hwords.
  { split; [apply Z.div_pos; lia|].
    apply Z.div_le_upper_bound; lia. }
  rewrite to_int_id by (unfold INT_MAX; lia). lia.
Qed.

Lemma bitmap_bytes_overflow total :
  INT_MAX - 63 < total <= INT_MAX ->
  MaxAllocSize
  < to_int (8 * (to_int (total + 63) `quot` 64)) mod 2 ^ 64.
Proof.
  unfold INT_MAX, MaxAllocSize. intros Htotal.
  assert (Hsum : to_int (total + 63) = total + 63 - 2 ^ 32).
  { unfold to_int.
    replace (total + 63 + 2 ^ 31) with (total + 63 - 2 ^ 31 + 1 * 2 ^ 32)
      by lia.
    rewrite Z.mod_add by lia. rewrite Z.mod_small by lia. lia. }
  rewrite Hsum.
  assert (Hq : - 2 ^ 25 <= (total + 63 - 2 ^ 32) `quot` 64 <= - 2 ^ 25 + 1).
  { rewrite <- (Z.opp_involutive (total + 63 - 2 ^ 32)).
    rewrite Z.quot_opp_l by lia.
    rewrite Z.quot_div_nonneg by lia.
    assert (2 ^ 25 - 1 <= (- (total + 63 - 2 ^ 32)) / 64 <= 2 ^ 25); [|lia].
    split; [apply Z.div_le_lower_bound; lia|apply Z.div_le_upper_bound; lia]. }
  rewrite to_int_id by (unfold INT_MAX; lia).
  replace (8 * ((total + 63 - 2 ^ 32) `quot` 64))
    with (8 * ((total + 63 - 2 ^ 32) `quot` 64) + 2 ^ 64 + (-1) * 2 ^ 64)
    by lia.
  rewrite Z.mod_add by lia. rewrite Z.mod_small by lia. lia.
Qed.

Section Bitmap.
Context `{Collaborators}.
Hypothesis Hpredicates : forall opcode predicate,
  get_vector_const_predicate opcode = Some predicate ->
  predicate_narrows predicate.

Lemma keeps_make_single_value_arrow bitmap pgtype datum isnull :
  keeps (bitmap_narrowed bitmap) (make_single_value_arrow pgtype datum isnull).
Proof.
  unfold make_single_value_arrow, palloc.
  apply keeps_bind; [by apply keeps_modify|]. intros _.
  destruct isnull; [apply keeps_ret|].
  destruct (single_value_width pgtype); [apply keeps_ret|apply keeps_elog].
Qed.

Lemma keeps_call_predicate bitmap predicate vector constvalue predicate_result :
  keeps (bitmap_narrowed bitmap)
    (call_predicate predicate vector constvalue predicate_result).
Proof.
  unfold call_predicate.
  apply keeps_bind; [by apply keeps_modify|]. intros _. apply keeps_ret.
Qed.

Lemma keeps_apply_vector_qual bitmap chunk_state bitmap_bytes oe :
  keeps (bitmap_narrowed bitmap)
    (apply_vector_qual chunk_state bitmap_bytes oe).
Proof using Hpredicates.
  unfold apply_vector_qual.
  apply keeps_bind; [apply keeps_Ensure|]. intros _.
  destruct (template_columns chunk_state !! _) as [d|]; [|apply keeps_elog].
  apply keeps_bind; [apply keeps_Ensure|]. intros _.
  apply keeps_bind; [apply keeps_column_at|]. intros c.
  apply keeps_bind; [apply keeps_Ensure|]. intros _.
  apply keeps_bind.
  { destruct (arrow c); [apply keeps_ret|].
    apply keeps_bind; [apply keeps_Ensure|]. intros _.
    apply keeps_bind; [apply keeps_scan_slot|]. intros slot.
    apply keeps_make_single_value_arrow. }
  intros vector.
  destruct (get_vector_const_predicate _) as [predicate|] eqn:Hpredicate;
    [|apply keeps_elog].
  apply keeps_bind; [apply keeps_Ensure|]. intros _.
  destruct (arrow c).
  - intros bs (b & Hb & Hnarrow). rewrite bind_get_run, Hb.
    unfold call_predicate, bind, ret, modify. simpl.
    eexists. split; [done|].
    apply (narrows_trans _ b); [done|]. by eapply Hpredicates.
  - apply keeps_bind; [apply keeps_call_predicate|]. intros result.
    destruct (negb _); [|apply keeps_ret].
    apply keeps_for_range. intros i. apply keeps_modify.
    intros bs (b & Hb & Hnarrow). simpl. rewrite Hb. simpl.
    eexists. split; [done|].
    apply (narrows_trans _ b); [done|]. apply narrows_zero.
Qed.

Lemma foreach_vector_quals_narrowed
    chunk_state bitmap_bytes quals bs bs' bitmap :
  foreach quals (apply_vector_qual chunk_state bitmap_bytes) bs = Ok tt bs' ->
  vector_qual_result bs = Some bitmap ->
  bitmap_narrowed bitmap bs'.
Proof using Hpredicates.
  intros Hrun Hbitmap.
  pose proof (keeps_foreach (bitmap_narrowed bitmap) quals
                (apply_vector_qual chunk_state bitmap_bytes)
                (keeps_apply_vector_qual bitmap chunk_state bitmap_bytes) bs)
    as Hkeeps.
  rewrite Hrun in Hkeeps. apply Hkeeps.
  exists bitmap. split; [done|apply narrows_refl].
Qed.

(** X8: the vectorized quals of a scan are a conjunction: a qual passes no
    row that the bitmap excluded before it, and the bitmap keeps its size.
    This holds for predicates that, as the registered ones do, AND their
    result to the bitmap they are given; for a column with a default value
    it holds whatever the predicate does. *)
Theorem vectorized_quals_only_exclude_rows
    chunk_state bitmap_bytes quals bs bs' bitmap :
  foreach quals (apply_vector_qual chunk_state bitmap_bytes) bs = Ok tt bs' ->
  vector_qual_result bs = Some bitmap ->
  exists bitmap',
    vector_qual_result bs' = Some bitmap'
    /\ length bitmap' = length bitmap
    /\ forall row,
         arrow_row_is_valid (Some bitmap) row = false ->
         arrow_row_is_valid (Some bitmap') row = false.
Proof using Hpredicates.
  intros Hrun Hbitmap.
  destruct (foreach_vector_quals_narrowed _ _ _ _ _ _ Hrun Hbitmap)
    as (bitmap' & Hbitmap' & Hlen & Hrows).
  exists bitmap'. split_and!; try done.
  intros row Hrow.
  destruct (arrow_row_is_valid (Some bitmap') row) eqn:Hvalid; [|done].
  by rewrite (Hrows row Hvalid) in Hrow.
Qed.

(** X9: when the scan has vectorized quals and the row count [n] of the
    batch is an [int] that is not negative, [apply_vector_quals] allocates
    a bitmap with a 64-bit word for every 64 rows, rounded up, so that
    every row of the batch has its bit; when [n + 63] overflows the [int]
    it is computed on, the size that is requested is invalid, the
    allocation raises an error and no predicate is called.  The quals keep
    the size of the bitmap, for predicates that AND their result to the
    bitmap they are given.  When the scan has no vectorized quals nothing
    is allocated and the batch state is left as it is. *)
Theorem loaded_bitmap_has_a_bit_for_each_row chunk_state bs :
  0 <= total_batch_rows bs <= INT_MAX ->
  (vectorized_quals chunk_state = [] ->
   apply_vector_quals chunk_state bs = Ok tt bs)
  /\ (vectorized_quals chunk_state <> [] ->
      INT_MAX - 63 < total_batch_rows bs ->
      exists size,
        apply_vector_quals chunk_state bs
        = Raise (invalid_memory_alloc_request_size size) bs
        /\ MaxAllocSize < size)
  /\ (forall bs',
        vectorized_quals chunk_state <> [] ->
        apply_vector_quals chunk_state bs = Ok tt bs' ->
        total_batch_rows bs <= INT_MAX - 63
        /\ exists bitmap,
             vector_qual_result bs' = Some bitmap
             /\ Z.of_nat (length bitmap) = (total_batch_rows bs + 63) / 64
             /\ forall row,
                  0 <= row < total_batch_rows bs ->
                  (Z.to_nat (row / 64) < length bitmap)%nat).
Proof using Hpredicates.
  intros Htotal. unfold apply_vector_quals.
  destruct (vectorized_quals chunk_state) as [|oe quals] eqn:Hquals.
  { split_and!; done. }
  cbn [is_NIL]. rewrite bind_get_run. unfold palloc_size.
  destruct (decide (total_batch_rows bs <= INT_MAX - 63)) as [Hfits|Hover].
  - destruct (bitmap_bytes_in_range (total_batch_rows bs) ltac:(lia))
      as [-> Hsize].
    rewrite Z.mod_small by (unfold MaxAllocSize in Hsize; lia).
    rewrite (proj2 (Z.leb_le _ _) (proj2 Hsize)).
    split_and!; [done|lia|]. intros bs' _ Hrun. split; [done|].
    unfold palloc in Hrun. rewrite !bind_modify in Hrun.
    rewrite Z.mul_comm, Z.quot_mul in Hrun by lia.
    pose proof (Z.div_pos (total_batch_rows bs + 63) 64 ltac:(lia) ltac:(lia))
      as Hwords.
    destruct (foreach_vector_quals_narrowed _ _ _ _ _
                (replicate (Z.to_nat ((total_batch_rows bs + 63) / 64))
                   UINT64_MAX) Hrun eq_refl)
      as (bitmap & Hbitmap & Hlen & _).
    rewrite length_replicate in Hlen.
    exists bitmap. split_and!; [done|lia|].
    intros row Hrow. rewrite Hlen.
    apply Z2Nat.inj_lt; [apply Z.div_pos; lia|lia|].
    apply Z.div_lt_upper_bound; [lia|].
    pose proof (Z.mul_div_le (total_batch_rows bs + 63) 64 ltac:(lia)).
    pose proof (Z.mod_pos_bound (total_batch_rows bs + 63) 64 ltac:(lia)).
    pose proof (Z.div_mod (total_batch_rows bs + 63) 64 ltac:(lia)).
    lia.
  - pose proof (bitmap_bytes_overflow (total_batch_rows bs) ltac:(lia))
      as Hsize.
    rewrite (proj2 (Z.leb_gt _ _) Hsize).
    split_and!; [done| |done].
    intros _ _. by eexists.
Qed.
End Bitmap.

(** ** The single-value arrow array *)

Lemma read_le_cons n b src offset :
  read_le n (b :: src) (S offset) = read_le n src offset.
Proof.
  revert offset. induction n as [|n IH]; intros offset; simpl; [done|].
  by rewrite IH.
Qed.

(** Reading back what [write_le] wrote. *)
Lemma read_le_write_le n : forall value,
  0 <= value -> read_le n (write_le n value) 0 = value mod 256 ^ Z.of_nat n.
Proof.
  induction n as [|n IH]; intros value Hvalue.
  - simpl. by rewrite Z.mod_1_r.
  - cbn [write_le read_le]. rewrite read_le_cons, IH
      by (apply Z.div_pos; lia).
    unfold byte_at. simpl.
    rewrite Nat2Z.inj_succ, Z.pow_succ_r by lia.
    rewrite Z.rem_mul_r by lia. done.
Qed.

Lemma write_le_bytes n : forall value, Forall is_byte (write_le n value).
Proof.
  induction n as [|n IH]; intros value; simpl; [done|].
  constructor; [|apply IH]. unfold is_byte.
  pose proof (Z.mod_pos_bound value 256 ltac:(lia)). lia.
Qed.

(** X10: [make_single_value_arrow] and the reads of a bulk column are
    inverse to each other: for a value of one of the types of the switch,
    the array has one valid row, and reading it back the way the
    materializer reads a bulk column gives the low bytes of the value, the
    bytes above the width of the type being zero.  A null value gives an
    array whose row is not valid, whatever its type is; a value that is not
    null of any other type is an error. *)
Theorem single_value_arrow_round_trip pgtype datum bs :
  (exists bs',
      make_single_value_arrow pgtype datum true bs
      = Ok (single_value_arrow 0 0) bs'
      /\ arrow_row_is_valid (buffers_0 (single_value_arrow 0 0)) 0 = false)
  /\ (single_value_width pgtype = None ->
      exists bs',
        make_single_value_arrow pgtype datum false bs
        = Raise (unexpected_column_type pgtype) bs')
  /\ (forall width,
        single_value_width pgtype = Some width ->
        exists vector values bs',
          make_single_value_arrow pgtype datum false bs = Ok vector bs'
          /\ arrow_length vector = 1
          /\ arrow_row_is_valid (buffers_0 vector) 0 = true
          /\ buffers_1 vector = Some values
          /\ length values = 8%nat
          /\ read_uint64 values (width * 0) = datum mod 2 ^ (8 * width)
          /\ read_le (Z.to_nat width) values 0 = datum mod 2 ^ (8 * width)).
Proof.
  split_and!.
  - eexists. split; reflexivity.
  - intros Hnone. unfold make_single_value_arrow, palloc.
    rewrite bind_modify, Hnone. by eexists.
  - intros width Hwidth.
    assert (Hw : 1 <= width <= 8).
    { unfold single_value_width in Hwidth.
      repeat (destruct (_ =? _); [injection Hwidth as <-; lia|]). done. }
    unfold make_single_value_arrow, palloc. rewrite bind_modify, Hwidth.
    pose proof (Z.mod_pos_bound datum (2 ^ (8 * width)) ltac:(lia))
      as Hlow.
    assert (Hpow : 2 ^ (8 * width) <= 2 ^ 64)
      by (apply Z.pow_le_mono_r; lia).
    assert (Hword : read_uint64 (write_le 8 (datum mod 2 ^ (8 * width)))
                      (width * 0)
                    = datum mod 2 ^ (8 * width)).
    { unfold read_uint64. rewrite Z.mul_0_r. simpl Z.to_nat.
      rewrite read_le_write_le by lia.
      apply Z.mod_small. change (256 ^ Z.of_nat 8) with (2 ^ 64). lia. }
    eexists _, _, _. split_and!; try reflexivity.
    + exact Hword.
    + rewrite <- (read_uint64_truncated _ 0 width);
        [|apply write_le_bytes|lia|lia].
      rewrite Z.mul_0_r in Hword. rewrite Hword.
      apply Z.mod_small. lia.
Qed.

(** ** Whole scans *)

Lemma filter_all_pass (p : nat -> bool) (l : list nat) :
  (forall j, j ∈ l -> p j = true) -> filter (fun j => p j) l = l.
Proof.
  induction l as [|j l IH]; intros Hall; [done|].
  rewrite filter_cons_True
    by (apply Is_true_true_2, Hall; by left).
  rewrite IH; [done|]. intros k Hk. apply Hall. by right.
Qed.

(** X11: without vectorized quals and without a row filter, a scan of the
    batch returns every row from the cursor on, once and in the order of the
    cursor: as many rows as are left in the batch. *)
Theorem unfiltered_scan_returns_every_row chunk_state bs slot :
  vector_qual_result bs = None ->
  qual chunk_state = None ->
  next_batch_row bs <= total_batch_rows bs ->
  length (compressed_columns bs) = num_compressed_columns chunk_state ->
  decompressed_scan_slot bs = Some slot ->
  columns_in_sync bs = true ->
  exists rows bs',
    advance_to_exhaustion chunk_state bs = Ok rows bs'
    /\ rows = (fun k => row_at chunk_state bs k slot) <$> seq 0 (rows_left bs)
    /\ Z.of_nat (length rows) = total_batch_rows bs - next_batch_row bs
    /\ next_batch_row bs' = total_batch_rows bs.
Proof.
  intros Hbitmap Hqual Hle Hlen Hslot Hsync.
  destruct (advance_to_exhaustion_spec chunk_state bs slot Hle Hlen Hslot Hsync)
    as (slot' & Hrun).
  eexists _, _. split; [exact Hrun|].
  assert (Hrows : passing_rows chunk_state bs slot 0 (rows_left bs)
                  = (fun k => row_at chunk_state bs k slot)
                      <$> seq 0 (rows_left bs)).
  { unfold passing_rows. rewrite filter_all_pass; [done|].
    intros j _. unfold row_passes, compressed_batch_vector_qual. simpl.
    by rewrite Hbitmap, Hqual. }
  rewrite Hrows. split_and!; [done| |done].
  rewrite length_fmap, length_seq. unfold rows_left. lia.
Qed.

Lemma mirrored_column_bulk total c :
  iterator c = None -> mirrored_column total c c.
Proof. intros Hit. unfold mirrored_column. by rewrite Hit. Qed.

Lemma columns_in_sync_bulk bs :
  Forall (fun c => iterator c = None) (compressed_columns bs) ->
  columns_in_sync bs = true.
Proof.
  intros Hbulk. unfold columns_in_sync. apply forallb_forall.
  intros c Hc%list_elem_of_In. rewrite Forall_forall in Hbulk.
  by rewrite (Hbulk c Hc).
Qed.

(** X12: for a batch none of whose columns is decoded row by row (every
    column is in bulk form or has a default value), a reverse scan of the
    loaded batch returns the rows of the forward scan in the opposite
    order, whatever the quals are. *)
Theorem bulk_batch_reverse_scan_is_reversed chunk_state bs slot :
  next_batch_row bs = 0 ->
  0 <= total_batch_rows bs ->
  length (compressed_columns bs) = num_compressed_columns chunk_state ->
  decompressed_scan_slot bs = Some slot ->
  Forall (fun c => iterator c = None) (compressed_columns bs) ->
  exists rows forward' backward',
    advance_to_exhaustion (with_reverse false chunk_state) bs
    = Ok rows forward'
    /\ advance_to_exhaustion (with_reverse true chunk_state) bs
       = Ok (rev rows) backward'.
Proof.
  intros Hnext Htotal Hlen Hslot Hbulk.
  pose proof (columns_in_sync_bulk bs Hbulk) as Hsync.
  destruct (advance_to_exhaustion_spec (with_reverse false chunk_state)
              bs slot) as (slot_f & Hrun_f); [lia|done..|].
  destruct (advance_to_exhaustion_spec (with_reverse true chunk_state)
              bs slot) as (slot_b & Hrun_b); [lia|done..|].
  eexists _, _, _. split; [exact Hrun_f|].
  rewrite Hrun_b. f_equal.
  apply passing_rows_mirror; try done.
  apply Forall2_same_length_lookup. split; [done|].
  intros i c1 c2 Hc1 Hc2. rewrite Hc1 in Hc2. injection Hc2 as <-.
  apply mirrored_column_bulk. rewrite Forall_forall in Hbulk.
  apply Hbulk. by eapply list_elem_of_lookup_2.
Qed.

(** ** The choice of the decoder *)

Section Decoder.
Context `{Collaborators}.

(** X13: when bulk decompression is disabled for the scan or not supported
    for a column, loading a batch never puts the column in bulk form: a
    stored value is decoded row by row, by an iterator that runs in the
    direction of the scan, and a missing one gives the default value. *)
Theorem bulk_decompression_disabled_iterates
    chunk_state subslot bs bs' j d c :
  compressed_batch_set_compressed_tuple chunk_state subslot bs = Ok tt bs' ->
  enable_bulk_decompression chunk_state && bulk_decompression_supported d
  = false ->
  (j < num_total_columns chunk_state)%nat ->
  template_columns chunk_state !! j = Some d ->
  type d = COMPRESSED_COLUMN ->
  compressed_columns bs' !! j = Some c ->
  exists compressed,
    compressed_slot bs' = Some compressed
    /\ let value := (slot_getattr compressed (compressed_scan_attno d)).1 in
       let header := PG_DETOAST_DATUM value in
       c = (if (slot_getattr compressed (compressed_scan_attno d)).2
            then empty_column (template_output_attno d)
            else with_iterator
                   (Some (tsl_get_decompression_iterator_init
                            (compression_algorithm header)
                            (reverse chunk_state) header (typid d)))
                   (empty_column (template_output_attno d)))
       /\ arrow c = None
       /\ arrow_values c = None.
Proof.
  intros (r0 & r1 & Hprepare & Hloop & Hquals)%compressed_batch_set_compressed_tuple_Ok
         Hoff Hj Hd Htype Hc.
  apply prepare_batch_state_Ok in Hprepare
    as (_ & _ & _ & _ & _ & _ & (c0 & Hc0 & _) & _).
  apply apply_vector_quals_frame in Hquals as (Hcq & _ & _ & _ & Hcolsq).
  rewrite Hcolsq in Hc. rewrite Hcq.
  set (compressed := ExecCopySlot c0 subslot) in *.
  set (expected :=
    if (slot_getattr compressed (compressed_scan_attno d)).2
    then empty_column (template_output_attno d)
    else with_iterator
           (Some (tsl_get_decompression_iterator_init
                    (compression_algorithm
                       (PG_DETOAST_DATUM
                          (slot_getattr compressed (compressed_scan_attno d)).1))
                    (reverse chunk_state)
                    (PG_DETOAST_DATUM
                       (slot_getattr compressed (compressed_scan_attno d)).1)
                    (typid d)))
           (empty_column (template_output_attno d))).
  destruct (load_loop_established chunk_state
              (fun s => compressed_slot s = Some compressed)
              (fun s => compressed_columns s !! j = Some expected)
              r0 r1 j) as [Hcompressed Hcolumn]; try done.
  { intros i s s' Hcs (d' & _ & Heffect)%set_column_from_tuple_Ok.
    pose proof (column_step_effect_frame _ _ _ _ _ Heffect) as (Hcs' & _).
    congruence. }
  { intros s s' Hcs (d' & Hd' & Heffect)%set_column_from_tuple_Ok.
    rewrite Hd in Hd'. injection Hd' as <-.
    unfold column_step_effect in Heffect. rewrite Htype in Heffect.
    destruct Heffect as (compressed' & c1 & Hcompressed' & Hc1 & Heffect).
    rewrite Hcs in Hcompressed'. injection Hcompressed' as <-.
    apply lookup_lt_Some in Hc1.
    cbv zeta in Heffect. rewrite Hoff in Heffect. unfold expected.
    destruct (slot_getattr compressed _).2.
    - destruct Heffect as (slot & _ & ->). simpl.
      by apply list_lookup_insert_eq.
    - subst s'. simpl. by apply list_lookup_insert_eq. }
  { intros i s s' Hi _ Hcolumn (d' & Hd' & Heffect)%set_column_from_tuple_Ok.
    pose proof (column_step_effect_frame _ _ _ _ _ Heffect)
      as (_ & _ & _ & _ & _ & _ & _ & Hother & _).
    rewrite Hother by lia. done. }
  exists compressed. split; [done|]. cbv zeta.
  rewrite Hcolumn in Hc. injection Hc as <-. fold expected.
  split; [done|]. unfold expected.
  by destruct (slot_getattr compressed _).2.
Qed.
End Decoder.

(** ** Vectorized aggregation in the planner *)

Section PlannerFacts.
Variable ts_is_decompress_chunk_path : Path -> bool.

(** X14: the aggregation is pushed into the DecompressChunk node exactly
    when vectorized aggregation is enabled, the query has no HAVING clause,
    the path is a DecompressChunk path, neither it nor the path of the
    compressed chunk has a restriction, and the only output of the
    aggregation is the sum of an int4.  The path then emits the partial
    aggregate: its target is the target of the aggregation and it is marked
    as performing the aggregation. *)
Theorem vectorized_agg_applies_iff guc root aggregation_path p p' :
  apply_vectorized_agg_optimization ts_is_decompress_chunk_path
    guc root aggregation_path p = Some (true, p')
  <-> guc = true
      /\ hasHavingQual root = false
      /\ ts_is_decompress_chunk_path p = true
      /\ exists path compressed_path others flag,
           p = DecompressChunkPath path (compressed_path :: others) flag
           /\ baserestrictinfo (parent path) = []
           /\ baserestrictinfo (parent compressed_path) = []
           /\ exprs (pathtarget (agg_path aggregation_path))
              = [Aggref F_SUM_INT4]
           /\ p' = DecompressChunkPath
                     {| parent := parent path;
                        pathtarget := pathtarget (agg_path aggregation_path) |}
                     (compressed_path :: others) true.
Proof.
  unfold apply_vectorized_agg_optimization, is_vectorizable_agg_path,
    is_restricted_path.
  split.
  - destruct guc; [|done]. simpl.
    destruct (hasHavingQual root); [done|].
    destruct (ts_is_decompress_chunk_path p); [|done]. simpl.
    destruct p as [path|path [|compressed_path others] flag]; [done..|].
    simpl.
    destruct (baserestrictinfo (parent path)) as [|? ?] eqn:Hr1; [|done].
    destruct (baserestrictinfo (parent compressed_path))
      as [|? ?] eqn:Hr2; [|done].
    simpl.
    destruct (exprs (pathtarget (agg_path aggregation_path)))
      as [|[aggfnoid|tag] [|? ?]] eqn:Hexprs; try done.
    simpl. destruct (aggfnoid =? F_SUM_INT4) eqn:Hsum; [|done].
    apply Z.eqb_eq in Hsum as ->. simpl. intros [= <-].
    split_and!; try done. by eexists _, _, _, _.
  - intros (-> & -> & -> & path & compressed_path & others & flag
            & -> & Hr1 & Hr2 & Hexprs & ->).
    simpl. rewrite Hr1, Hr2, Hexprs. done.
Qed.

(** X15: a call that does not push the aggregation down leaves the path as
    it is, and does not look at the path at all when vectorized aggregation
    is disabled; a call that pushes it down changes the target of the path
    and its mark, and nothing else: the paths below it and its relation are
    kept. *)
Theorem vectorized_agg_changes_only_target guc root aggregation_path p :
  (guc = false ->
   apply_vectorized_agg_optimization ts_is_decompress_chunk_path
     guc root aggregation_path p = Some (false, p))
  /\ (forall p',
        apply_vectorized_agg_optimization ts_is_decompress_chunk_path
          guc root aggregation_path p = Some (false, p') ->
        p' = p)
  /\ (forall p',
        apply_vectorized_agg_optimization ts_is_decompress_chunk_path
          guc root aggregation_path p = Some (true, p') ->
        exists path custom_paths flag,
          p = DecompressChunkPath path custom_paths flag
          /\ p' = DecompressChunkPath
                    {| parent := parent path;
                       pathtarget := pathtarget (agg_path aggregation_path) |}
                    custom_paths true
          /\ parent (path_fields p') = parent (path_fields p)).
Proof.
  unfold apply_vectorized_agg_optimization. split_and!.
  - by intros ->.
  - intros p'. destruct (negb guc); [by intros [= <-]|].
    destruct (is_vectorizable_agg_path _ _ _ _) as [[]|]; [|by intros [= <-]|done].
    by destruct p.
  - intros p'. destruct (negb guc); [done|].
    destruct (is_vectorizable_agg_path _ _ _ _) as [[]|]; [|done..].
    destruct p as [path|path custom_paths flag]; [done|].
    intros [= <-]. by eexists _, _, _.
Qed.
End PlannerFacts.

(** ** The further properties on the small inputs *)

Lemma example_int4_gt_narrows : predicate_narrows example_int4_gt.
Proof.
  intros vector constvalue predicate_result. unfold example_int4_gt. split.
  - apply length_imap.
  - intros row. unfold arrow_row_is_valid. rewrite list_lookup_imap.
    destruct (predicate_result !! Z.to_nat (row / 64)) as [word|];
      cbn [fmap option_fmap option_map default]; [|done].
    unfold id. rewrite Z.land_spec. by intros [? _]%andb_true_iff.
Qed.

Lemma example_predicates_narrow opcode predicate :
  get_vector_const_predicate opcode = Some predicate ->
  predicate_narrows predicate.
Proof.
  cbn [get_vector_const_predicate example_collaborators].
  destruct (opcode =? 147); [|done].
  intros [= <-]. apply example_int4_gt_narrows.
Qed.

Lemma example_columns_first :
  columns_first (example_chunk [] None) example_used_batch.
Proof.
  split; [vm_compute; lia|]. intros [|[|i]] d.
  - intros [= <-] Hne. contradiction Hne. reflexivity.
  - intros [= <-] Hne. contradiction Hne. reflexivity.
  - intros _ _. vm_compute. lia.
Qed.

(** Only the template [j] of the small scan stores at offset [a], when
    [a] is its offset. *)
Lemma example_no_other_template j a :
  (a < 3)%nat -> j = a ->
  forall i d', i <> j -> (i < num_total_columns (example_chunk [] None))%nat ->
    template_columns (example_chunk [] None) !! i = Some d' ->
    ~ stores_at d' a.
Proof.
  intros Ha -> [|[|[|[|i]]]] d' Hne Hi; [..|vm_compute in Hi; lia];
    intros [= <-] [_ Hattr]; unfold AttrNumberGetAttrOffset in Hattr;
    simpl in Hattr; lia.
Qed.

Lemma loaded_row_count_is_count_column_witness :
  compressed_batch_set_compressed_tuple (example_chunk [] None)
    (example_subslot (1, false) (2, false) 3) example_used_batch
  = Ok tt example_loaded
  /\ total_batch_rows example_loaded = 3.
Proof.
  split; [by vm_compute|].
  edestruct (loaded_row_count_is_count_column (example_chunk [] None)
               (example_subslot (1, false) (2, false) 3) example_used_batch
               example_loaded 3%nat)
    as (compressed & Hcompressed & _ & _ & Htotal & _);
    [by vm_compute|vm_compute; lia|reflexivity|reflexivity|].
  vm_compute in Hcompressed. injection Hcompressed as <-.
  etrans; [exact Htotal|]. by vm_compute.
Defined.

Lemma loaded_bulk_columns_have_batch_length_witness :
  (compressed_columns example_loaded !! 0%nat = Some example_bulk_column
   /\ (arrow_length example_arrow = total_batch_rows example_loaded
       \/ arrow_length example_arrow = 0))
  /\ @compressed_batch_set_compressed_tuple example_long_collaborators
       (example_chunk [] None)
       (example_subslot (1, false) (2, false) 3) example_used_batch
     = Ok tt example_loaded_long
  /\ total_batch_rows example_loaded_long = 3
  /\ (to_int (arrow_length example_long_arrow)
      = total_batch_rows example_loaded_long
      \/ to_int (arrow_length example_long_arrow) = 0).
Proof.
  split; [split; [by vm_compute|]|split_and!; [by vm_compute..|]].
  - edestruct (loaded_bulk_columns_have_batch_length (example_chunk [] None)
                 (example_subslot (1, false) (2, false) 3) example_used_batch
                 example_loaded 0%nat)
      as [_ Hlength];
      [by vm_compute|vm_compute; lia|reflexivity|reflexivity|by vm_compute
      |reflexivity|].
    apply Hlength. vm_compute. split; discriminate.
  - edestruct (@loaded_bulk_columns_have_batch_length
                 example_long_collaborators (example_chunk [] None)
                 (example_subslot (1, false) (2, false) 3) example_used_batch
                 example_loaded_long 0%nat)
      as [Hnarrowed _];
      [by vm_compute|vm_compute; lia|reflexivity|reflexivity|by vm_compute
      |reflexivity|].
    exact Hnarrowed.
Defined.

Lemma advance_leaves_other_attributes_witness :
  slot_attribute 2
    (outcome_state
       (compressed_batch_advance (example_chunk [] None)
          (example_batch None example_values)))
  = Some (Some 0, Some true).
Proof.
  destruct (advance_leaves_other_attributes (example_chunk [] None)
              example_slot (example_batch None example_values) 2)
    as [Hadvance _].
  - intros c [->|[->|[]%elem_of_nil]%elem_of_cons]%elem_of_cons [_ Hattr];
      discriminate Hattr.
  - etrans; [exact Hadvance|]. by vm_compute.
Defined.

Lemma segmentby_value_in_every_row_witness :
  exists slot',
    decompressed_scan_slot example_loaded = Some slot'
    /\ tts_values slot' !! 2%nat = Some 42
    /\ forall rows s',
         advance_to_exhaustion (example_chunk [] None) example_loaded
         = Ok rows s' ->
         forall row, row ∈ rows -> tts_values row !! 2%nat = Some 42.
Proof.
  destruct (decompressed_scan_slot example_loaded) as [slot'|] eqn:Hslot;
    [|by vm_compute in Hslot].
  edestruct segmentby_value_in_every_row
    with (chunk_state := example_chunk [] None)
         (subslot := example_subslot (1, false) (2, false) 3)
         (bs := example_used_batch) (bs' := example_loaded)
         (j := 2%nat) (a := 2%nat) (slot' := slot')
    as (compressed & Hcompressed & _ & _ & Hvalue & _ & Hrows);
    [by vm_compute|exact example_columns_first|vm_compute; lia|reflexivity
    |reflexivity|reflexivity|apply example_no_other_template; [lia|reflexivity]
    |exact Hslot
    |vm_compute in Hslot; injection Hslot as <-; vm_compute; lia
    |vm_compute in Hslot; injection Hslot as <-; vm_compute; lia|].
  vm_compute in Hcompressed. injection Hcompressed as <-.
  exists slot'. split_and!; [reflexivity|exact Hvalue|].
  intros rows s' Hscan row Hrow. by apply (Hrows rows s' Hscan row Hrow).
Defined.

Lemma default_value_in_every_row_witness :
  exists slot',
    decompressed_scan_slot example_loaded_default = Some slot'
    /\ compressed_columns example_loaded_default !! 0%nat
       = Some (empty_column 1)
    /\ tts_values slot' !! 0%nat = Some 0
    /\ tts_isnull slot' !! 0%nat = Some false
    /\ forall rows s',
         advance_to_exhaustion (example_chunk [] None) example_loaded_default
         = Ok rows s' ->
         forall row, row ∈ rows -> tts_values row !! 0%nat = Some 0.
Proof.
  destruct (decompressed_scan_slot example_loaded_default) as [slot'|]
    eqn:Hslot; [|by vm_compute in Hslot].
  assert (Hdesc : tts_tupleDescriptor slot' = example_tupdesc).
  { vm_compute in Hslot. by injection Hslot as <-. }
  edestruct default_value_in_every_row
    with (chunk_state := example_chunk [] None)
         (subslot := example_subslot (0, true) (2, false) 3)
         (bs := example_used_batch) (bs' := example_loaded_default)
         (j := 0%nat) (a := 0%nat) (slot' := slot')
    as (Hcolumn & Hvalue & Hnull & Hrows);
    [by vm_compute|exact example_columns_first|vm_compute; lia|reflexivity
    |reflexivity|reflexivity|apply example_no_other_template; [lia|reflexivity]
    |exact Hslot
    |vm_compute in Hslot; injection Hslot as <-; vm_compute; lia
    |vm_compute in Hslot; injection Hslot as <-; vm_compute; lia
    |by vm_compute|by vm_compute|].
  rewrite Hdesc in Hvalue, Hnull, Hrows.
  exists slot'. split_and!;
    [reflexivity|exact Hcolumn|exact Hvalue|exact Hnull|].
  intros rows s' Hscan row Hrow. by apply (Hrows rows s' Hscan row Hrow).
Defined.

Lemma unpopulated_attributes_are_null_witness :
  compressed_batch_set_compressed_tuple example_chunk_dropped
    (example_subslot (1, false) (2, false) 3) example_fresh_batch
  = Ok tt example_loaded_dropped
  /\ exists slot',
       decompressed_scan_slot example_loaded_dropped = Some slot'
       /\ tts_isnull slot' !! 2%nat = Some true.
Proof.
  split; [by vm_compute|].
  destruct (unpopulated_attributes_are_null example_chunk_dropped
              (example_subslot (1, false) (2, false) 3) example_fresh_batch
              example_loaded_dropped 2)
    as (slot' & Hslot & _ & Hnull & _).
  - reflexivity.
  - by vm_compute.
  - split; [vm_compute; lia|]. intros [|[|i]] d.
    + intros [= <-] Hne. contradiction Hne. reflexivity.
    + intros [= <-] Hne. contradiction Hne. reflexivity.
    + intros _ _. vm_compute. lia.
  - vm_compute. lia.
  - intros [|[|[|i]]] d Hi; [..|vm_compute in Hi; lia];
      intros [= <-] [_ Hattr]; by vm_compute in Hattr.
  - by exists slot'.
Defined.

Lemma vectorized_quals_only_exclude_rows_witness :
  exists bs' bitmap',
    foreach [example_qual]
      (apply_vector_qual (example_chunk [example_qual] None) 8)
      (example_batch (Some [6]) example_values) = Ok tt bs'
    /\ vector_qual_result bs' = Some bitmap'
    /\ arrow_row_is_valid (Some bitmap') 0 = false.
Proof.
  pose (bs' := outcome_state
                 (foreach [example_qual]
                    (apply_vector_qual (example_chunk [example_qual] None) 8)
                    (example_batch (Some [6]) example_values))).
  destruct (vectorized_quals_only_exclude_rows example_predicates_narrow
              (example_chunk [example_qual] None) 8 [example_qual]
              (example_batch (Some [6]) example_values) bs' [6])
    as (bitmap' & Hbitmap & _ & Hrows); [by vm_compute|reflexivity|].
  exists bs', bitmap'. split_and!; [by vm_compute|exact Hbitmap|].
  apply Hrows. reflexivity.
Defined.

Lemma loaded_bitmap_has_a_bit_for_each_row_witness :
  (exists bs' bitmap,
      apply_vector_quals (example_chunk [example_qual] None)
        (example_batch None example_values) = Ok tt bs'
      /\ vector_qual_result bs' = Some bitmap
      /\ length bitmap = 1%nat)
  /\ exists size,
       apply_vector_quals (example_chunk [example_qual] None)
         (with_total_batch_rows INT_MAX (example_batch None example_values))
       = Raise (invalid_memory_alloc_request_size size)
           (with_total_batch_rows INT_MAX
              (example_batch None example_values))
       /\ MaxAllocSize < size.
Proof.
  split.
  - pose (bs' := outcome_state
                   (apply_vector_quals (example_chunk [example_qual] None)
                      (example_batch None example_values))).
    destruct (loaded_bitmap_has_a_bit_for_each_row example_predicates_narrow
                (example_chunk [example_qual] None)
                (example_batch None example_values))
      as (_ & _ & Hquals); [vm_compute; split; discriminate|].
    destruct (Hquals bs') as (_ & bitmap & Hbitmap & Hlen & _);
      [discriminate|by vm_compute|].
    exists bs', bitmap. split_and!; [by vm_compute|exact Hbitmap|].
    change ((total_batch_rows (example_batch None example_values) + 63) / 64)
      with 1 in Hlen.
    lia.
  - destruct (loaded_bitmap_has_a_bit_for_each_row example_predicates_narrow
                (example_chunk [example_qual] None)
                (with_total_batch_rows INT_MAX
                   (example_batch None example_values)))
      as (_ & Hover & _); [vm_compute; split; discriminate|].
    apply Hover; [discriminate|by vm_compute].
Defined.

Lemma single_value_arrow_round_trip_witness :
  exists vector values bs',
    make_single_value_arrow INT4OID (2 ^ 32 + 7) false
      (example_batch None example_values) = Ok vector bs'
    /\ buffers_1 vector = Some values
    /\ read_uint64 values (4 * 0) = 7.
Proof.
  destruct (single_value_arrow_round_trip INT4OID (2 ^ 32 + 7)
              (example_batch None example_values))
    as (_ & _ & Hvalue).
  destruct (Hvalue 4 eq_refl)
    as (vector & values & bs' & Hrun & _ & _ & Hvalues & _ & Hword & _).
  exists vector, values, bs'. split_and!; [exact Hrun|exact Hvalues|].
  etrans; [exact Hword|]. by vm_compute.
Defined.

Lemma unfiltered_scan_returns_every_row_witness :
  exists rows bs',
    advance_to_exhaustion (example_chunk [] None)
      (example_batch None example_values) = Ok rows bs'
    /\ length rows = 3%nat.
Proof.
  destruct (unfiltered_scan_returns_every_row (example_chunk [] None)
              (example_batch None example_values) example_slot)
    as (rows & bs' & Hrun & _ & Hlen & _);
    [reflexivity|reflexivity|vm_compute; discriminate|reflexivity
    |reflexivity|by vm_compute|].
  exists rows, bs'. split; [exact Hrun|].
  change (total_batch_rows (example_batch None example_values)
          - next_batch_row (example_batch None example_values))
    with 3 in Hlen.
  lia.
Defined.

Lemma bulk_batch_reverse_scan_is_reversed_witness :
  exists rows forward' backward',
    advance_to_exhaustion (with_reverse false (example_chunk [] None))
      (example_bulk_batch (Some [5])) = Ok rows forward'
    /\ advance_to_exhaustion (with_reverse true (example_chunk [] None))
         (example_bulk_batch (Some [5])) = Ok (rev rows) backward'.
Proof.
  apply (bulk_batch_reverse_scan_is_reversed (example_chunk [] None)
           (example_bulk_batch (Some [5])) example_slot);
    [reflexivity|vm_compute; discriminate|reflexivity|reflexivity|].
  repeat constructor.
Defined.

Lemma bulk_decompression_disabled_iterates_witness :
  exists c,
    compressed_columns example_loaded !! 1%nat = Some c
    /\ arrow c = None
    /\ is_Some (iterator c).
Proof.
  destruct (compressed_columns example_loaded !! 1%nat) as [c|] eqn:Hc;
    [|by vm_compute in Hc].
  edestruct bulk_decompression_disabled_iterates
    with (chunk_state := example_chunk [] None)
         (subslot := example_subslot (1, false) (2, false) 3)
         (bs := example_used_batch) (bs' := example_loaded)
         (j := 1%nat) (c := c)
    as (compressed & _ & _ & Harrow & _);
    [by vm_compute|idtac|vm_compute; lia|reflexivity|reflexivity
    |exact Hc|]; [reflexivity|].
  exists c. split_and!; [reflexivity|exact Harrow|].
  vm_compute in Hc. injection Hc as <-. by eexists.
Defined.

Lemma vectorized_agg_applies_iff_witness :
  exists p',
    apply_vectorized_agg_optimization example_is_decompress_chunk_path
      true {| hasHavingQual := false |} (example_agg_path F_SUM_INT4)
      (example_path []) = Some (true, p')
    /\ apply_vectorized_agg_optimization example_is_decompress_chunk_path
         true {| hasHavingQual := false |} (example_agg_path F_SUM_INT4)
         (example_path [OtherNode 3])
       = Some (false, example_path [OtherNode 3]).
Proof.
  eexists. split; [|reflexivity].
  apply (vectorized_agg_applies_iff example_is_decompress_chunk_path).
  split_and!; try reflexivity.
  eexists _, _, _, _. split_and!; reflexivity.
Defined.

Lemma vectorized_agg_changes_only_target_witness :
  apply_vectorized_agg_optimization example_is_decompress_chunk_path
    false {| hasHavingQual := false |} (example_agg_path F_SUM_INT4)
    (example_path []) = Some (false, example_path []).
Proof.
  by apply (vectorized_agg_changes_only_target
              example_is_decompress_chunk_path false).
Defined.
